(** * mtpsync: the synchronisation engine, its retry policy and plan store

    A shallow embedding of

      - [utils/retries.py]   (the [with_retry] decorator),
      - [utils/checksum.py]  (the checksums, hashed in chunks),
      - [mtp_client.py]      (the decorated device operations of [MTPClient],
                              the building of its index, [close]),
      - [mtpsync/models.py]  (the node classes of the remote index),
      - [mtpsync/sync.py]    ([SyncEngine]: verify, execute and their helpers),

    together with the parts of the Python standard library these files
    lean on ([str] methods, [posixpath], [pathlib] joins, the [json]
    encoder and decoder on plan documents).

    Conventions.  A Python [str] is a [string] whose characters are code
    points below 256.  A Python [dict] that is iterated or persisted (a
    plan) is an insertion-ordered association list; the dicts of the
    remote index, which are only looked up and updated, are [gmap]s.
    Objects that are shared by reference (the node objects of
    [path_map], [id_map] and [children]) live in a heap of addresses.
    Effects are threaded through a state-and-exception monad that also
    collects the observable events of a run.  Delays are exact
    rationals: the rounding of Python floats is not modelled. *)

From Stdlib Require Import ZArith QArith List Ascii String Bool Lia.
From stdpp Require Import gmap strings pretty.
Import ListNotations.

Close Scope Q_scope.
Open Scope string_scope.
Open Scope nat_scope.
Open Scope list_scope.

(* ===================================================================== *)
(** * Python strings and paths *)
(* ===================================================================== *)

Module Str.

(** [s.startswith(p)] *)
Definition startswith (p s : string) : bool := String.prefix p s.

(** [s.endswith(p)] *)
Definition endswith (p s : string) : bool :=
  String.prefix (String.rev p) (String.rev s).

(** [s.split(sep)] for a one-character separator: never empty, adjacent
    separators give empty pieces. *)
Fixpoint split (sep : ascii) (s : string) : list string :=
  match s with
  | EmptyString => [EmptyString]
  | String c s' =>
      if Ascii.eqb c sep then EmptyString :: split sep s'
      else match split sep s' with
           | [] => [String c EmptyString]
           | x :: xs => String c x :: xs
           end
  end.

(** [sep.join(l)] *)
Fixpoint join (sep : string) (l : list string) : string :=
  match l with
  | [] => ""
  | [x] => x
  | x :: xs => x +:+ sep +:+ join sep xs
  end.

(** [s.replace(a, b)] for one-character [a] and [b]. *)
Fixpoint replace (a b : ascii) (s : string) : string :=
  match s with
  | EmptyString => EmptyString
  | String c s' => String (if Ascii.eqb c a then b else c) (replace a b s')
  end.

(** [c * n] *)
Fixpoint times (c : ascii) (n : nat) : string :=
  match n with O => "" | S n => String c (times c n) end.

(** [s.rstrip(c)] *)
Fixpoint rstrip (c : ascii) (s : string) : string :=
  match s with
  | EmptyString => EmptyString
  | String d s' =>
      match rstrip c s' with
      | EmptyString => if Ascii.eqb d c then EmptyString else String d EmptyString
      | r => String d r
      end
  end.

(** [(p[:i], p[i:])] with [i = p.rfind(c) + 1]. *)
Fixpoint rpartition (c : ascii) (p : string) : string * string :=
  match p with
  | EmptyString => (EmptyString, EmptyString)
  | String d p' =>
      match rpartition c p' with
      | (EmptyString, t) =>
          if Ascii.eqb d c then (String d EmptyString, t)
          else (EmptyString, String d t)
      | (h, t) => (String d h, t)
      end
  end.

Definition is_empty (s : string) : bool :=
  match s with EmptyString => true | _ => false end.

(** [s[n:]] *)
Fixpoint drop (n : nat) (s : string) : string :=
  match n, s with
  | S n, String _ s' => drop n s'
  | _, _ => s
  end.

End Str.

(** [posixpath], as used by [sync.py]. *)
Module PosixPath.
Import Str.

Definition sep : ascii := "/"%char.

(** One step of the component loop of [normpath]. *)
Definition norm_step (initial_slashes : nat) (new_comps : list string)
    (comp : string) : list string :=
  if String.eqb comp "" || String.eqb comp "." then new_comps
  else if negb (String.eqb comp "..")
          || (Nat.eqb initial_slashes 0 && Nat.eqb (length new_comps) 0)
          || (negb (Nat.eqb (length new_comps) 0)
              && String.eqb (List.last new_comps "") "..")
       then new_comps ++ [comp]
       else if negb (Nat.eqb (length new_comps) 0)
            then removelast new_comps
            else new_comps.

(** [os.path.normpath(path)] *)
Definition normpath (path : string) : string :=
  if is_empty path then "."
  else
    let initial_slashes :=
      if startswith "/" path
      then if startswith "//" path && negb (startswith "///" path)
           then 2%nat else 1%nat
      else 0%nat in
    let comps := fold_left (norm_step initial_slashes) (split sep path) [] in
    let path := times sep initial_slashes +:+ join "/" comps in
    if is_empty path then "." else path.

(** [os.path.dirname(p)] *)
Definition dirname (p : string) : string :=
  let head := fst (rpartition sep p) in
  if negb (is_empty head) && negb (String.eqb head (times sep (String.length head)))
  then rstrip sep head
  else head.

(** [os.path.basename(p)] *)
Definition basename (p : string) : string := snd (rpartition sep p).

(** [os.path.join(a, b)] *)
Definition join2 (a b : string) : string :=
  if startswith "/" b then b
  else if is_empty a || endswith "/" a then a +:+ b
  else a +:+ "/" +:+ b.

End PosixPath.

(** [pathlib]: the [/] operator on an absolute base path.  The right
    operand is parsed as [PurePosixPath] does: empty and ["."] components
    disappear, an absolute operand replaces the base. *)
Module PathLib.
Import Str.

Definition parts (s : string) : list string :=
  List.filter (fun c => negb (String.eqb c "" || String.eqb c ".")) (split "/"%char s).

Definition root_of (s : string) : string :=
  if startswith "/" s
  then if startswith "//" s && negb (startswith "///" s) then "//" else "/"
  else "".

Definition joinpath (base rel : string) : string :=
  if startswith "/" rel then root_of rel +:+ join "/" (parts rel)
  else match parts rel with
       | [] => base
       | ps => (if endswith "/" base then base else base +:+ "/") +:+ join "/" ps
       end.

(** The root (["/"], ["//"]) and the working directory ([""]): the
    paths that are their own parent. *)
Definition is_anchor (p : string) : bool :=
  String.eqb p (times "/" (String.length p)).

(** [p.parents], the nearest first, without the root or the working
    directory that ends it: at most [n] of them. *)
Fixpoint parents_upto (n : nat) (p : string) : list string :=
  match n with
  | O => []
  | S n =>
      let d := PosixPath.dirname p in
      if is_anchor d then [] else d :: parents_upto n d
  end.

(** Every step shortens the path, so its length is enough. *)
Definition parents (p : string) : list string :=
  parents_upto (String.length p) p.

End PathLib.

(* ===================================================================== *)
(** * Ordered dictionaries and the plan documents of [json] *)
(* ===================================================================== *)

(** A Python [dict] with [str] keys whose order is observed: the items in
    insertion order.  [d[k] = v] keeps the position of a key that is
    already present and appends a new one. *)
Module Dict.

Definition t (V : Type) := list (string * V).

Fixpoint get {V} (k : string) (d : t V) : option V :=
  match d with
  | [] => None
  | (k', v) :: r => if String.eqb k' k then Some v else get k r
  end.

Fixpoint set {V} (k : string) (v : V) (d : t V) : t V :=
  match d with
  | [] => [(k, v)]
  | (k', v') :: r =>
      if String.eqb k' k then (k, v) :: r else (k', v') :: set k v r
  end.

Definition keys {V} (d : t V) : list string := map fst d.

Definition mem {V} (k : string) (d : t V) : bool :=
  match get k d with Some _ => true | None => false end.

(** The lists that are dictionaries: no key twice. *)
Fixpoint wf {V} (d : t V) : bool :=
  match d with
  | [] => true
  | (k, _) :: r => negb (mem k r) && wf r
  end.

End Dict.

(** A plan: relative path to entry type, both Python strings. *)
Definition Plan := Dict.t string.

Module Json.

Definition dquote : ascii := "034"%char.
Definition bslash : ascii := "\"%char.

Definition hex_digit (n : nat) : ascii :=
  match n with
  | 0 => "0" | 1 => "1" | 2 => "2" | 3 => "3" | 4 => "4" | 5 => "5"
  | 6 => "6" | 7 => "7" | 8 => "8" | 9 => "9" | 10 => "a" | 11 => "b"
  | 12 => "c" | 13 => "d" | 14 => "e" | _ => "f"
  end%char%nat.

Definition hex_value (c : ascii) : option nat :=
  let n := nat_of_ascii c in
  if (48 <=? n) && (n <=? 57) then Some (n - 48)
  else if (97 <=? n) && (n <=? 102) then Some (n - 87)
  else if (65 <=? n) && (n <=? 70) then Some (n - 55)
  else None.

(** ** Encoder: [json.dump(plan, f, indent=2)]

    [ensure_ascii] is on: the backslash, the quote and every character
    outside [' '..'~'] are escaped, with the short forms of
    [ESCAPE_DCT] where there is one and [\uXXXX] otherwise. *)
Definition escape_char (c : ascii) : string :=
  let n := nat_of_ascii c in
  if Ascii.eqb c dquote then String bslash (String dquote "")
  else if Ascii.eqb c bslash then String bslash (String bslash "")
  else if Nat.eqb n 10 then String bslash "n"
  else if Nat.eqb n 13 then String bslash "r"
  else if Nat.eqb n 9 then String bslash "t"
  else if Nat.eqb n 12 then String bslash "f"
  else if Nat.eqb n 8 then String bslash "b"
  else if (32 <=? n) && (n <=? 126) then String c ""
  else String bslash
         (String "u"
            (String (hex_digit (n / 4096 mod 16))
               (String (hex_digit (n / 256 mod 16))
                  (String (hex_digit (n / 16 mod 16))
                     (String (hex_digit (n mod 16)) ""))))).

Fixpoint escape (s : string) : string :=
  match s with
  | EmptyString => EmptyString
  | String c s' => escape_char c +:+ escape s'
  end.

Definition encode_str (s : string) : string :=
  String dquote (escape s +:+ String dquote "").

Definition newline_indent : string := String "010"%char "  ".
Definition item_separator : string := "," +:+ newline_indent.
Definition key_separator : string := ": ".

(** The loop of [_iterencode_dict] over [dct.items()]. *)
Fixpoint dump_items (first : bool) (d : Plan) : string :=
  match d with
  | [] => ""
  | (k, v) :: r =>
      (if first then "" else item_separator)
      +:+ encode_str k +:+ key_separator +:+ encode_str v
      +:+ dump_items false r
  end.

(** The end of a non-empty object: a newline and the closing brace. *)
Definition closing : string := String "010"%char "}".

Definition dumps (d : Plan) : string :=
  match d with
  | [] => "{}"
  | _ => "{" +:+ newline_indent +:+ dump_items true d +:+ closing
  end.

(** ** Decoder: [json.load(f)] on plan documents

    The decoder is run as an automaton over the characters of the
    document.  It decides the documents that are one JSON object whose
    values are strings with code points below 256; on any other
    document that may still be JSON it answers [Unsupported], and on a
    document that is not JSON, [Malformed] ([json.JSONDecodeError]). *)
Inductive load_result :=
| Loaded (d : Plan)
| Malformed
| Unsupported.

Inductive slot := InKey | InVal (key : string).

Inductive pstate :=
| PStart
| PFirstKey
| PStr (sl : slot) (acc : string)
| PEsc (sl : slot) (acc : string)
| PUni (sl : slot) (acc : string) (todo : nat) (v : nat)
| PColon (key : string)
| PValue (key : string)
| PNext
| PKey
| PEnd.

Definition is_ws (c : ascii) : bool :=
  let n := nat_of_ascii c in
  Nat.eqb n 32 || Nat.eqb n 9 || Nat.eqb n 10 || Nat.eqb n 13.

Definition snoc (s : string) (c : ascii) : string := s +:+ String c "".

(** The closing quote of a string literal. *)
Definition close_str (sl : slot) (acc : string) (d : Plan) : pstate * Plan :=
  match sl with
  | InKey => (PColon acc, d)
  | InVal key => (PNext, Dict.set key acc d)
  end.

Definition unescape (c : ascii) : option ascii :=
  if Ascii.eqb c dquote then Some dquote
  else if Ascii.eqb c bslash then Some bslash
  else if Ascii.eqb c "/" then Some "/"%char
  else if Ascii.eqb c "b" then Some "008"%char
  else if Ascii.eqb c "f" then Some "012"%char
  else if Ascii.eqb c "n" then Some "010"%char
  else if Ascii.eqb c "r" then Some "013"%char
  else if Ascii.eqb c "t" then Some "009"%char
  else None.

Fixpoint run (st : pstate) (d : Plan) (s : string) : load_result :=
  match s with
  | EmptyString => match st with PEnd => Loaded d | _ => Malformed end
  | String c s' =>
      match st with
      | PStart =>
          if is_ws c then run PStart d s'
          else if Ascii.eqb c "{" then run PFirstKey d s'
          else Unsupported
      | PFirstKey =>
          if is_ws c then run PFirstKey d s'
          else if Ascii.eqb c dquote then run (PStr InKey "") d s'
          else if Ascii.eqb c "}" then run PEnd d s'
          else Malformed
      | PStr sl acc =>
          if Ascii.eqb c dquote
          then let '(st', d') := close_str sl acc d in run st' d' s'
          else if Ascii.eqb c bslash then run (PEsc sl acc) d s'
          else if nat_of_ascii c <? 32 then Malformed
          else run (PStr sl (snoc acc c)) d s'
      | PEsc sl acc =>
          if Ascii.eqb c "u" then run (PUni sl acc 4 0) d s'
          else match unescape c with
               | Some x => run (PStr sl (snoc acc x)) d s'
               | None => Malformed
               end
      | PUni sl acc todo v =>
          match hex_value c with
          | None => Malformed
          | Some h =>
              let v' := (v * 16 + h)%nat in
              match todo with
              | 0 | 1 =>
                  if v' <? 256
                  then run (PStr sl (snoc acc (ascii_of_nat v'))) d s'
                  else Unsupported
              | S todo' => run (PUni sl acc todo' v') d s'
              end
          end
      | PColon key =>
          if is_ws c then run (PColon key) d s'
          else if Ascii.eqb c ":" then run (PValue key) d s'
          else Malformed
      | PValue key =>
          if is_ws c then run (PValue key) d s'
          else if Ascii.eqb c dquote then run (PStr (InVal key) "") d s'
          else Unsupported
      | PNext =>
          if is_ws c then run PNext d s'
          else if Ascii.eqb c "," then run PKey d s'
          else if Ascii.eqb c "}" then run PEnd d s'
          else Malformed
      | PKey =>
          if is_ws c then run PKey d s'
          else if Ascii.eqb c dquote then run (PStr InKey "") d s'
          else Malformed
      | PEnd =>
          if is_ws c then run PEnd d s' else Malformed
      end
  end.

Definition loads (s : string) : load_result := run PStart [] s.

End Json.


(* ===================================================================== *)
(** * Python exceptions *)
(* ===================================================================== *)

Module Py.

(** The exception classes that occur in the embedded code, with the
    two that derive from [BaseException] directly. *)
Inductive pyclass :=
| BaseException | Exception | KeyboardInterrupt | SystemExit
| RuntimeError | ValueError | JSONDecodeError | TypeError | NameError
| OSError | FileNotFoundError | FileExistsError | PermissionError
| IsADirectoryError | NotADirectoryError.

#[global] Instance pyclass_eq_dec : EqDecision pyclass.
Proof. solve_decision. Defined.

(** Method resolution order: the class and its ancestors. *)
Definition mro (c : pyclass) : list pyclass :=
  match c with
  | BaseException => [BaseException]
  | Exception => [Exception; BaseException]
  | KeyboardInterrupt => [KeyboardInterrupt; BaseException]
  | SystemExit => [SystemExit; BaseException]
  | RuntimeError => [RuntimeError; Exception; BaseException]
  | ValueError => [ValueError; Exception; BaseException]
  | JSONDecodeError => [JSONDecodeError; ValueError; Exception; BaseException]
  | TypeError => [TypeError; Exception; BaseException]
  | NameError => [NameError; Exception; BaseException]
  | OSError => [OSError; Exception; BaseException]
  | FileNotFoundError => [FileNotFoundError; OSError; Exception; BaseException]
  | FileExistsError => [FileExistsError; OSError; Exception; BaseException]
  | PermissionError => [PermissionError; OSError; Exception; BaseException]
  | IsADirectoryError => [IsADirectoryError; OSError; Exception; BaseException]
  | NotADirectoryError => [NotADirectoryError; OSError; Exception; BaseException]
  end.

Definition issubclass (c d : pyclass) : bool :=
  existsb (fun x => bool_decide (x = d)) (mro c).

(** An exception object: its class and its message. *)
Record exn := mk_exn { exn_class : pyclass; exn_msg : string }.

(** [isinstance(e, classes)], the test of an [except classes] clause. *)
Definition isinstance (e : exn) (classes : list pyclass) : bool :=
  existsb (issubclass (exn_class e)) classes.

(** The outcome of a call: a value or a raised exception. *)
Inductive Res (A : Type) :=
| Ok (a : A)
| Raise (e : exn).
Arguments Ok {A} a.
Arguments Raise {A} e.

End Py.
Import Py.

(* ===================================================================== *)
(** * The remote index ([models.py]) and the host *)
(* ===================================================================== *)

(** Node objects are shared between [path_map], [id_map] and the
    [children] of their parent: they are referred to by address. *)
Definition addr := nat.

Inductive Node :=
| FileNode (id : Z) (size : Z)
| FolderNode (id : Z) (children : gmap string addr).

Definition node_id (n : Node) : Z :=
  match n with FileNode i _ => i | FolderNode i _ => i end.

Record IDEntry := mk_IDEntry {
  element : addr;
  full_path : string;
  parent : option addr
}.

(** What the host filesystem holds at a path. *)
Inductive HostNode :=
| HostFile (content : string) (readable : bool)
| HostDir (st_size : Z).

(** The calls of the logger, one constructor per call site. *)
Inductive logrec :=
| LogMaxRetries (max_retries : Z) (func_name : string)
| LogRetry (retry_count max_retries : Z) (func_name : string) (e : exn) (delay : Q)
| LogDownloadFailed (file_id : Z) (target_path : string)
| LogUploadFailed (source_path : string) (parent_id : Z)
| LogMkdirFailed (folder_name : string) (parent_id : Z)
| LogNoPlan
| LogCompareError (rel_path : string) (e : exn)
| LogCreateDirFailed (next_path : string) (e : exn)
| LogSourceNotFound (source_path : string)
| LogParentCreateFailed (parent_rel_path : string)
| LogParentNotInMap (parent_dest_path : string)
| LogParentNotFolder (parent_dest_path : string)
| LogChecksumMismatch (rel_path : string)
| LogSyncFailed (rel_path : string) (e : exn).

Inductive level := ERROR | WARNING | INFO.

Definition log_level (r : logrec) : level :=
  match r with
  | LogRetry _ _ _ _ _ => WARNING
  | LogNoPlan => INFO
  | _ => ERROR
  end.

(** The observable events of a run, in the order they happen.
    [EvAttempt] marks a call of the function wrapped by [with_retry] and
    [EvEntry] the end of the processing of one plan entry by [execute];
    the others are the calls that leave the process. *)
Inductive event :=
| EvAttempt (func_name : string)
| EvSleep (delay : Q)
| EvLog (r : logrec)
| EvCreateFolder (name : string) (parent_id storage_id : Z) (result : Z)
| EvSendFile (source_path : string) (parent_id : Z) (filename : string)
    (filesize : Z) (result : Z) (item_id : Z)
| EvGetFile (file_id : Z) (target_path : string) (result : Z)
| EvEntry (rel_path entry_type : string) (success : bool).

(** ctypes conversions at the library boundary. *)
Definition c_uint32 (z : Z) : Z := (z mod 2 ^ 32)%Z.
Definition c_uint64 (z : Z) : Z := (z mod 2 ^ 64)%Z.
Definition c_int (z : Z) : Z := ((z + 2 ^ 31) mod 2 ^ 32 - 2 ^ 31)%Z.

(** What the embedded code takes from outside: libmtp and the device
    behind it, the digest of [hashlib], the random and uuid sources, the
    directory walk of the host and the place of the data directory. *)
Class Host := {
  Dev : Type;
  LIBMTP_Create_Folder : Dev -> string -> Z -> Z -> Z * Dev;
  LIBMTP_Send_File_From_File :
    Dev -> string -> option HostNode -> Z -> string -> Z -> (Z * Z) * Dev;
  LIBMTP_Get_File_To_File : Dev -> Z -> string -> (Z * option string) * Dev;
  hexdigest : string -> string;
  random_uniform : nat -> Q;
  uuid4_hex : nat -> string;
  os_walk : gmap string HostNode -> string -> list (string * list string);
  latest_retry_plan : gmap string HostNode -> option string;
  DATA_DIR : string
}.

Definition MAX_RETRIES : Z := 3.
Definition RETRY_BACKOFF_FACTOR : Q := 2%Q.
Definition TEMP_DIR : string := "/tmp/mtpsync".

Section Engine.
Context {H : Host}.

Definition DEFAULT_EXECUTION_PLAN : string :=
  PathLib.joinpath DATA_DIR "execution_plan.json".
Definition RETRY_DIR : string :=
  PathLib.joinpath DATA_DIR ".execution_retry".

(** The state a run works on: the client's two maps and the node
    objects they refer to, the device handle and the device, the host
    filesystem, and how far the random and uuid sources have been read. *)
Record World := mk_World {
  path_map : gmap string addr;
  id_map : gmap Z IDEntry;
  heap : gmap addr Node;
  device : bool;
  dev : Dev;
  host : gmap string HostNode;
  rng_pos : nat;
  uuid_pos : nat
}.

Definition set_path_map (f : gmap string addr -> gmap string addr) (w : World) :=
  mk_World (f (path_map w)) (id_map w) (heap w) (device w) (dev w) (host w)
    (rng_pos w) (uuid_pos w).
Definition set_id_map (f : gmap Z IDEntry -> gmap Z IDEntry) (w : World) :=
  mk_World (path_map w) (f (id_map w)) (heap w) (device w) (dev w) (host w)
    (rng_pos w) (uuid_pos w).
Definition set_heap (f : gmap addr Node -> gmap addr Node) (w : World) :=
  mk_World (path_map w) (id_map w) (f (heap w)) (device w) (dev w) (host w)
    (rng_pos w) (uuid_pos w).
Definition set_dev (d : Dev) (w : World) :=
  mk_World (path_map w) (id_map w) (heap w) (device w) d (host w)
    (rng_pos w) (uuid_pos w).
Definition set_host (f : gmap string HostNode -> gmap string HostNode) (w : World) :=
  mk_World (path_map w) (id_map w) (heap w) (device w) (dev w) (f (host w))
    (rng_pos w) (uuid_pos w).
Definition set_rng_pos (n : nat) (w : World) :=
  mk_World (path_map w) (id_map w) (heap w) (device w) (dev w) (host w)
    n (uuid_pos w).
Definition set_uuid_pos (n : nat) (w : World) :=
  mk_World (path_map w) (id_map w) (heap w) (device w) (dev w) (host w)
    (rng_pos w) n.

(** A node object by address.  Every address held by the maps of a
    world built by the code is allocated; the default is never read. *)
Definition deref (w : World) (a : addr) : Node :=
  default (FolderNode 0 ∅) (heap w !! a).

(** ** The monad of the embedded code *)

Definition M (A : Type) : Type := World -> Res A * World * list event.

Definition ret {A} (a : A) : M A := fun w => (Ok a, w, []).

Definition bind {A B} (m : M A) (k : A -> M B) : M B :=
  fun w =>
    match m w with
    | (Ok a, w1, t1) => let '(r, w2, t2) := k a w1 in (r, w2, t1 ++ t2)
    | (Raise e, w1, t1) => (Raise e, w1, t1)
    end.

Definition raise {A} (c : pyclass) (msg : string) : M A :=
  fun w => (Raise (mk_exn c msg), w, []).

Definition reraise {A} (e : exn) : M A := fun w => (Raise e, w, []).

(** [try: m  except Exception as e: handler e] *)
Definition try_except {A} (m : M A) (handler : exn -> M A) : M A :=
  fun w =>
    match m w with
    | (Ok a, w1, t1) => (Ok a, w1, t1)
    | (Raise e, w1, t1) =>
        if isinstance e [Exception]
        then let '(r, w2, t2) := handler e w1 in (r, w2, t1 ++ t2)
        else (Raise e, w1, t1)
    end.

Definition get : M World := fun w => (Ok w, w, []).
Definition modify (f : World -> World) : M unit := fun w => (Ok tt, f w, []).
Definition emit (ev : event) : M unit := fun w => (Ok tt, w, [ev]).
Definition log (r : logrec) : M unit := emit (EvLog r).

End Engine.

Notation "x <- m ;; k" := (bind m (fun x => k))
  (at level 100, m at next level, right associativity).
Notation "m ;;; k" := (bind m (fun _ => k))
  (at level 100, right associativity).

(* ===================================================================== *)
(** * [utils/retries.py] *)
(* ===================================================================== *)

Section Retries.
Context {H : Host}.

(** Lines 61-66: what follows the [while] loop. *)
Definition after_loop {T} (last_exception : option exn) : M T :=
  match last_exception with
  | Some e => reraise e
  | None => raise RuntimeError "Unexpected error in retry mechanism"
  end.

Definition prepend {A} (t : list event)
    (r : option (Res A * World * list event)) :=
  match r with
  | Some (x, w, t') => Some (x, w, t ++ t')
  | None => None
  end.

(** Lines 39-59: the [while retry_count <= max_retries] loop of
    [wrapper].  [fuel] bounds the number of iterations of the model;
    [None] is the answer of a run that was given too little of it. *)
Fixpoint wrapper_loop {T} (max_retries : Z) (backoff_factor : Q)
    (exceptions : list pyclass) (func_name : string) (func : M T)
    (fuel : nat) (retry_count : Z) (last_exception : option exn) (w : World)
  : option (Res T * World * list event) :=
  if (retry_count <=? max_retries)%Z then
    match fuel with
    | O => None
    | S fuel' =>
        match (emit (EvAttempt func_name) ;;; func) w with
        | (Ok v, w1, t1) => Some (Ok v, w1, t1)
        | (Raise e, w1, t1) =>
            if isinstance e exceptions then
              let retry_count := (retry_count + 1)%Z in
              if (retry_count >? max_retries)%Z then
                prepend t1
                  (Some ((log (LogMaxRetries max_retries func_name) ;;;
                          after_loop (Some e)) w1))
              else
                let delay :=
                  (Qpower backoff_factor retry_count
                   + random_uniform (rng_pos w1))%Q in
                let w2 := set_rng_pos (S (rng_pos w1)) w1 in
                prepend
                  (t1 ++ [EvLog (LogRetry retry_count max_retries func_name e delay);
                          EvSleep delay])
                  (wrapper_loop max_retries backoff_factor exceptions
                     func_name func fuel' retry_count (Some e) w2)
            else Some (Raise e, w1, t1)
        end
    end
  else Some (after_loop last_exception w).

(** Iterations the loop can make: the counter starts at 0 and grows by
    one in every iteration that goes round. *)
Definition retry_fuel (max_retries : Z) : nat := Z.to_nat (max_retries + 1).

(** [with_retry(max_retries, backoff_factor, exceptions)(func)].  The
    second branch is never taken ([wrapper_loop_fuel] below). *)
Definition with_retry {T} (max_retries : Z) (backoff_factor : Q)
    (exceptions : list pyclass) (func_name : string) (func : M T) : M T :=
  fun w =>
    match wrapper_loop max_retries backoff_factor exceptions func_name func
            (retry_fuel max_retries) 0 None w with
    | Some r => r
    | None => (Raise (mk_exn RuntimeError "fuel"), w, [])
    end.

(** The default of the [exceptions] parameter: [(Exception,)]. *)
Definition default_exceptions : list pyclass := [Exception].

End Retries.

(* ===================================================================== *)
(** * The host filesystem and [utils/checksum.py] *)
(* ===================================================================== *)

Section HostFS.
Context {H : Host}.

(** [Path.exists()] *)
Definition path_exists (p : string) : M bool :=
  w <- get ;;
  ret (match host w !! p with Some _ => true | None => false end).

(** [Path.stat().st_size] *)
Definition stat_size (p : string) : M Z :=
  w <- get ;;
  match host w !! p with
  | Some (HostFile c _) => ret (Z.of_nat (String.length c))
  | Some (HostDir sz) => ret sz
  | None => raise FileNotFoundError p
  end.

(** [open(p, "r")] or [open(p, "rb")] followed by reading it all. *)
Definition open_read (p : string) : M string :=
  w <- get ;;
  match host w !! p with
  | Some (HostFile c true) => ret c
  | Some (HostFile _ false) => raise PermissionError p
  | Some (HostDir _) => raise IsADirectoryError p
  | None => raise FileNotFoundError p
  end.

(** [open(p, "w")] followed by writing [text]. *)
Definition open_write (p text : string) : M unit :=
  w <- get ;;
  match host w !! p with
  | Some (HostDir _) => raise IsADirectoryError p
  | Some (HostFile _ r) => modify (set_host (fun h => <[p := HostFile text r]> h))
  | None => modify (set_host (fun h => <[p := HostFile text true]> h))
  end.

(** [Path.unlink()] of a path that exists. *)
Definition unlink (p : string) : M unit :=
  modify (set_host (fun h => delete p h)).

Definition is_file (n : option HostNode) : bool :=
  match n with Some (HostFile _ _) => true | _ => false end.

(** [os.mkdir(p)] where nothing is at [p] and the directory above is
    there. *)
Definition make_dir (p : string) (h : gmap string HostNode)
  : gmap string HostNode :=
  match h !! p with None => <[p := HostDir 0]> h | Some _ => h end.

(** [Path.mkdir(parents=True, exist_ok=True)]: a directory that is there
    is left alone and a file at [p] is an error ([exist_ok] covers
    directories only); otherwise the directories above [p] that are
    missing are created, the farthest first, and then [p].  A file
    among the directories above makes [os.mkdir] fail with
    [NotADirectoryError] before anything is created.  The root and the
    working directory are there on every host. *)
Definition mkdir_parents (p : string) : M unit :=
  w <- get ;;
  match host w !! p with
  | Some (HostFile _ _) => raise FileExistsError p
  | Some (HostDir _) => ret tt
  | None =>
      if PathLib.is_anchor p then ret tt
      else if existsb (fun a => is_file (host w !! a)) (PathLib.parents p)
      then raise NotADirectoryError p
      else modify (set_host (fun h => foldr make_dir h (p :: PathLib.parents p)))
  end.

(** [calculate_checksum(file_path)]: the digest of the whole content,
    read in chunks. *)
Definition calculate_checksum (file_path : string) : M string :=
  c <- open_read file_path ;;
  ret (hexdigest c).

End HostFS.

(* ===================================================================== *)
(** * [mtp_client.py]: the decorated device operations *)
(* ===================================================================== *)

Section Client.
Context {H : Host}.

Definition no_device {A} : M A := raise RuntimeError "No device connected".

(** The body of [MTPClient.download]. *)
Definition download_body (file_id : Z) (target_path : option string) : M string :=
  w <- get ;;
  if negb (device w) then no_device
  else
    match id_map w !! file_id with
    | None => raise ValueError ("File ID " +:+ pretty file_id +:+ " not found")
    | Some file_entry =>
        let target_path :=
          match target_path with
          | Some p => p
          | None =>
              PathLib.joinpath TEMP_DIR (PosixPath.basename (full_path file_entry))
          end in
        let '(result, written, d) :=
          LIBMTP_Get_File_To_File (dev w) (c_uint32 file_id) target_path in
        modify (set_dev d) ;;;
        match written with
        | Some c => modify (set_host (fun h => <[target_path := HostFile c true]> h))
        | None => ret tt
        end ;;;
        emit (EvGetFile file_id target_path result) ;;;
        if negb (result =? 0)%Z then
          log (LogDownloadFailed file_id target_path) ;;;
          raise RuntimeError ("Failed to download file: " +:+ pretty file_id)
        else ret target_path
    end.

(** The body of [MTPClient.upload]. *)
Definition upload_body (source_path : string) (parent_id : Z)
    (filename : option string) : M Z :=
  w <- get ;;
  if negb (device w) then no_device
  else
    ex <- path_exists source_path ;;
    if negb ex then
      raise FileNotFoundError ("Source file not found: " +:+ source_path)
    else
      let filename :=
        match filename with
        | Some f => f
        | None => PosixPath.basename source_path
        end in
      sz <- stat_size source_path ;;
      let filesize := c_uint64 sz in
      let '(result, item_id, d) :=
        LIBMTP_Send_File_From_File (dev w) source_path (host w !! source_path)
          (c_uint32 parent_id) filename filesize in
      modify (set_dev d) ;;;
      emit (EvSendFile source_path parent_id filename filesize result
              (c_uint32 item_id)) ;;;
      if negb (result =? 0)%Z then
        log (LogUploadFailed source_path parent_id) ;;;
        raise RuntimeError ("Failed to upload file: " +:+ source_path)
      else ret (c_uint32 item_id).

(** The body of [MTPClient.mkdir]. *)
Definition mkdir_body (parent_id : Z) (folder_name : string) (storage_id : Z) : M Z :=
  w <- get ;;
  if negb (device w) then no_device
  else
    let '(r, d) :=
      LIBMTP_Create_Folder (dev w) folder_name (c_uint32 parent_id)
        (c_uint32 storage_id) in
    let result := c_int r in
    modify (set_dev d) ;;;
    emit (EvCreateFolder folder_name parent_id storage_id result) ;;;
    if (result <=? 0)%Z then
      log (LogMkdirFailed folder_name parent_id) ;;;
      raise RuntimeError ("Failed to create folder: " +:+ folder_name)
    else ret result.

(** [@with_retry(max_retries=3)]: the other two parameters keep their
    defaults. *)
Definition download (file_id : Z) (target_path : option string) : M string :=
  with_retry 3 RETRY_BACKOFF_FACTOR default_exceptions "download"
    (download_body file_id target_path).

Definition upload (source_path : string) (parent_id : Z)
    (filename : option string) : M Z :=
  with_retry 3 RETRY_BACKOFF_FACTOR default_exceptions "upload"
    (upload_body source_path parent_id filename).

Definition mkdir (parent_id : Z) (folder_name : string) (storage_id : Z) : M Z :=
  with_retry 3 RETRY_BACKOFF_FACTOR default_exceptions "mkdir"
    (mkdir_body parent_id folder_name storage_id).

End Client.

(* ===================================================================== *)
(** * [mtpsync/sync.py]: the engine *)
(* ===================================================================== *)

(** The attributes of a [SyncEngine] that its methods read. *)
Record SyncEngine := mk_SyncEngine {
  source_dir : string;
  dest_path : string;
  use_checksum : bool;
  storage_id : Z
}.

(** [SyncEngine.__init__]: the destination is made to start with a
    slash; [source_dir] is the resolved source path. *)
Definition SyncEngine_init (source_dir dest_path : string)
    (use_checksum : bool) (storage_id : Z) : SyncEngine :=
  mk_SyncEngine source_dir
    (if Str.startswith "/" dest_path then dest_path else "/" +:+ dest_path)
    use_checksum storage_id.

(** The names bound at module level in [sync.py]: its imports (lines
    5-22), its logger and its class.  Line 20 imports [PathMap],
    [IDMap], [FolderNode] and [FileNode] from [models]; [IDEntry], which
    lines 302 and 383 call, is not among them. *)
Definition sync_globals : list string :=
  [ "json"; "logging"; "os"; "tempfile"; "uuid"; "ThreadPoolExecutor";
    "Path"; "Dict"; "List"; "Tuple"; "Optional"; "Set"; "Union"; "Literal";
    "DEFAULT_EXECUTION_PLAN"; "MAX_THREADS"; "DATA_DIR"; "TEMP_DIR";
    "PathMap"; "IDMap"; "FolderNode"; "FileNode"; "MTPClient";
    "calculate_checksum"; "batch_calculate_checksums"; "logger";
    "SyncEngine" ].

Section Sync.
Context {H : Host}.

(** The evaluation of a global name in [sync.py]: a name that the module
    does not bind (and that is no builtin) raises [NameError]. *)
Definition load_global (name : string) : M unit :=
  if existsb (String.eqb name) sync_globals then ret tt
  else raise NameError ("name '" +:+ name +:+ "' is not defined").

(** [FolderNode(id)] and [FileNode(id, size)]: a new object. *)
Definition alloc (n : Node) : M addr :=
  w <- get ;;
  let a := fresh (dom (heap w)) in
  modify (set_heap (fun h => <[a := n]> h)) ;;;
  ret a.

(** Lines 160-187: [_scan_source_directory].  [os_walk] gives, for
    every directory that [os.walk] visits, its path relative to the
    source directory and the names of its files. *)
Definition scan_file (rel_root : string) (source_map : Plan) (file : string) : Plan :=
  let rel_path := Str.replace "\" "/" (PosixPath.join2 rel_root file) in
  let rel_path :=
    if Str.startswith "./" rel_path then Str.drop 2 rel_path else rel_path in
  Dict.set rel_path "file" source_map.

Definition scan_step (source_map : Plan) (visit : string * list string) : Plan :=
  let '(rel_root, files) := visit in
  let source_map :=
    if negb (String.eqb rel_root ".") then
      let rel_path := Str.replace "\" "/" rel_root in
      let rel_path :=
        if Str.endswith "/" rel_path then rel_path else rel_path +:+ "/" in
      Dict.set rel_path "dir" source_map
    else source_map in
  fold_left (scan_file rel_root) files source_map.

Definition _scan_source_directory (e : SyncEngine) : M Plan :=
  ex <- path_exists (source_dir e) ;;
  if negb ex then
    raise FileNotFoundError ("Source directory not found: " +:+ source_dir e)
  else
    w <- get ;;
    ret (fold_left scan_step (os_walk (host w) (source_dir e)) []).

(** Lines 189-200: [_path_exists_in_dest]. *)
Definition _path_exists_in_dest (full_path : string) : M bool :=
  w <- get ;;
  ret (match path_map w !! full_path with Some _ => true | None => false end).

(** Lines 202-244: [_compare_file]. *)
Definition _compare_file (e : SyncEngine) (rel_path dest_full_path : string) : M bool :=
  let source_path := PathLib.joinpath (source_dir e) rel_path in
  w <- get ;;
  match path_map w !! dest_full_path with
  | None => ret false
  | Some a =>
      match deref w a with
      | FolderNode _ _ => ret false
      | FileNode file_id file_size =>
          if negb (use_checksum e) then
            sz <- stat_size source_path ;;
            ret (sz =? file_size)%Z
          else
            try_except
              (temp_path <- download file_id None ;;
               src_checksum <- calculate_checksum source_path ;;
               dest_checksum <- calculate_checksum temp_path ;;
               ex <- path_exists temp_path ;;
               (if ex then unlink temp_path else ret tt) ;;;
               ret (String.eqb src_checksum dest_checksum))
              (fun x => log (LogCompareError rel_path x) ;;; ret false)
      end
  end.

(** Lines 86-97: the loop of [verify] over [source_map.items()]. *)
Fixpoint verify_loop (e : SyncEngine) (items : Plan) (execution_plan : Plan) : M Plan :=
  match items with
  | [] => ret execution_plan
  | (rel_path, entry_type) :: rest =>
      let dest_full_path :=
        PosixPath.normpath (dest_path e +:+ "/" +:+ rel_path) in
      ex <- _path_exists_in_dest dest_full_path ;;
      if ex then
        if String.eqb entry_type "file" then
          same <- _compare_file e rel_path dest_full_path ;;
          if negb same
          then verify_loop e rest (Dict.set rel_path "file" execution_plan)
          else verify_loop e rest execution_plan
        else verify_loop e rest execution_plan
      else verify_loop e rest (Dict.set rel_path entry_type execution_plan)
  end.

(** Lines 99-101: the plan is written as JSON. *)
Definition save_plan (plan_path : string) (plan : Plan) : M unit :=
  open_write plan_path (Json.dumps plan).

(** Lines 64-103: [verify]. *)
Definition verify (e : SyncEngine) (plan_path : option string) : M string :=
  let plan_path :=
    match plan_path with Some p => p | None => DEFAULT_EXECUTION_PLAN end in
  mkdir_parents (PosixPath.dirname plan_path) ;;;
  source_map <- _scan_source_directory e ;;
  execution_plan <- verify_loop e source_map [] ;;
  save_plan plan_path execution_plan ;;;
  ret plan_path.

(** Lines 275-310: the loop of [_ensure_directory] over the path
    components.  The body of the [try] gives the new id; the handler
    gives [None], which stands for its [return False]. *)
Definition create_segment (e : SyncEngine) (current_id : Z)
    (part next_path : string) : M (option Z) :=
  try_except
    (new_id <- mkdir current_id part (storage_id e) ;;
     new_folder <- alloc (FolderNode new_id ∅) ;;
     modify (set_path_map (fun m => <[next_path := new_folder]> m)) ;;;
     w <- get ;;
     let parent :=
       match id_map w !! current_id with
       | Some entry => Some (element entry)
       | None => None
       end in
     load_global "IDEntry" ;;;
     modify (set_id_map (fun m =>
       <[new_id := mk_IDEntry new_folder next_path parent]> m)) ;;;
     ret (Some new_id))
    (fun x => log (LogCreateDirFailed next_path x) ;;; ret None).

Fixpoint ensure_walk (e : SyncEngine) (path_parts : list string)
    (current_path : string) (current_id : Z) : M bool :=
  match path_parts with
  | [] => ret true
  | part :: rest =>
      if Str.is_empty part then ensure_walk e rest current_path current_id
      else
        let next_path := current_path +:+ "/" +:+ part in
        w <- get ;;
        match path_map w !! next_path with
        | Some a => ensure_walk e rest next_path (node_id (deref w a))
        | None =>
            r <- create_segment e current_id part next_path ;;
            match r with
            | Some new_id => ensure_walk e rest next_path new_id
            | None => ret false
            end
        end
  end.

(** Lines 256-257: the relative path is made to end with a slash. *)
Definition with_trailing_slash (rel_path : string) : string :=
  if Str.endswith "/" rel_path then rel_path else rel_path +:+ "/".

(** Lines 267-269: the components of the path, without the empty one
    that a trailing slash leaves. *)
Definition path_parts_of (rel_path : string) : list string :=
  let path_parts := Str.split "/" rel_path in
  if Str.is_empty (List.last path_parts "x")
  then removelast path_parts else path_parts.

(** Lines 246-312: [_ensure_directory]. *)
Definition _ensure_directory (e : SyncEngine) (rel_path : string) : M bool :=
  let rel_path := with_trailing_slash rel_path in
  let full_path := PosixPath.normpath (dest_path e +:+ "/" +:+ rel_path) in
  w <- get ;;
  match path_map w !! full_path with
  | Some _ => ret true
  | None => ensure_walk e (path_parts_of rel_path) (dest_path e) 0
  end.

(** Lines 354-391: the [try] statement of [_sync_file]. *)
Definition upload_and_register (e : SyncEngine) (rel_path source_path : string)
    (parent_node : addr) (parent_id : Z) : M bool :=
  try_except
    (let file_name := PosixPath.basename rel_path in
     new_id <- upload source_path parent_id (Some file_name) ;;
     valid <-
       (if use_checksum e then
          temp_path <- download new_id None ;;
          src_checksum <- calculate_checksum source_path ;;
          dest_checksum <- calculate_checksum temp_path ;;
          ex <- path_exists temp_path ;;
          (if ex then unlink temp_path else ret tt) ;;;
          if negb (String.eqb src_checksum dest_checksum) then
            log (LogChecksumMismatch rel_path) ;;; ret false
          else ret true
        else ret true) ;;
     if negb valid then ret false
     else
       let dest_full_path := dest_path e +:+ "/" +:+ rel_path in
       sz <- stat_size source_path ;;
       file_node <- alloc (FileNode new_id sz) ;;
       modify (set_heap (fun h =>
         match h !! parent_node with
         | Some (FolderNode i children) =>
             <[parent_node := FolderNode i (<[file_name := file_node]> children)]> h
         | _ => h
         end)) ;;;
       load_global "IDEntry" ;;;
       modify (set_id_map (fun m =>
         <[new_id := mk_IDEntry file_node dest_full_path (Some parent_node)]> m)) ;;;
       ret true)
    (fun x => log (LogSyncFailed rel_path x) ;;; ret false).

(** Lines 314-391: [_sync_file]. *)
Definition _sync_file (e : SyncEngine) (rel_path : string) : M bool :=
  let source_path := PathLib.joinpath (source_dir e) rel_path in
  ex <- path_exists source_path ;;
  if negb ex then log (LogSourceNotFound source_path) ;;; ret false
  else
    let parent_rel_path := PosixPath.dirname rel_path in
    let parent_rel_path :=
      if negb (Str.is_empty parent_rel_path)
      then parent_rel_path +:+ "/" else parent_rel_path in
    let parent_dest_path :=
      PosixPath.normpath (dest_path e +:+ "/" +:+ parent_rel_path) in
    ok <- _ensure_directory e parent_rel_path ;;
    if negb ok then log (LogParentCreateFailed parent_rel_path) ;;; ret false
    else
      w <- get ;;
      match path_map w !! parent_dest_path with
      | None => log (LogParentNotInMap parent_dest_path) ;;; ret false
      | Some parent_node =>
          match deref w parent_node with
          | FileNode _ _ =>
              log (LogParentNotFolder parent_dest_path) ;;; ret false
          | FolderNode parent_id _ =>
              upload_and_register e rel_path source_path parent_node parent_id
          end
      end.

(** Lines 130-135 and 137-142: the two loops of [execute] over
    [execution_plan.items()]. *)
Fixpoint phase_dirs (e : SyncEngine) (items : Plan) (failed_entries : Plan) : M Plan :=
  match items with
  | [] => ret failed_entries
  | (rel_path, entry_type) :: rest =>
      if String.eqb entry_type "dir" then
        success <- _ensure_directory e rel_path ;;
        emit (EvEntry rel_path entry_type success) ;;;
        phase_dirs e rest
          (if success then failed_entries
           else Dict.set rel_path entry_type failed_entries)
      else phase_dirs e rest failed_entries
  end.

Fixpoint phase_files (e : SyncEngine) (items : Plan) (failed_entries : Plan) : M Plan :=
  match items with
  | [] => ret failed_entries
  | (rel_path, entry_type) :: rest =>
      if String.eqb entry_type "file" then
        success <- _sync_file e rel_path ;;
        emit (EvEntry rel_path entry_type success) ;;;
        phase_files e rest
          (if success then failed_entries
           else Dict.set rel_path entry_type failed_entries)
      else phase_files e rest failed_entries
  end.

(** The place of a retry plan: line 146. *)
Definition retry_plan_location (token : string) : string :=
  PathLib.joinpath RETRY_DIR (token +:+ ".json").

(** [uuid.uuid4().hex] *)
Definition uuid4 : M string :=
  w <- get ;;
  modify (set_uuid_pos (S (uuid_pos w))) ;;;
  ret (uuid4_hex (uuid_pos w)).

(** Lines 128-142: the failure set after the two loops. *)
Definition phases (e : SyncEngine) (execution_plan : Plan) : M Plan :=
  failed_entries <- phase_dirs e execution_plan [] ;;
  phase_files e execution_plan failed_entries.

(** Lines 144-151: the retry plan, if there is a failure. *)
Definition finish (failed_entries : Plan) : M (bool * option string) :=
  match failed_entries with
  | _ :: _ =>
      token <- uuid4 ;;
      let retry_plan_path := retry_plan_location token in
      save_plan retry_plan_path failed_entries ;;;
      ret (false, Some retry_plan_path)
  | [] => ret (true, None)
  end.

(** Lines 128-151: [execute] once the plan is loaded. *)
Definition run_plan (e : SyncEngine) (execution_plan : Plan)
  : M (bool * option string) :=
  failed_entries <- phases e execution_plan ;;
  finish failed_entries.

(** Lines 393-414: [_find_latest_plan]. *)
Definition _find_latest_plan : M (option string) :=
  ex <- path_exists DEFAULT_EXECUTION_PLAN ;;
  if ex then ret (Some DEFAULT_EXECUTION_PLAN)
  else
    ex <- path_exists RETRY_DIR ;;
    if negb ex then ret None
    else w <- get ;; ret (latest_retry_plan (host w)).

(** Lines 115-122: the plan to execute. *)
Definition find_plan (e : SyncEngine) (plan_path : option string) : M string :=
  match plan_path with
  | Some p => ret p
  | None =>
      found <- _find_latest_plan ;;
      match found with
      | Some p => ret p
      | None => log LogNoPlan ;;; verify e None
      end
  end.

(** Lines 124-126: the plan is read back.  [None]: the document is one
    the decoder of this development does not decide. *)
Definition load_plan (plan_path : string) (w : World)
  : option (Res Plan * World * list event) :=
  match open_read plan_path w with
  | (Raise x, w1, t1) => Some (Raise x, w1, t1)
  | (Ok text, w1, t1) =>
      match Json.loads text with
      | Json.Loaded d => Some (Ok d, w1, t1)
      | Json.Malformed => Some (Raise (mk_exn JSONDecodeError text), w1, t1)
      | Json.Unsupported => None
      end
  end.

(** Lines 105-151: [execute]. *)
Definition execute (e : SyncEngine) (plan_path : option string) (w : World)
  : option (Res (bool * option string) * World * list event) :=
  match find_plan e plan_path w with
  | (Raise x, w1, t1) => Some (Raise x, w1, t1)
  | (Ok p, w1, t1) =>
      match load_plan p w1 with
      | None => None
      | Some (Raise x, w2, t2) => Some (Raise x, w2, t1 ++ t2)
      | Some (Ok execution_plan, w2, t2) =>
          let '(r, w3, t3) := run_plan e execution_plan w2 in
          Some (r, w3, t1 ++ t2 ++ t3)
      end
  end.

End Sync.

(* ===================================================================== *)
(** * Reading the events of a run *)
(* ===================================================================== *)

(** The plan entries [execute] has processed, with their outcome. *)
Definition entries_of (t : list event) : list (string * string * bool) :=
  flat_map (fun ev =>
    match ev with EvEntry p k ok => [(p, k, ok)] | _ => [] end) t.

(** Those that failed. *)
Definition failed_of (t : list event) : Plan :=
  flat_map (fun ev =>
    match ev with EvEntry p k false => [(p, k)] | _ => [] end) t.

Definition is_entry (ev : event) : bool :=
  match ev with EvEntry _ _ _ => true | _ => false end.

(** The calls into libmtp. *)
Definition is_device_call (ev : event) : bool :=
  match ev with
  | EvCreateFolder _ _ _ _ | EvSendFile _ _ _ _ _ _ | EvGetFile _ _ _ => true
  | _ => false
  end.

Definition device_calls (t : list event) : list event :=
  List.filter is_device_call t.

(** A folder creation that the device carried out. *)
Definition is_creation (ev : event) : bool :=
  match ev with
  | EvCreateFolder _ _ _ result => (0 <? result)%Z
  | _ => false
  end.

Definition created (t : list event) : nat := length (List.filter is_creation t).

Definition attempts_of (func_name : string) (t : list event) : nat :=
  length (List.filter (fun ev =>
    match ev with EvAttempt n => String.eqb n func_name | _ => false end) t).

Definition sleeps_of (t : list event) : list Q :=
  flat_map (fun ev => match ev with EvSleep d => [d] | _ => [] end) t.

(** The path segments [_ensure_directory] walks: the non-empty
    components of the relative path. *)
Definition segments (rel_path : string) : list string :=
  List.filter (fun c => negb (Str.is_empty c))
    (path_parts_of (with_trailing_slash rel_path)).

Definition nonempty_parts (parts : list string) : nat :=
  length (List.filter (fun c => negb (Str.is_empty c)) parts).

(** The entries of a plan by kind, in the order of the plan. *)
Definition dir_entries (plan : Plan) : Plan :=
  List.filter (fun kv => String.eqb (snd kv) "dir") plan.

Definition file_entries (plan : Plan) : Plan :=
  List.filter (fun kv => String.eqb (snd kv) "file") plan.

(** [failed_entries[rel_path] = entry_type], for a list of entries. *)
Definition record_failures (failed_entries : Plan) (l : Plan) : Plan :=
  fold_left (fun d kv => Dict.set (fst kv) (snd kv) d) l failed_entries.

(** What may be at the place a plan is written to, for it to be read
    back: nothing, or a file the process can read. *)
Definition can_hold_plan (n : option HostNode) : bool :=
  match n with
  | None => true
  | Some (HostFile _ r) => r
  | Some (HostDir _) => false
  end.

(* ===================================================================== *)
(** * Specifications of computations *)
(* ===================================================================== *)

Section Holds.
Context {H : Host}.

(** [holds R P E m]: however [m] ends, the world it leaves is related
    by [R] to the one it started in, every event it has emitted
    satisfies [P], and an exception it raises satisfies [E]. *)
Definition holds {A} (R : World -> World -> Prop) (P : event -> Prop)
    (E : exn -> Prop) (m : M A) : Prop :=
  forall w r w' t, m w = (r, w', t) ->
    R w w' /\ Forall P t /\ match r with Raise x => E x | Ok _ => True end.

Definition is_exception (x : exn) : Prop := isinstance x [Exception] = true.

Definition exc_ok (E : exn -> Prop) : Prop :=
  forall x, is_exception x -> E x.

Definition never (x : exn) : Prop := False.
Definition anything (w w' : World) : Prop := True.
Definition any_event (ev : event) : Prop := True.
Definition not_entry (ev : event) : Prop := is_entry ev = false.

(** The remote index is what it was. *)
Definition same_index (w w' : World) : Prop :=
  path_map w' = path_map w /\ id_map w' = id_map w /\ heap w' = heap w.

(** The id index is what it was. *)
Definition same_id_map (w w' : World) : Prop := id_map w' = id_map w.

(** The paths of [path_map] are still there. *)
Definition paths_kept (w w' : World) : Prop :=
  forall p, is_Some (path_map w !! p) -> is_Some (path_map w' !! p).

(** A computation that does not return [True]. *)
Definition not_true (m : M bool) : Prop :=
  forall w r w' t, m w = (r, w', t) -> r <> Ok true.

(** An operation that creates a folder when it succeeds and none when
    it fails. *)
Definition creates {A} (r : Res A) (t : list event) : Prop :=
  match r with Ok _ => created t = 1 | Raise _ => created t = 0 end.

End Holds.

(* ===================================================================== *)
(** * The retry contract, in the words of the specification *)
(* ===================================================================== *)

Section RetrySpec.
Context {H : Host}.
Context {T : Type}.
Variables (N : Z) (backoff_factor : Q) (retryable : list pyclass).
Variables (func_name : string) (func : M T).

(** [retry_spec n k w out]: started in world [w] after [k] failed
    attempts, the policy invokes the operation [n] times and ends with
    [out].  An attempt that succeeds ends the run with its value; one
    that fails outside the retryable set ends it with that error, no
    retry consumed; one that fails inside the set consumes a retry and,
    if the budget [N] is then used up, ends the run with that very
    error, and otherwise sleeps [backoff_factor ^ (k + 1)] plus a draw
    of [uniform(0, 1)] before the next attempt. *)
Inductive retry_spec : nat -> Z -> World -> Res T * World * list event -> Prop :=
| retry_success k w v w1 t1 :
    func w = (Ok v, w1, t1) ->
    retry_spec 1 k w (Ok v, w1, EvAttempt func_name :: t1)
| retry_not_retryable k w x w1 t1 :
    func w = (Raise x, w1, t1) ->
    isinstance x retryable = false ->
    retry_spec 1 k w (Raise x, w1, EvAttempt func_name :: t1)
| retry_exhausted k w x w1 t1 :
    func w = (Raise x, w1, t1) ->
    isinstance x retryable = true ->
    (N < k + 1)%Z ->
    retry_spec 1 k w
      (Raise x, w1,
       EvAttempt func_name :: t1 ++ [EvLog (LogMaxRetries N func_name)])
| retry_again n k w x w1 t1 out w' t' :
    func w = (Raise x, w1, t1) ->
    isinstance x retryable = true ->
    (k + 1 <= N)%Z ->
    let delay := (Qpower backoff_factor (k + 1) + random_uniform (rng_pos w1))%Q in
    retry_spec n (k + 1) (set_rng_pos (S (rng_pos w1)) w1) (out, w', t') ->
    retry_spec (S n) k w
      (out, w',
       EvAttempt func_name :: t1
       ++ [EvLog (LogRetry (k + 1) N func_name x delay); EvSleep delay] ++ t').

End RetrySpec.

Section Expected.
Context {H : Host}.

(** The events of a [download] of an id that the index does not hold:
    four attempts, three sleeps of growing length, no call of the
    library. *)
Definition absent_download_events (file_id : Z) (pos : nat) : list event :=
  let x := mk_exn ValueError ("File ID " +:+ pretty file_id +:+ " not found") in
  let delay k := (Qpower RETRY_BACKOFF_FACTOR (Z.of_nat k)
                  + random_uniform (pos + k - 1))%Q in
  [ EvAttempt "download"; EvLog (LogRetry 1 3 "download" x (delay 1)); EvSleep (delay 1);
    EvAttempt "download"; EvLog (LogRetry 2 3 "download" x (delay 2)); EvSleep (delay 2);
    EvAttempt "download"; EvLog (LogRetry 3 3 "download" x (delay 3)); EvSleep (delay 3);
    EvAttempt "download"; EvLog (LogMaxRetries 3 "download") ].

End Expected.

(* ===================================================================== *)
(** * [utils/checksum.py]: hashing in chunks *)
(* ===================================================================== *)

(** [s[:n]] *)
Fixpoint str_take (n : nat) (s : string) : string :=
  match n, s with
  | S n, String c s' => String c (str_take n s')
  | _, _ => ""
  end.

(** A binary file object that is open for reading: its content and the
    position of the next read. *)
Record FileObj := mk_FileObj {
  fo_content : string;
  fo_pos : nat
}.

(** What is left to read. *)
Definition fo_rest (f : FileObj) : string := Str.drop (fo_pos f) (fo_content f).

(** What [f.read(n)] gives for [n >= -1]: at most [n] bytes from the
    position, all that is left for [-1]. *)
Definition fo_data (n : Z) (f : FileObj) : string :=
  if (n <? 0)%Z then fo_rest f else str_take (Z.to_nat n) (fo_rest f).

(** [f.read(n)] of a buffered reader, which is what [open(path, "rb")]
    returns: a size below [-1] is refused; otherwise the position moves
    past what was read. *)
Definition fo_read (n : Z) (f : FileObj) : Res string * FileObj :=
  if (n <? -1)%Z
  then (Raise (mk_exn ValueError "read length must be non-negative or -1"), f)
  else (Ok (fo_data n f),
        mk_FileObj (fo_content f) (fo_pos f + String.length (fo_data n f))).

Definition fo_tell (f : FileObj) : nat := fo_pos f.
Definition fo_seek (pos : nat) (f : FileObj) : FileObj :=
  mk_FileObj (fo_content f) pos.

(** A [hashlib] object: the algorithm and the bytes it has been fed.
    Its digest is that of the concatenation of the updates. *)
Record HashObj := mk_HashObj {
  h_digest : string -> string;
  h_fed : string
}.

Definition h_update (data : string) (h : HashObj) : HashObj :=
  mk_HashObj (h_digest h) (h_fed h +:+ data).

Definition h_hexdigest (h : HashObj) : string := h_digest h (h_fed h).

(** What hashing [data] in chunks of [buffer_size] comes to, for a hash
    object that has been fed [fed]. *)
Definition read_outcome (buffer_size : Z) (digest : string -> string)
    (fed data : string) : Res string :=
  if (buffer_size <? -1)%Z
  then Raise (mk_exn ValueError "read length must be non-negative or -1")
  else Ok (digest (fed +:+ (if (buffer_size =? 0)%Z then "" else data))).

Section Checksum.
Context {H : Host}.
(** [hashlib.md5]; [hexdigest] of the host is [hashlib.sha256]. *)
Variable md5 : string -> string.

(** Lines 27 and 49: [hashlib.md5() if algorithm == "md5" else
    hashlib.sha256()]. *)
Definition new_hash (algorithm : string) : HashObj :=
  if String.eqb algorithm "md5" then mk_HashObj md5 ""
  else mk_HashObj hexdigest "".

(** Lines 60-70: [_calculate_hash].  [fuel] bounds the iterations of
    the [while True] loop. *)
Fixpoint hash_loop (fuel : nat) (file_obj : FileObj) (hash_func : HashObj)
    (buffer_size : Z) : option (Res string * FileObj) :=
  match fuel with
  | O => None
  | S fuel' =>
      match fo_read buffer_size file_obj with
      | (Raise x, file_obj) => Some (Raise x, file_obj)
      | (Ok data, file_obj) =>
          if Str.is_empty data then Some (Ok (h_hexdigest hash_func), file_obj)
          else hash_loop fuel' file_obj (h_update data hash_func) buffer_size
      end
  end.

(** Every read but the last takes at least one byte. *)
Definition hash_fuel (file_obj : FileObj) : nat :=
  S (String.length (fo_rest file_obj)).

Definition _calculate_hash (file_obj : FileObj) (hash_func : HashObj)
    (buffer_size : Z) : option (Res string * FileObj) :=
  hash_loop (hash_fuel file_obj) file_obj hash_func buffer_size.

(** Lines 11-30: [calculate_checksum(file_path, algorithm, buffer_size)]. *)
Definition calculate_checksum_of (file_path algorithm : string)
    (buffer_size : Z) : M string :=
  c <- open_read file_path ;;
  match _calculate_hash (mk_FileObj c 0) (new_hash algorithm) buffer_size with
  | Some (Ok digest, _) => ret digest
  | Some (Raise x, _) => reraise x
  | None => raise RuntimeError "fuel"
  end.

(** Lines 33-57: [calculate_checksum_from_fileobj]: the outcome of the
    [try], and the file object after the [finally]. *)
Definition calculate_checksum_from_fileobj (fileobj : FileObj)
    (algorithm : string) (buffer_size : Z) : option (Res string * FileObj) :=
  let hash_func := new_hash algorithm in
  let original_position := fo_tell fileobj in
  let fileobj := fo_seek 0 fileobj in
  match _calculate_hash fileobj hash_func buffer_size with
  | Some (r, fileobj) => Some (r, fo_seek original_position fileobj)
  | None => None
  end.

(** Lines 73-99: [batch_calculate_checksums].  The pool runs
    [calculate_checksum] for every path; [completed] is the order in
    which [as_completed] hands the results back.  The tasks only read:
    each sees the host as it is. *)
Definition checksum_or_none (w : World) (path : string) : option string :=
  match calculate_checksum path w with
  | (Ok c, _, _) => Some c
  | (Raise _, _, _) => None
  end.

Definition batch_calculate_checksums (completed : list string) (w : World)
  : gmap string (option string) :=
  fold_left (fun results path => <[path := checksum_or_none w path]> results)
    completed ∅.

End Checksum.

(* ===================================================================== *)
(** * [mtp_client.py]: building the index, closing the device *)
(* ===================================================================== *)

(** A Python [dict] with [int] keys whose order is observed. *)
Module IntDict.

Definition t (V : Type) := list (Z * V).

Fixpoint get {V} (k : Z) (d : t V) : option V :=
  match d with
  | [] => None
  | (k', v) :: r => if (k' =? k)%Z then Some v else get k r
  end.

Fixpoint set {V} (k : Z) (v : V) (d : t V) : t V :=
  match d with
  | [] => [(k, v)]
  | (k', v') :: r =>
      if (k' =? k)%Z then (k, v) :: r else (k', v') :: set k v r
  end.

Definition keys {V} (d : t V) : list Z := map fst d.

End IntDict.

(** [LIBMTP_folder_struct] (lines 75-86): the ids are [c_uint32]
    fields, a null pointer is [None].  The name is given as it decodes;
    a name that is not UTF-8 is outside the model, and so is a listing
    too deep for the interpreter's stack. *)
#[warnings="-register-all"] Inductive LIBMTP_folder_struct :=
| mk_folder (folder_id parent_id storage_id : Z) (name : option string)
    (sibling child : option LIBMTP_folder_struct).

(** [LIBMTP_file_struct] (lines 60-72); the chain of [next] pointers is
    the list of the records. *)
Record LIBMTP_file_struct := mk_file {
  item_id : Z;
  file_parent_id : Z;
  file_storage_id : Z;
  filename : option string;
  filesize : Z;
  filetype : Z
}.

Definition LIBMTP_FILETYPE_FOLDER : Z := 0.

(** The listing and release calls of libmtp. *)
Class Listing (H : Host) := {
  LIBMTP_Get_Folder_List_For_Storage : Dev -> Z -> option LIBMTP_folder_struct * Dev;
  LIBMTP_Get_Files_And_Folders : Dev -> Z -> Z -> list LIBMTP_file_struct * Dev;
  LIBMTP_Release_Device : Dev -> Dev
}.

Section Tree.
Context {H : Host} {L : Listing H}.

Definition set_device (b : bool) (w : World) : World :=
  mk_World (path_map w) (id_map w) (heap w) b (dev w) (host w)
    (rng_pos w) (uuid_pos w).

(** The evaluation of a name that neither the function nor the module
    [mtp_client.py] nor the builtins bind. *)
Definition unbound {A} (name : string) : M A :=
  raise NameError ("name '" +:+ name +:+ "' is not defined").

(** Lines 317-319 and 369-371. *)
Definition _get_folder_list (storage_id : Z) : M (option LIBMTP_folder_struct) :=
  w <- get ;;
  let '(folders, d) :=
    LIBMTP_Get_Folder_List_For_Storage (dev w) (c_uint32 storage_id) in
  modify (set_dev d) ;;;
  ret folders.

Definition _get_files_in_folder (storage_id folder_id : Z)
  : M (list LIBMTP_file_struct) :=
  w <- get ;;
  let '(files, d) :=
    LIBMTP_Get_Files_And_Folders (dev w) (c_uint32 storage_id) (c_uint32 folder_id) in
  modify (set_dev d) ;;;
  ret files.

(** Lines 336-359: the record itself.  The root folder, of id 0, is
    not registered: its children are put under [current_path]. *)
Definition register_folder (folder_id parent_id : Z) (name : option string)
    (path_map : gmap string addr) (id_map : IntDict.t IDEntry)
    (current_path : string)
  : M (string * gmap string addr * IntDict.t IDEntry) :=
  let folder_name := match name with Some n => n | None => "" end in
  if (folder_id =? 0)%Z then ret (current_path, path_map, id_map)
  else
    let new_path :=
      if Str.endswith "/" current_path
      then current_path +:+ folder_name
      else current_path +:+ "/" +:+ folder_name in
    folder_node <- alloc (FolderNode folder_id ∅) ;;
    let path_map := <[new_path := folder_node]> path_map in
    let parent_folder :=
      match IntDict.get parent_id id_map with
      | Some entry => Some (element entry)
      | None => None
      end in
    let id_map :=
      IntDict.set folder_id (mk_IDEntry folder_node new_path parent_folder) id_map in
    ret (new_path, path_map, id_map).

(** Lines 336-367: [_process_folders] on a pointer that is not null.
    The two dictionaries are the ones the caller passes; they are
    returned as the call leaves them. *)
Fixpoint process_folder (folder : LIBMTP_folder_struct)
    (path_map : gmap string addr) (id_map : IntDict.t IDEntry)
    (current_path : string) {struct folder}
  : M (gmap string addr * IntDict.t IDEntry) :=
  match folder with
  | mk_folder folder_id parent_id _ name sibling child =>
      step <-
        register_folder (c_uint32 folder_id) (c_uint32 parent_id) name
          path_map id_map current_path ;;
      let '(new_path, path_map, id_map) := step in
      maps <-
        match child with
        | Some c => process_folder c path_map id_map new_path
        | None => ret (path_map, id_map)
        end ;;
      let '(path_map, id_map) := maps in
      match sibling with
      | Some s => process_folder s path_map id_map current_path
      | None => ret (path_map, id_map)
      end
  end.

(** Lines 321-367: [_process_folders]. *)
Definition _process_folders (folder_ptr : option LIBMTP_folder_struct)
    (path_map : gmap string addr) (id_map : IntDict.t IDEntry)
    (current_path : string) : M (gmap string addr * IntDict.t IDEntry) :=
  match folder_ptr with
  | None => ret (path_map, id_map)
  | Some folder => process_folder folder path_map id_map current_path
  end.

(** Lines 373-405: [_process_files]. *)
Fixpoint _process_files (file_ptr : list LIBMTP_file_struct)
    (parent_folder : addr) (id_map : IntDict.t IDEntry) (parent_path : string)
  : M (IntDict.t IDEntry) :=
  match file_ptr with
  | [] => ret id_map
  | file :: next =>
      let name := match filename file with Some n => n | None => "" end in
      if (c_uint32 (filetype file) =? LIBMTP_FILETYPE_FOLDER)%Z then
        _process_files next parent_folder id_map parent_path
      else
        file_node <-
          alloc (FileNode (c_uint32 (item_id file)) (c_uint64 (filesize file))) ;;
        modify (set_heap (fun h =>
          match h !! parent_folder with
          | Some (FolderNode i children) =>
              <[parent_folder := FolderNode i (<[name := file_node]> children)]> h
          | _ => h
          end)) ;;;
        let full_path := parent_path +:+ "/" +:+ name in
        let id_map :=
          IntDict.set (c_uint32 (item_id file))
            (mk_IDEntry file_node full_path (Some parent_folder)) id_map in
        _process_files next parent_folder id_map parent_path
  end.

(** Lines 306-311: the loop of [build_file_tree] over the folder ids.
    [id_map[folder_id]] is there: the ids were taken from this
    dictionary, which only grows.  Line 310 drops what the listing call
    returns; line 311 names [files], which nothing binds. *)
Fixpoint files_loop (storage_id : Z) (folder_ids : list Z)
    (id_map : IntDict.t IDEntry) : M (IntDict.t IDEntry) :=
  match folder_ids with
  | [] => ret id_map
  | folder_id :: rest =>
      let entry :=
        default (mk_IDEntry 0 "" None) (IntDict.get folder_id id_map) in
      w <- get ;;
      match deref w (element entry) with
      | FolderNode _ _ =>
          _get_files_in_folder storage_id folder_id ;;;
          files <- unbound "files" ;;
          id_map <- _process_files files (element entry) id_map (full_path entry) ;;
          files_loop storage_id rest id_map
      | FileNode _ _ => files_loop storage_id rest id_map
      end
  end.

(** Lines 281-315: [build_file_tree]. *)
Definition build_file_tree (storage_id : Z) (base_path : string)
  : M (gmap string addr * IntDict.t IDEntry) :=
  w <- get ;;
  if negb (device w) then no_device
  else
    folders <- _get_folder_list storage_id ;;
    maps <- _process_folders folders ∅ [] base_path ;;
    let '(path_map, id_map) := maps in
    id_map <- files_loop storage_id (IntDict.keys id_map) id_map ;;
    modify (set_path_map (fun _ => path_map)) ;;;
    modify (set_id_map (fun _ => list_to_map id_map)) ;;;
    ret (path_map, id_map).

(** Lines 519-523: [close]. *)
Definition close : M unit :=
  w <- get ;;
  if device w then
    modify (set_dev (LIBMTP_Release_Device (dev w))) ;;;
    modify (set_device false)
  else ret tt.

End Tree.

(** A listing in which some folder has an id other than 0. *)
Fixpoint names_a_folder (folder : LIBMTP_folder_struct) : bool :=
  match folder with
  | mk_folder folder_id _ _ _ sibling child =>
      negb (c_uint32 folder_id =? 0)%Z
      || match child with Some c => names_a_folder c | None => false end
      || match sibling with Some s => names_a_folder s | None => false end
  end.

(* ===================================================================== *)
(** * Properties of runs, for the theorems on the code beyond the claims *)
(* ===================================================================== *)

(** A name as [os.walk] gives it for a file of a POSIX directory, the
    backslash apart: not empty, with neither a slash nor a backslash as
    its last character. *)
Definition plain_name (f : string) : bool :=
  negb (Str.is_empty f) && negb (Str.endswith "/" f) && negb (Str.endswith "\" f).

(** The kind of an entry can be read off its key. *)
Definition kinds_by_slash (m : Plan) : Prop :=
  forall p k, In (p, k) m ->
    (k = "dir" /\ Str.endswith "/" p = true)
    \/ (k = "file" /\ Str.endswith "/" p = false).

(** Where [verify] writes: the plan, and the directory it is put in. *)
Definition plan_place `{H : Host} (plan_path : option string) : string :=
  match plan_path with Some p => p | None => DEFAULT_EXECUTION_PLAN end.

(** The directories above [place], the nearest first. *)
Definition dirs_above (place : string) : list string :=
  PosixPath.dirname place :: PathLib.parents (PosixPath.dirname place).

(** All that has changed is the host, at the place of the plan and at
    the directories above it that were missing, which are now there. *)
Definition wrote_plan_only `{H : Host} (place : string) (w w' : World) : Prop :=
  path_map w' = path_map w /\ id_map w' = id_map w /\ heap w' = heap w
  /\ device w' = device w /\ dev w' = dev w
  /\ rng_pos w' = rng_pos w /\ uuid_pos w' = uuid_pos w
  /\ forall q, q <> place ->
               host w' !! q = host w !! q
               \/ (In q (dirs_above place)
                   /\ host w !! q = None /\ host w' !! q = Some (HostDir 0)).

Definition no_event (ev : event) : Prop := False.

(** The destination path [verify] looks up for a relative path. *)
Definition dest_of (e : SyncEngine) (rel_path : string) : string :=
  PosixPath.normpath (dest_path e +:+ "/" +:+ rel_path).

(** The path index has grown: what was there is still there, and
    refers to the same node object. *)
Definition index_grows `{H : Host} (w w' : World) : Prop :=
  path_map w ⊆ path_map w'.

(** An event that is neither an attempt of a wrapped function nor a
    sleep: what a function without retries of its own emits. *)
Definition quiet (ev : event) : Prop :=
  match ev with EvAttempt _ | EvSleep _ => False | _ => True end.

(** The events of a wrapped function (budget 3, factor 2) whose every
    call fails at once with the retryable error [x], the random source
    standing at [pos]: four attempts, three sleeps, no call of the
    library. *)
Definition failing_events `{H : Host} (name : string) (x : exn) (pos : nat)
  : list event :=
  let delay k := (Qpower RETRY_BACKOFF_FACTOR (Z.of_nat k)
                  + random_uniform (pos + k - 1))%Q in
  [ EvAttempt name; EvLog (LogRetry 1 3 name x (delay 1)); EvSleep (delay 1);
    EvAttempt name; EvLog (LogRetry 2 3 name x (delay 2)); EvSleep (delay 2);
    EvAttempt name; EvLog (LogRetry 3 3 name x (delay 3)); EvSleep (delay 3);
    EvAttempt name; EvLog (LogMaxRetries 3 name) ].

(** What an operation of the client raises when there is no device. *)
Definition no_device_error : exn := mk_exn RuntimeError "No device connected".

(** What line 311 of [mtp_client.py] raises. *)
Definition files_unbound : exn := mk_exn NameError "name 'files' is not defined".

(** All that a call has changed is the heap, which has grown; nothing
    was raised and nothing emitted. *)
Definition heap_grown `{H : Host} (w w' : World) : Prop :=
  path_map w' = path_map w /\ id_map w' = id_map w
  /\ device w' = device w /\ dev w' = dev w /\ host w' = host w
  /\ rng_pos w' = rng_pos w /\ uuid_pos w' = uuid_pos w
  /\ heap w ⊆ heap w'.

(** Every entry of the dictionary refers to a folder object. *)
Definition entries_are_folders `{H : Host} (w : World) (id_map : IntDict.t IDEntry)
  : Prop :=
  forall k entry, In (k, entry) id_map ->
    exists i children, heap w !! element entry = Some (FolderNode i children).

(** A computation that calls the library at most [n] times. *)
Definition at_most `{H : Host} {A} (n : nat) (m : M A) : Prop :=
  forall w r w' t, m w = (r, w', t) -> length (device_calls t) <= n.

(** What a file entry may cost: an upload, and in checksum mode the
    download that validates it; each in up to four attempts. *)
Definition upload_calls (e : SyncEngine) : nat := if use_checksum e then 8 else 4.

(** ** The place of a retry plan *)

(** A string without a slash. *)
Fixpoint slash_free (s : string) : bool :=
  match s with
  | EmptyString => true
  | String c s' => negb (Ascii.eqb c "/") && slash_free s'
  end.

(** Where [download] puts a file when it is given no target:
    [mtp_client.py], lines 426-428. *)
Definition temp_place (q : string) : Prop :=
  exists name, q = PathLib.joinpath TEMP_DIR (PosixPath.basename name).

(** All that has changed on the host are scratch places, and the uuid
    source has not been read. *)
Definition scratch_only `{H : Host} (w w' : World) : Prop :=
  uuid_pos w' = uuid_pos w
  /\ forall q, ~ temp_place q -> host w' !! q = host w !! q.

(** What a computation returns, when it returns. *)
Definition returns `{H : Host} {A} (Q : A -> Prop) (m : M A) : Prop :=
  forall w a w' t, m w = (Ok a, w', t) -> Q a.

(** No retry plan on the host bears a token that the uuid source has
    still to give. *)
Definition tokens_unused `{H : Host} (w : World) : Prop :=
  forall n, uuid_pos w <= n ->
            host w !! retry_plan_location (uuid4_hex n) = None.

(* ===================================================================== *)
(** * A small host, for running the engine on concrete inputs *)
(* ===================================================================== *)

(** A device that numbers what it creates from [td_next] on and keeps
    the content of the files it holds.  It refuses to create a folder
    named ["locked"]; sending a path that holds no file and getting a
    file it does not hold fail. *)
Record TestDev := mk_TestDev {
  td_next : Z;
  td_files : gmap Z string
}.

Definition test_create_folder (d : TestDev) (name : string)
    (parent_id storage : Z) : Z * TestDev :=
  if String.eqb name "locked" then (0%Z, d)
  else (td_next d, mk_TestDev (td_next d + 1) (td_files d)).

Definition test_send_file (d : TestDev) (source_path : string)
    (node : option HostNode) (parent_id : Z) (filename : string) (filesize : Z)
  : (Z * Z) * TestDev :=
  match node with
  | Some (HostFile c _) =>
      ((0%Z, td_next d),
       mk_TestDev (td_next d + 1) (<[td_next d := c]> (td_files d)))
  | _ => ((-1)%Z, 0%Z, d)
  end.

Definition test_get_file (d : TestDev) (file_id : Z) (target_path : string)
  : (Z * option string) * TestDev :=
  match td_files d !! file_id with
  | Some c => ((0%Z, Some c), d)
  | None => ((-1)%Z, None, d)
  end.

(** The host of the examples: the digest is the content itself, every
    random draw is one half, the tokens are numbered, and [walk] is what
    the directory walk of the source finds. *)
Definition test_host (walk : list (string * list string)) : Host :=
  {| Dev := TestDev;
     LIBMTP_Create_Folder := test_create_folder;
     LIBMTP_Send_File_From_File := test_send_file;
     LIBMTP_Get_File_To_File := test_get_file;
     hexdigest := fun c => c;
     random_uniform := fun _ => (1 # 2)%Q;
     uuid4_hex := fun n => "token" +:+ pretty n;
     os_walk := fun _ _ => walk;
     latest_retry_plan := fun _ => None;
     DATA_DIR := "/app/data" |}.

(** ** The inputs of the examples

    The destination root [/d] is a folder of id 1 in the index; the
    device numbers what it creates from 100 on. *)

Definition host_a : Host := test_host [(".", ["a.txt"])].
Definition host_sub : Host := test_host [(".", []); ("sub", [])].

Definition root_index : gmap string addr := {[ "/d" := 0 ]}.
Definition root_ids : gmap Z IDEntry := {[ 1%Z := mk_IDEntry 0 "/d" None ]}.
Definition root_heap : gmap addr Node := {[ 0 := FolderNode 1 ∅ ]}.

(** The source holds one file, [a.txt]. *)
Definition world_a : @World host_a :=
  mk_World (H := host_a) root_index root_ids root_heap true (mk_TestDev 100 ∅)
    (<["/src" := HostDir 0]> {[ "/src/a.txt" := HostFile "hello" true ]}) 0 0.

(** The source holds one directory, [sub]. *)
Definition world_sub : @World host_sub :=
  mk_World (H := host_sub) root_index root_ids root_heap true (mk_TestDev 100 ∅)
    (<["/src" := HostDir 0]> {[ "/src/sub" := HostDir 0 ]}) 0 0.

(** [a.txt] is on the device, with id 7 and the content of the source;
    [readable] says whether the source file can be opened. *)
Definition world_synced (readable : bool) : @World host_a :=
  mk_World (H := host_a)
    (<["/d/a.txt" := 1]> root_index)
    (<[7%Z := mk_IDEntry 1 "/d/a.txt" (Some 0)]> root_ids)
    (<[1 := FileNode 7 5]> {[ 0 := FolderNode 1 {[ "a.txt" := 1 ]} ]})
    true (mk_TestDev 100 {[ 7%Z := "hello" ]})
    (<["/src" := HostDir 0]> {[ "/src/a.txt" := HostFile "hello" readable ]}) 0 0.

Definition engine_size : SyncEngine := SyncEngine_init "/src" "/d" false 0.
Definition engine_checksum : SyncEngine := SyncEngine_init "/src" "/d" true 0.
(** The destination is given with a trailing slash. *)
Definition engine_slash : SyncEngine := SyncEngine_init "/src" "/d/" false 0.

(** The result, the final world and the events of a run. *)
Definition result_of {A W} (x : A * W * list event) : A := fst (fst x).
Definition world_of {A W} (x : A * W * list event) : W := snd (fst x).
Definition events_of {A W} (x : A * W * list event) : list event := snd x.

(** A plan with one directory and one file, and the world in which it is
    stored at [plan_file]. *)
Definition plan_file : string := "/plans/p.json".
Definition plan_a : Plan := [("a.txt", "file"); ("sub/", "dir")].
Definition world_planned : @World host_a :=
  set_host (H := host_a)
    (fun h => <[plan_file := HostFile (Json.dumps plan_a) true]> h) world_a.


(** A plan whose only entry has a kind that [execute] does not know,
    and the world in which it is stored. *)
Definition plan_other : Plan := [("notes", "link")].
Definition world_other : @World host_a :=
  set_host (H := host_a)
    (fun h => <[plan_file := HostFile (Json.dumps plan_other) true]> h) world_a.

(** The client has no device. *)
Definition world_unplugged : @World host_a :=
  mk_World (H := host_a) root_index root_ids root_heap false (mk_TestDev 100 ∅)
    (<["/src" := HostDir 0]> {[ "/src/a.txt" := HostFile "hello" true ]}) 0 0.

(** The folder listing of a device with one folder, [DCIM], under its
    root; no folder holds a file. *)
Definition test_folders : LIBMTP_folder_struct :=
  mk_folder 0 0 0 None None (Some (mk_folder 5 0 0 (Some "DCIM") None None)).

Definition test_listing : Listing host_a :=
  {| LIBMTP_Get_Folder_List_For_Storage := fun d _ => (Some test_folders, d);
     LIBMTP_Get_Files_And_Folders := fun d _ _ => ([], d);
     LIBMTP_Release_Device := fun d => d |}.

(* ===================================================================== *)
(** * Facts: the plan documents *)
(* ===================================================================== *)

Section JsonFacts.
Import Json.

Lemma str_app_cons (x : ascii) (a b : string) :
  String x a +:+ b = String x (a +:+ b).
Proof. reflexivity. Qed.

Lemma str_app_assoc (a b c : string) : (a +:+ b) +:+ c = a +:+ (b +:+ c).
Proof.
  induction a as [|x a IH]; [reflexivity|].
  rewrite !str_app_cons. now rewrite IH.
Qed.

Lemma str_app_empty_r (a : string) : a +:+ "" = a.
Proof.
  induction a as [|x a IH]; [reflexivity|].
  rewrite str_app_cons. now rewrite IH.
Qed.

Lemma snoc_app (acc : string) (c : ascii) (s : string) :
  snoc acc c +:+ s = acc +:+ String c s.
Proof. unfold snoc. now rewrite str_app_assoc. Qed.

Lemma run_escape_char (c : ascii) sl acc d rest :
  run (PStr sl acc) d (escape_char c +:+ rest) = run (PStr sl (snoc acc c)) d rest.
Proof.
  destruct c as [[] [] [] [] [] [] [] []]; reflexivity.
Qed.

Lemma run_escape (s : string) : forall sl acc d rest,
  run (PStr sl acc) d (escape s +:+ String dquote rest)
  = run (fst (close_str sl (acc +:+ s) d)) (snd (close_str sl (acc +:+ s) d)) rest.
Proof.
  induction s as [|c s IH]; intros sl acc d rest.
  - rewrite str_app_empty_r.
    change (escape "" +:+ String dquote rest) with (String dquote rest).
    change (run (PStr sl acc) d (String dquote rest))
      with (let '(st', d') := close_str sl acc d in run st' d' rest).
    destruct (close_str sl acc d); reflexivity.
  - change (escape (String c s)) with (escape_char c +:+ escape s).
    rewrite str_app_assoc, run_escape_char, IH, snoc_app. reflexivity.
Qed.

Lemma encode_str_app (s rest : string) :
  encode_str s +:+ rest = String dquote (escape s +:+ String dquote rest).
Proof. unfold encode_str. rewrite str_app_cons. now rewrite str_app_assoc. Qed.

Lemma dict_get_app_none {V} (k : string) (d : Dict.t V) k' v' :
  Dict.get k d = None -> k' <> k -> Dict.get k (d ++ [(k', v')]) = None.
Proof.
  induction d as [|[a b] d IH]; simpl; intros Hg Hne.
  - destruct (String.eqb_spec k' k); [contradiction | reflexivity].
  - destruct (String.eqb a k); [discriminate | auto].
Qed.

Lemma dict_set_fresh {V} (k : string) (v : V) (d : Dict.t V) :
  Dict.get k d = None -> Dict.set k v d = d ++ [(k, v)].
Proof.
  induction d as [|[a b] d IH]; simpl; intros Hg; [reflexivity|].
  destruct (String.eqb a k); [discriminate | now rewrite IH].
Qed.

Lemma dict_mem_false_in {V} (k : string) (d : Dict.t V) :
  Dict.mem k d = false -> ~ In k (Dict.keys d).
Proof.
  unfold Dict.mem. induction d as [|[a b] d IH]; simpl; intros Hm Hin.
  - exact Hin.
  - destruct Hin as [->|Hin].
    + now rewrite String.eqb_refl in Hm.
    + destruct (String.eqb a k); [discriminate | exact (IH Hm Hin)].
Qed.


Lemma run_item st (Hst : st = PKey \/ st = PFirstKey) k v d rest :
  run st d (encode_str k +:+ key_separator +:+ encode_str v +:+ rest)
  = run PNext (Dict.set k v d) rest.
Proof.
  rewrite encode_str_app.
  assert (Hq : forall x, run st d (String dquote x) = run (PStr InKey "") d x)
    by (destruct Hst; subst; reflexivity).
  rewrite Hq, run_escape.
  change (run (PValue k) d (encode_str v +:+ rest)
          = run PNext (Dict.set k v d) rest).
  rewrite encode_str_app.
  change (run (PStr (InVal k) "") d (escape v +:+ String dquote rest)
          = run PNext (Dict.set k v d) rest).
  rewrite run_escape. reflexivity.
Qed.

Lemma run_items (l : Plan) : forall d,
  (forall k, In k (Dict.keys l) -> Dict.get k d = None) ->
  Dict.wf l = true ->
  run PNext d (dump_items false l +:+ closing) = Loaded (d ++ l).
Proof.
  induction l as [|[k v] r IH]; intros d Hfresh Hwf.
  - simpl. now rewrite app_nil_r.
  - simpl in Hwf. apply andb_true_iff in Hwf as [Hk Hr].
    apply negb_true_iff in Hk.
    cbn [dump_items]. rewrite !str_app_assoc.
    change (run PKey d (encode_str k +:+ key_separator +:+ encode_str v
                        +:+ dump_items false r +:+ closing)
            = Loaded (d ++ (k, v) :: r)).
    rewrite run_item by auto.
    rewrite dict_set_fresh by (apply Hfresh; now left).
    rewrite IH; [now rewrite <- app_assoc | | exact Hr].
    intros k' Hin. apply dict_get_app_none.
    + apply Hfresh. now right.
    + intros ->. now apply dict_mem_false_in in Hk.
Qed.

Lemma loads_dumps (plan : Plan) :
  Dict.wf plan = true -> loads (dumps plan) = Loaded plan.
Proof.
  destruct plan as [|[k v] r]; intros Hwf; [reflexivity|].
  simpl in Hwf. apply andb_true_iff in Hwf as [Hk Hr].
  apply negb_true_iff in Hk.
  unfold loads, dumps. cbn [dump_items]. rewrite !str_app_assoc.
  change (run PFirstKey [] (encode_str k +:+ key_separator +:+ encode_str v
                      +:+ dump_items false r +:+ closing)
          = Loaded ((k, v) :: r)).
  rewrite run_item by auto. simpl Dict.set.
  rewrite run_items; [reflexivity | | exact Hr].
  intros k' Hin. simpl.
  destruct (String.eqb_spec k k'); [|reflexivity].
  subst. now apply dict_mem_false_in in Hk.
Qed.
End JsonFacts.

Section DictFacts.
Context {V : Type}.
Implicit Types (d : Dict.t V) (k : string) (v : V).

Lemma dict_get_set_other k k' v d :
  k <> k' -> Dict.get k' (Dict.set k v d) = Dict.get k' d.
Proof.
  intros Hne. induction d as [|[a b] d IH]; simpl.
  - destruct (String.eqb_spec k k'); [contradiction | reflexivity].
  - destruct (String.eqb_spec a k) as [->|Hak]; simpl.
    + destruct (String.eqb_spec k k'); [contradiction | reflexivity].
    + destruct (String.eqb a k'); [reflexivity | exact IH].
Qed.

Lemma dict_wf_set k v d : Dict.wf d = true -> Dict.wf (Dict.set k v d) = true.
Proof.
  induction d as [|[a b] d IH]; simpl; [reflexivity|].
  intros Hwf. apply andb_true_iff in Hwf as [Ha Hd].
  destruct (String.eqb_spec a k) as [->|Hak]; simpl.
  - now rewrite Ha, Hd.
  - rewrite IH by exact Hd. unfold Dict.mem in *.
    rewrite dict_get_set_other by congruence. now rewrite Ha.
Qed.

Lemma dict_wf_NoDup d : Dict.wf d = true -> List.NoDup (Dict.keys d).
Proof.
  induction d as [|[a b] d IH]; simpl; intros Hwf; [constructor|].
  apply andb_true_iff in Hwf as [Ha Hd]. apply negb_true_iff in Ha.
  constructor; [now apply dict_mem_false_in | auto].
Qed.

Lemma dict_get_in k v d : Dict.get k d = Some v -> In (k, v) d.
Proof.
  induction d as [|[a b] d IH]; simpl; [discriminate|].
  destruct (String.eqb_spec a k) as [->|_].
  - intros [= ->]. now left.
  - right. auto.
Qed.

Lemma dict_get_none_keys k d : ~ In k (Dict.keys d) -> Dict.get k d = None.
Proof.
  induction d as [|[a b] d IH]; simpl; [reflexivity|].
  intros Hnin. destruct (String.eqb_spec a k) as [->|_]; [tauto | auto].
Qed.

(** Setting the entries of [l], whose keys are new and distinct, one
    after the other appends them. *)
Lemma dict_sets_fresh (l : Dict.t V) : forall d,
  List.NoDup (Dict.keys (d ++ l)) ->
  fold_left (fun d kv => Dict.set (fst kv) (snd kv) d) l d = d ++ l.
Proof.
  induction l as [|[k v] l IH]; intros d Hnd; simpl.
  - now rewrite app_nil_r.
  - rewrite dict_set_fresh.
    + rewrite IH; rewrite <- app_assoc; [reflexivity | exact Hnd].
    + apply dict_get_none_keys. unfold Dict.keys in *.
      rewrite map_app in Hnd. simpl in Hnd.
      apply List.NoDup_remove_2 in Hnd. intros Hin. apply Hnd.
      apply in_or_app. now left.
Qed.

End DictFacts.

Lemma run_wf (s : string) : forall st d d',
  Dict.wf d = true -> Json.run st d s = Json.Loaded d' -> Dict.wf d' = true.
Proof.
  induction s as [|c s IH]; intros st d d' Hwf.
  - destruct st; simpl; intros [= <-] || discriminate. exact Hwf.
  - destruct st; cbn [Json.run];
      repeat match goal with
             | |- context [if ?b then _ else _] => destruct b
             | |- context [match Json.unescape ?c with _ => _ end] =>
                 destruct (Json.unescape c)
             | |- context [match Json.hex_value ?c with _ => _ end] =>
                 destruct (Json.hex_value c)
             | |- context [match ?n with 0 => _ | S _ => _ end] => destruct n
             | |- context [Json.close_str ?sl ?acc ?d] =>
                 destruct sl; cbn [Json.close_str]
             end;
      try discriminate; try (apply IH; auto using dict_wf_set).
Qed.

Lemma loads_wf (s : string) (d : Plan) :
  Json.loads s = Json.Loaded d -> Dict.wf d = true.
Proof. apply run_wf. reflexivity. Qed.

(* ===================================================================== *)
(** * Facts: the retry loop *)
(* ===================================================================== *)

Section RetryFacts.
Context {H : Host}.

Lemma emit_bind {A} (ev : event) (m : M A) (w : World) :
  (emit ev ;;; m) w = (let '(r, w1, t1) := m w in (r, w1, ev :: t1)).
Proof.
  unfold bind, emit. destruct (m w) as [[r w1] t1]. reflexivity.
Qed.

Section Loop.
Context {T : Type}.
Variables (N : Z) (b : Q) (excs : list pyclass) (name : string) (func : M T).

Lemma wrapper_loop_spec (fuel : nat) : forall k last w,
  (0 <= k <= N)%Z -> fuel = Z.to_nat (N + 1 - k) ->
  exists n out,
    wrapper_loop N b excs name func fuel k last w = Some out
    /\ retry_spec N b excs name func n k w out
    /\ 1 <= n <= fuel.
Proof.
  induction fuel as [|fuel IH]; intros k last w Hk Hfuel; [lia|].
  cbn [wrapper_loop].
  destruct (Z.leb_spec k N) as [_|]; [|lia].
  rewrite emit_bind.
  destruct (func w) as [[[v|x] w1] t1] eqn:Hf.
  - exists 1, (Ok v, w1, EvAttempt name :: t1).
    repeat split; [now constructor | lia | lia].
  - destruct (isinstance x excs) eqn:Hx.
    + destruct (Z.gtb_spec (k + 1) N) as [Hgt|Hle].
      * exists 1. eexists. split; [reflexivity|]. split; [|lia].
        cbn. now apply retry_exhausted.
      * destruct (IH (k + 1)%Z (Some x) (set_rng_pos (S (rng_pos w1)) w1))
          as (n & [[out w'] t'] & Hrun & Hspec & Hn); [lia | lia |].
        rewrite Hrun. exists (S n). eexists. split; [reflexivity|].
        split; [|lia].
        cbn. rewrite <- app_assoc. now apply retry_again.
    + exists 1, (Raise x, w1, EvAttempt name :: t1).
      repeat split; [now apply retry_not_retryable | lia | lia].
Qed.

(** The loop never runs out of the fuel [with_retry] gives it. *)
Lemma wrapper_loop_fuel (w : World) :
  wrapper_loop N b excs name func (retry_fuel N) 0 None w
  = Some (with_retry N b excs name func w).
Proof.
  unfold with_retry. destruct (Z.leb_spec 0 N) as [HN|HN].
  - destruct (wrapper_loop_spec (retry_fuel N) 0%Z None w)
      as (n & out & Hrun & _); [lia | unfold retry_fuel; f_equal; lia |].
    now rewrite Hrun.
  - unfold retry_fuel. replace (Z.to_nat (N + 1)) with 0 by lia.
    cbn [wrapper_loop]. destruct (Z.leb_spec 0 N); [lia | reflexivity].
Qed.

Lemma retry_spec_raise_exhausts n k w x w' t :
  retry_spec N b excs name func n k w (Raise x, w', t) ->
  (k <= N)%Z ->
  (forall w0 y w1 t1, func w0 = (Raise y, w1, t1) -> isinstance y excs = true) ->
  Z.of_nat n = (N + 1 - k)%Z.
Proof.
  intros Hspec. remember (Raise x, w', t) as out eqn:Hout.
  revert x w' t Hout.
  induction Hspec as [k w v w1 t1 Hf | k w y w1 t1 Hf Hy | k w y w1 t1 Hf Hy Hlt
                     | n k w y w1 t1 out w2 t2 Hf Hy Hle delay Hrest IH];
    intros x w' t Hout Hk Hall.
  - discriminate.
  - rewrite (Hall _ _ _ _ Hf) in Hy. discriminate.
  - lia.
  - injection Hout as -> -> _.
    specialize (IH x w' t2 eq_refl Hle Hall). lia.
Qed.

End Loop.
End RetryFacts.

(* ===================================================================== *)
(** * Facts: the rules of [holds] and the operations *)
(* ===================================================================== *)

Section HoldsRules.
Context {H : Host}.

Section Rules.
Variable R : World -> World -> Prop.
Variable P : event -> Prop.
Hypothesis R_refl : forall w, R w w.
Hypothesis R_trans : forall a b c, R a b -> R b c -> R a c.

Lemma holds_ret {A} E (a : A) : holds R P E (ret a).
Proof. intros w r w' t [= <- <- <-]. auto. Qed.

Lemma holds_get E : holds R P E get.
Proof. intros w r w' t [= <- <- <-]. auto. Qed.

Lemma holds_raise {A} (E : exn -> Prop) c msg :
  E (mk_exn c msg) -> holds R P E (raise (A:=A) c msg).
Proof. intros HE w r w' t [= <- <- <-]. auto. Qed.

Lemma holds_reraise {A} (E : exn -> Prop) x :
  E x -> holds R P E (reraise (A:=A) x).
Proof. intros HE w r w' t [= <- <- <-]. auto. Qed.

Lemma holds_emit E ev : P ev -> holds R P E (emit ev).
Proof. intros HP w r w' t [= <- <- <-]. auto. Qed.

Lemma holds_modify E f : (forall w, R w (f w)) -> holds R P E (modify f).
Proof. intros HR w r w' t [= <- <- <-]. auto. Qed.

Lemma holds_bind {A B} E (m : M A) (k : A -> M B) :
  holds R P E m -> (forall a, holds R P E (k a)) -> holds R P E (bind m k).
Proof.
  intros Hm Hk w r w' t. unfold bind.
  destruct (m w) as [[[a|x] w1] t1] eqn:Hmw.
  - destruct (k a w1) as [[r2 w2] t2] eqn:Hkw. intros [= <- <- <-].
    destruct (Hm _ _ _ _ Hmw) as (HR1 & HP1 & _).
    destruct (Hk a _ _ _ _ Hkw) as (HR2 & HP2 & HE2).
    repeat split; eauto. now apply Forall_app.
  - intros [= <- <- <-]. exact (Hm _ _ _ _ Hmw).
Qed.

(** What follows a computation that always raises is never run. *)
Lemma holds_bind_raise {A B} E (m : M A) (k : A -> M B) :
  holds R P E m ->
  (forall w, exists x w' t, m w = (Raise x, w', t)) ->
  holds R P E (bind m k).
Proof.
  intros Hm Hr w r w' t. unfold bind.
  destruct (Hr w) as (x & w1 & t1 & Hmw). rewrite Hmw.
  intros [= <- <- <-]. exact (Hm _ _ _ _ Hmw).
Qed.

Lemma holds_try_except {A} (E E' : exn -> Prop) (m : M A) (h : exn -> M A) :
  holds R P E' m ->
  (forall x, E' x -> isinstance x [Exception] = true -> holds R P E (h x)) ->
  (forall x, E' x -> isinstance x [Exception] = false -> E x) ->
  holds R P E (try_except m h).
Proof.
  intros Hm Hh HE w r w' t. unfold try_except.
  destruct (m w) as [[[a|x] w1] t1] eqn:Hmw.
  - intros [= <- <- <-]. destruct (Hm _ _ _ _ Hmw) as (? & ? & _). auto.
  - destruct (Hm _ _ _ _ Hmw) as (HR1 & HP1 & HE1).
    destruct (isinstance x [Exception]) eqn:Hx.
    + destruct (h x w1) as [[r2 w2] t2] eqn:Hhw. intros [= <- <- <-].
      destruct (Hh x HE1 Hx _ _ _ _ Hhw) as (HR2 & HP2 & HE2).
      repeat split; eauto. now apply Forall_app.
    + intros [= <- <- <-]. auto.
Qed.

Hypothesis R_rng : forall w n, R w (set_rng_pos n w).
Hypothesis P_attempt : forall n, P (EvAttempt n).
Hypothesis P_sleep : forall d, P (EvSleep d).
Hypothesis P_log : forall r, P (EvLog r).

Lemma holds_wrapper_loop {T} E N b excs name (func : M T) :
  holds R P E func ->
  (forall msg, E (mk_exn RuntimeError msg)) ->
  forall fuel k last w r w' t,
    (forall x, last = Some x -> E x) ->
    wrapper_loop N b excs name func fuel k last w = Some (r, w', t) ->
    R w w' /\ Forall P t /\ match r with Raise x => E x | Ok _ => True end.
Proof.
  intros Hf HE. induction fuel as [|fuel IH]; intros k last w r w' t Hlast;
    cbn [wrapper_loop].
  - destruct (k <=? N)%Z; [discriminate|].
    destruct last as [x|]; intros [= <- <- <-]; repeat split; auto.
  - destruct (k <=? N)%Z.
    + rewrite emit_bind.
      destruct (func w) as [[[v|x] w1] t1] eqn:Hfw;
        destruct (Hf _ _ _ _ Hfw) as (HR1 & HP1 & HE1).
      * intros [= <- <- <-]. repeat split; auto.
      * destruct (isinstance x excs).
        -- destruct (k + 1 >? N)%Z.
           ++ cbn. intros [= <- <- <-]. repeat split; auto.
              constructor; [auto|]. apply Forall_app. split; auto.
           ++ destruct (wrapper_loop N b excs name func fuel (k + 1) (Some x)
                          (set_rng_pos (S (rng_pos w1)) w1))
                as [[[r2 w2] t2]|] eqn:Hrec; [|discriminate].
              cbn. intros [= <- <- <-].
              assert (Hl : forall y, Some x = Some y -> E y)
                by (intros ? [= ?]; subst; exact HE1).
              destruct (IH _ _ _ _ _ _ Hl Hrec) as (HR2 & HP2 & HE2).
              repeat split; eauto.
              constructor; [auto|]. rewrite <- app_assoc.
              apply Forall_app. split; [auto|].
              constructor; [auto|]. constructor; auto.
        -- intros [= <- <- <-]. repeat split; auto.
    + destruct last as [x|]; intros [= <- <- <-]; repeat split; auto.
Qed.

Lemma holds_with_retry {T} E N b excs name (func : M T) :
  holds R P E func ->
  (forall msg, E (mk_exn RuntimeError msg)) ->
  holds R P E (with_retry N b excs name func).
Proof.
  intros Hf HE w r w' t. unfold with_retry.
  destruct (wrapper_loop N b excs name func (retry_fuel N) 0 None w)
    as [[[r2 w2] t2]|] eqn:Hrun.
  - intros [= <- <- <-].
    eapply holds_wrapper_loop; eauto. discriminate.
  - intros [= <- <- <-]. repeat split; auto.
Qed.

End Rules.
End HoldsRules.

Create HintDb holds_db.

Section Ops.
Context {H : Host}.
Variable R : World -> World -> Prop.
Variable P : event -> Prop.
Hypothesis R_refl : forall w, R w w.
Hypothesis R_trans : forall a b c, R a b -> R b c -> R a c.
Hypothesis R_rng : forall w n, R w (set_rng_pos n w).
Hypothesis R_uuid : forall w n, R w (set_uuid_pos n w).
Hypothesis R_dev : forall w d, R w (set_dev d w).
Hypothesis R_host : forall w f, R w (set_host f w).
Hypothesis P_other : forall ev, is_entry ev = false -> P ev.

Ltac side :=
  solve [ assumption
        | apply P_other; reflexivity
        | intros; apply P_other; reflexivity
        | match goal with HE : exc_ok _ |- _ => apply HE; reflexivity end
        | match goal with HE : exc_ok _ |- _ => intros; apply HE; reflexivity end
        | intros; auto ].

Ltac hstep :=
  first
    [ apply holds_ret; side
    | apply holds_get; side
    | apply holds_emit; side
    | apply holds_modify; side
    | apply holds_raise; side
    | apply holds_reraise; side
    | solve [eauto with holds_db]
    | apply holds_bind; try assumption; [ | intros ? ]
    | match goal with
      | |- holds _ _ _ (match ?x with _ => _ end) => destruct x eqn:?
      | |- holds _ _ _ (if ?x then _ else _) => destruct x eqn:?
      end ].

Ltac holds_auto := unfold log, no_device; repeat hstep.

Lemma holds_path_exists E p : holds R P E (path_exists p).
Proof. unfold path_exists. holds_auto. Qed.

Lemma holds_stat_size E p : exc_ok E -> holds R P E (stat_size p).
Proof. intros HE. unfold stat_size. holds_auto. Qed.

Lemma holds_open_read E p : exc_ok E -> holds R P E (open_read p).
Proof. intros HE. unfold open_read. holds_auto. Qed.

Lemma holds_open_write E p text : exc_ok E -> holds R P E (open_write p text).
Proof. intros HE. unfold open_write. holds_auto. Qed.

Lemma holds_unlink E p : holds R P E (unlink p).
Proof. unfold unlink. holds_auto. Qed.

Lemma holds_mkdir_parents E p : exc_ok E -> holds R P E (mkdir_parents p).
Proof. intros HE. unfold mkdir_parents. holds_auto. Qed.

#[local] Hint Resolve holds_path_exists holds_stat_size holds_open_read
  holds_open_write holds_unlink holds_mkdir_parents : holds_db.

Lemma holds_calculate_checksum E p :
  exc_ok E -> holds R P E (calculate_checksum p).
Proof. intros HE. unfold calculate_checksum. holds_auto. Qed.

Lemma holds_retrying {T} E N b excs name (func : M T) :
  exc_ok E -> holds R P E func -> holds R P E (with_retry N b excs name func).
Proof.
  intros HE Hf. apply holds_with_retry; auto;
    try (intros; apply P_other; reflexivity);
    intros msg; apply HE; reflexivity.
Qed.

Lemma holds_download_body E file_id target_path :
  exc_ok E -> holds R P E (download_body file_id target_path).
Proof. intros HE. unfold download_body. holds_auto. Qed.

Lemma holds_upload_body E source_path parent_id filename :
  exc_ok E -> holds R P E (upload_body source_path parent_id filename).
Proof. intros HE. unfold upload_body. holds_auto. Qed.

Lemma holds_mkdir_body E parent_id folder_name sid :
  exc_ok E -> holds R P E (mkdir_body parent_id folder_name sid).
Proof. intros HE. unfold mkdir_body. holds_auto. Qed.

Lemma holds_download E file_id target_path :
  exc_ok E -> holds R P E (download file_id target_path).
Proof.
  intros HE. apply holds_retrying; [exact HE|]. now apply holds_download_body.
Qed.

Lemma holds_upload E source_path parent_id filename :
  exc_ok E -> holds R P E (upload source_path parent_id filename).
Proof.
  intros HE. apply holds_retrying; [exact HE|]. now apply holds_upload_body.
Qed.

Lemma holds_mkdir E parent_id folder_name sid :
  exc_ok E -> holds R P E (mkdir parent_id folder_name sid).
Proof.
  intros HE. apply holds_retrying; [exact HE|]. now apply holds_mkdir_body.
Qed.

#[local] Hint Resolve holds_calculate_checksum holds_download holds_upload
  holds_mkdir : holds_db.

Lemma exc_ok_is_exception : exc_ok is_exception.
Proof. intros x Hx. exact Hx. Qed.
#[local] Hint Resolve exc_ok_is_exception : holds_db.

(** A [try] whose handler does not raise turns every exception of the
    embedded code into a value. *)
Lemma holds_guarded {A} E (m : M A) (h : exn -> M A) :
  holds R P is_exception m ->
  (forall x, holds R P E (h x)) ->
  holds R P E (try_except m h).
Proof.
  intros Hm Hh. eapply holds_try_except; eauto.
  intros x Hx Hn. unfold is_exception in Hx. congruence.
Qed.

Lemma holds_compare_file E e rel_path dest_full_path :
  exc_ok E -> holds R P E (_compare_file e rel_path dest_full_path).
Proof.
  intros HE. unfold _compare_file. holds_auto.
  apply holds_guarded; [|intros x]; holds_auto.
Qed.

(** In checksum mode the comparison raises nothing. *)
Lemma holds_compare_file_checksum e rel_path dest_full_path :
  use_checksum e = true ->
  holds R P never (_compare_file e rel_path dest_full_path).
Proof.
  intros Hmode. unfold _compare_file. rewrite Hmode. cbn [negb]. holds_auto.
  apply holds_guarded; [|intros x]; holds_auto.
Qed.

Lemma holds_path_exists_in_dest E p : holds R P E (_path_exists_in_dest p).
Proof. unfold _path_exists_in_dest. holds_auto. Qed.

#[local] Hint Resolve holds_compare_file holds_path_exists_in_dest : holds_db.

Lemma holds_verify_loop E e items : forall plan,
  exc_ok E -> holds R P E (verify_loop e items plan).
Proof.
  induction items as [|[rel_path entry_type] rest IH]; intros plan HE;
    cbn [verify_loop]; holds_auto.
Qed.

Lemma holds_scan_source_directory E e :
  exc_ok E -> holds R P E (_scan_source_directory e).
Proof. intros HE. unfold _scan_source_directory. holds_auto. Qed.

Lemma holds_save_plan E p plan : exc_ok E -> holds R P E (save_plan p plan).
Proof. intros HE. unfold save_plan. holds_auto. Qed.

#[local] Hint Resolve holds_verify_loop holds_scan_source_directory
  holds_save_plan : holds_db.

Lemma holds_verify E e plan_path : exc_ok E -> holds R P E (verify e plan_path).
Proof. intros HE. unfold verify. holds_auto. Qed.

End Ops.

Section IndexOps.
Context {H : Host}.
Variable R : World -> World -> Prop.
Variable P : event -> Prop.
Hypothesis R_refl : forall w, R w w.
Hypothesis R_trans : forall a b c, R a b -> R b c -> R a c.
Hypothesis R_rng : forall w n, R w (set_rng_pos n w).
Hypothesis R_uuid : forall w n, R w (set_uuid_pos n w).
Hypothesis R_dev : forall w d, R w (set_dev d w).
Hypothesis R_host : forall w f, R w (set_host f w).
Hypothesis R_heap : forall w f, R w (set_heap f w).
Hypothesis R_path_map :
  forall w p a, R w (set_path_map (fun m => <[p := a]> m) w).
Hypothesis P_other : forall ev, is_entry ev = false -> P ev.

#[local] Hint Resolve holds_path_exists holds_stat_size holds_open_read
  holds_open_write holds_unlink holds_mkdir_parents holds_calculate_checksum
  holds_download holds_upload holds_mkdir holds_save_plan holds_verify
  exc_ok_is_exception : holds_db.

(** [sync.py] imports no [IDEntry] (line 20): looking the name up
    raises, and the statements after the lookup are not run.  This is
    why no hypothesis on [set_id_map] is needed here. *)
Lemma load_global_IDEntry w :
  load_global "IDEntry" w
  = (Raise (mk_exn NameError "name 'IDEntry' is not defined"), w, []).
Proof. reflexivity. Qed.

Ltac side :=
  solve [ assumption
        | apply P_other; reflexivity
        | intros; apply P_other; reflexivity
        | match goal with HE : exc_ok _ |- _ => apply HE; reflexivity end
        | match goal with HE : exc_ok _ |- _ => intros; apply HE; reflexivity end
        | intros; auto ].

Ltac hstep :=
  first
    [ apply holds_ret; side
    | apply holds_get; side
    | apply holds_emit; side
    | apply holds_modify; side
    | apply holds_raise; side
    | apply holds_reraise; side
    | solve [eauto with holds_db]
    | apply holds_bind_raise; try assumption;
        [ | intros ?; rewrite load_global_IDEntry; eauto ]
    | apply holds_bind; try assumption; [ | intros ? ]
    | match goal with
      | |- holds _ _ _ (match ?x with _ => _ end) => destruct x eqn:?
      | |- holds _ _ _ (if ?x then _ else _) => destruct x eqn:?
      end ].

Ltac holds_auto := unfold log, no_device; repeat hstep.

Lemma holds_alloc E n : holds R P E (alloc n).
Proof. unfold alloc. holds_auto. Qed.

Lemma holds_load_global E name : exc_ok E -> holds R P E (load_global name).
Proof. intros HE. unfold load_global. holds_auto. Qed.

#[local] Hint Resolve holds_alloc holds_load_global : holds_db.


Lemma holds_create_segment E e current_id part next_path :
  holds R P E (create_segment e current_id part next_path).
Proof.
  unfold create_segment. apply holds_guarded; auto; [|intros x]; holds_auto.
Qed.

#[local] Hint Resolve holds_create_segment : holds_db.

Lemma holds_ensure_walk E e parts : forall current_path current_id,
  holds R P E (ensure_walk e parts current_path current_id).
Proof.
  induction parts as [|part rest IH]; intros current_path current_id;
    cbn [ensure_walk]; holds_auto.
Qed.

#[local] Hint Resolve holds_ensure_walk : holds_db.

Lemma holds_ensure_directory E e rel_path :
  holds R P E (_ensure_directory e rel_path).
Proof. unfold _ensure_directory. holds_auto. Qed.

#[local] Hint Resolve holds_ensure_directory : holds_db.

Lemma holds_upload_and_register E e rel_path source_path parent_node parent_id :
  holds R P E (upload_and_register e rel_path source_path parent_node parent_id).
Proof.
  unfold upload_and_register. apply holds_guarded; auto; [|intros x]; holds_auto.
Qed.

#[local] Hint Resolve holds_upload_and_register : holds_db.

Lemma holds_sync_file E e rel_path : holds R P E (_sync_file e rel_path).
Proof. unfold _sync_file. holds_auto. Qed.

#[local] Hint Resolve holds_sync_file : holds_db.

Lemma holds_phase_dirs E e items :
  (forall ev, P ev) ->
  forall failed, holds R P E (phase_dirs e items failed).
Proof.
  intros HP. induction items as [|[p k] rest IH]; intros failed;
    cbn [phase_dirs]; holds_auto.
Qed.

Lemma holds_phase_files E e items :
  (forall ev, P ev) ->
  forall failed, holds R P E (phase_files e items failed).
Proof.
  intros HP. induction items as [|[p k] rest IH]; intros failed;
    cbn [phase_files]; holds_auto.
Qed.

#[local] Hint Resolve holds_phase_dirs holds_phase_files : holds_db.

Lemma holds_run_plan E e plan :
  exc_ok E -> (forall ev, P ev) -> holds R P E (run_plan e plan).
Proof.
  intros HE HP. unfold run_plan, phases, finish, uuid4. holds_auto.
Qed.

Lemma holds_find_plan E e plan_path :
  exc_ok E -> holds R P E (find_plan e plan_path).
Proof.
  intros HE. unfold find_plan, _find_latest_plan. holds_auto.
Qed.

(** The whole of [execute]. *)
Lemma holds_execute E e plan_path w r w' t :
  exc_ok E -> (forall ev, P ev) ->
  execute e plan_path w = Some (r, w', t) ->
  R w w' /\ match r with Raise x => E x | Ok _ => True end.
Proof.
  intros HE HP. unfold execute.
  destruct (find_plan e plan_path w) as [[[p|x] w1] t1] eqn:Hf;
    destruct (holds_find_plan E e plan_path HE _ _ _ _ Hf) as (HR1 & _ & HE1);
    [|intros [= <- <- <-]; auto].
  unfold load_plan.
  destruct (open_read p w1) as [[[text|x] w2] t2] eqn:Ho;
    assert (Hop : holds R P E (open_read p)) by eauto with holds_db;
    destruct (Hop _ _ _ _ Ho) as (HR2 & _ & HE2);
    [|intros [= <- <- <-]; eauto].
  destruct (Json.loads text) as [plan| |]; [| |discriminate].
  - destruct (run_plan e plan w2) as [[r3 w3] t3] eqn:Hr.
    destruct (holds_run_plan E e plan HE HP _ _ _ _ Hr) as (HR3 & _ & HE3).
    intros [= <- <- <-]. eauto.
  - intros [= <- <- <-]. split; [eauto|]. apply HE. reflexivity.
Qed.

End IndexOps.

(* ===================================================================== *)
(** * Facts: the two phases of [execute] *)
(* ===================================================================== *)

Section EventFacts.

Lemma entries_of_app t1 t2 : entries_of (t1 ++ t2) = entries_of t1 ++ entries_of t2.
Proof. apply flat_map_app. Qed.

Lemma failed_of_app t1 t2 : failed_of (t1 ++ t2) = failed_of t1 ++ failed_of t2.
Proof. apply flat_map_app. Qed.

Lemma no_entries t :
  Forall (fun ev => is_entry ev = false) t -> entries_of t = [] /\ failed_of t = [].
Proof.
  induction 1 as [|ev t Hev _ [IH1 IH2]]; [easy|].
  destruct ev; try discriminate; simpl; auto.
Qed.

Lemma failed_of_entries t :
  failed_of t = map fst (List.filter (fun x => negb (snd x)) (entries_of t)).
Proof.
  induction t as [|ev t IH]; [reflexivity|].
  change (ev :: t) with ([ev] ++ t).
  rewrite failed_of_app, entries_of_app, List.filter_app, map_app, IH.
  f_equal. destruct ev as [| | | | | |p k [|]]; reflexivity.
Qed.

End EventFacts.

Section Phases.
Context {H : Host}.


Lemma ensure_directory_total e rel_path w :
  exists ok w' t, _ensure_directory e rel_path w = (Ok ok, w', t)
                  /\ Forall not_entry t.
Proof.
  destruct (_ensure_directory e rel_path w) as [[r w'] t] eqn:Hrun.
  destruct (holds_ensure_directory anything not_entry) with
    (E := never) (e := e) (rel_path := rel_path) (w := w) (r := r) (w' := w') (t := t)
    as (_ & HP & HE); unfold anything, not_entry; auto.
  destruct r as [ok|x]; [|destruct HE]. eauto.
Qed.

Lemma sync_file_total e rel_path w :
  exists ok w' t, _sync_file e rel_path w = (Ok ok, w', t) /\ Forall not_entry t.
Proof.
  destruct (_sync_file e rel_path w) as [[r w'] t] eqn:Hrun.
  destruct (holds_sync_file anything not_entry) with
    (E := never) (e := e) (rel_path := rel_path) (w := w) (r := r) (w' := w') (t := t)
    as (_ & HP & HE); unfold anything, not_entry; auto.
  destruct r as [ok|x]; [|destruct HE]. eauto.
Qed.

Lemma phase_dirs_run e (items : Plan) : forall failed w,
  exists w' t,
    phase_dirs e items failed w = (Ok (record_failures failed (failed_of t)), w', t)
    /\ map fst (entries_of t) = dir_entries items.
Proof.
  induction items as [|[p k] rest IH]; intros failed w.
  - exists w, []. split; reflexivity.
  - cbn [phase_dirs dir_entries List.filter snd].
    destruct (String.eqb k "dir") eqn:Hk; [|apply IH].
    destruct (ensure_directory_total e p w) as (ok & w1 & t1 & Hrun & Hne).
    destruct (no_entries _ Hne) as [He Hf].
    destruct (IH (if ok then failed else Dict.set p k failed) w1)
      as (w' & t' & Hrest & Hent).
    exists w', (t1 ++ [EvEntry p k ok] ++ t').
    unfold bind at 1. rewrite Hrun. unfold bind, emit. rewrite Hrest.
    rewrite !entries_of_app, !failed_of_app, He, Hf, map_app.
    split; [|cbn; f_equal; exact Hent].
    f_equal. f_equal. destruct ok; reflexivity.
Qed.

Lemma phase_files_run e (items : Plan) : forall failed w,
  exists w' t,
    phase_files e items failed w = (Ok (record_failures failed (failed_of t)), w', t)
    /\ map fst (entries_of t) = file_entries items.
Proof.
  induction items as [|[p k] rest IH]; intros failed w.
  - exists w, []. split; reflexivity.
  - cbn [phase_files file_entries List.filter snd].
    destruct (String.eqb k "file") eqn:Hk; [|apply IH].
    destruct (sync_file_total e p w) as (ok & w1 & t1 & Hrun & Hne).
    destruct (no_entries _ Hne) as [He Hf].
    destruct (IH (if ok then failed else Dict.set p k failed) w1)
      as (w' & t' & Hrest & Hent).
    exists w', (t1 ++ [EvEntry p k ok] ++ t').
    unfold bind at 1. rewrite Hrun. unfold bind, emit. rewrite Hrest.
    rewrite !entries_of_app, !failed_of_app, He, Hf, map_app.
    split; [|cbn; f_equal; exact Hent].
    f_equal. f_equal. destruct ok; reflexivity.
Qed.

Lemma record_failures_app d l1 l2 :
  record_failures (record_failures d l1) l2 = record_failures d (l1 ++ l2).
Proof. unfold record_failures. now rewrite fold_left_app. Qed.

Lemma phases_run e (plan : Plan) w :
  exists w' t,
    phases e plan w = (Ok (record_failures [] (failed_of t)), w', t)
    /\ map fst (entries_of t) = dir_entries plan ++ file_entries plan.
Proof.
  destruct (phase_dirs_run e plan [] w) as (w1 & t1 & Hd & Hed).
  destruct (phase_files_run e plan (record_failures [] (failed_of t1)) w1)
    as (w2 & t2 & Hf & Hef).
  exists w2, (t1 ++ t2). unfold phases, bind. rewrite Hd, Hf.
  rewrite record_failures_app, failed_of_app, entries_of_app, map_app, Hed, Hef.
  split; reflexivity.
Qed.

End Phases.

Section ListFacts.
Context {A B : Type}.

Lemma NoDup_map_filter (f : A -> B) (g : A -> bool) (l : list A) :
  List.NoDup (map f l) -> List.NoDup (map f (List.filter g l)).
Proof.
  induction l as [|x l IH]; simpl; intros Hnd; [constructor|].
  inversion Hnd as [|? ? Hnin Hnd']; subst.
  destruct (g x); simpl; [|auto].
  constructor; [|auto].
  intros Hin. apply Hnin. apply in_map_iff in Hin as (y & Hy & Hin).
  apply filter_In in Hin as [Hin _]. apply in_map_iff. eauto.
Qed.

Lemma NoDup_map_In_eq (f : A -> B) (l : list A) x y :
  List.NoDup (map f l) -> In x l -> In y l -> f x = f y -> x = y.
Proof.
  induction l as [|z l IH]; simpl; [tauto|].
  intros Hnd Hx Hy Hxy. inversion Hnd as [|? ? Hnin Hnd']; subst.
  destruct Hx as [->|Hx], Hy as [->|Hy]; auto.
  - exfalso. apply Hnin. rewrite Hxy. now apply in_map.
  - exfalso. apply Hnin. rewrite <- Hxy. now apply in_map.
Qed.

End ListFacts.

Section PlanFacts.

Lemma dict_keys_functional {V} (d : Dict.t V) k (a b : V) :
  List.NoDup (Dict.keys d) -> In (k, a) d -> In (k, b) d -> a = b.
Proof.
  intros Hnd Ha Hb.
  pose proof (NoDup_map_In_eq fst d (k, a) (k, b) Hnd Ha Hb eq_refl) as Heq.
  congruence.
Qed.

Lemma by_kind_NoDup (plan : Plan) :
  List.NoDup (Dict.keys plan) ->
  List.NoDup (Dict.keys (dir_entries plan ++ file_entries plan)).
Proof.
  intros Hnd. unfold Dict.keys. rewrite map_app.
  apply List.NoDup_app; try (apply NoDup_map_filter; exact Hnd).
  intros k Hd Hf.
  apply in_map_iff in Hd as ([k1 v1] & <- & Hd).
  apply in_map_iff in Hf as ([k2 v2] & Hk & Hf). simpl in Hk. subst k2.
  apply filter_In in Hd as [Hd Hv1]. apply filter_In in Hf as [Hf Hv2].
  simpl in Hv1, Hv2.
  apply String.eqb_eq in Hv1, Hv2.
  pose proof (dict_keys_functional plan k1 v1 v2 Hnd Hd Hf). congruence.
Qed.

Lemma by_kind_incl (plan : Plan) :
  incl (dir_entries plan ++ file_entries plan) plan.
Proof. apply incl_app; apply incl_filter. Qed.

Lemma record_failures_wf (l : Plan) : forall d,
  Dict.wf d = true -> Dict.wf (record_failures d l) = true.
Proof.
  induction l as [|[k v] l IH]; intros d Hwf; [exact Hwf|].
  apply IH. now apply dict_wf_set.
Qed.

(** The entries a run has processed are the plan's, each key once; so
    its failures are recorded as they come and no success is among them. *)
Lemma failures_exact (plan : Plan) (t : list event) :
  Dict.wf plan = true ->
  map fst (entries_of t) = dir_entries plan ++ file_entries plan ->
  record_failures [] (failed_of t) = failed_of t
  /\ Dict.wf (failed_of t) = true
  /\ incl (map fst (entries_of t)) plan
  /\ (forall q k, In (q, k, true) (entries_of t) -> Dict.get q (failed_of t) = None).
Proof.
  intros Hwf Hent.
  assert (Hnd : List.NoDup (map (fun x => fst (fst x)) (entries_of t))).
  { rewrite <- (map_map fst fst), Hent.
    apply by_kind_NoDup, dict_wf_NoDup, Hwf. }
  assert (Hrec : record_failures [] (failed_of t) = failed_of t).
  { unfold record_failures. rewrite dict_sets_fresh; [reflexivity|].
    simpl. rewrite failed_of_entries. unfold Dict.keys. rewrite map_map.
    now apply NoDup_map_filter. }
  split; [exact Hrec|]. split.
  { rewrite <- Hrec. now apply record_failures_wf. }
  split.
  { rewrite Hent. apply by_kind_incl. }
  intros q k Hin.
  destruct (Dict.get q (failed_of t)) as [k'|] eqn:Hget; [|reflexivity].
  exfalso. apply dict_get_in in Hget. rewrite failed_of_entries in Hget.
  apply in_map_iff in Hget as ([[q' k''] ok] & [= -> ->] & Hf).
  apply filter_In in Hf as [Hf Hok]. simpl in Hok.
  pose proof (NoDup_map_In_eq _ _ _ _ Hnd Hin Hf eq_refl) as Heq.
  injection Heq as _ <-. discriminate.
Qed.

End PlanFacts.

Section Execute.
Context {H : Host}.

Lemma execute_loaded e p text plan w :
  host w !! p = Some (HostFile text true) ->
  Json.loads text = Json.Loaded plan ->
  execute e (Some p) w = Some (run_plan e plan w).
Proof.
  intros Hp Hl. unfold execute, find_plan, load_plan, open_read, ret, bind, get.
  rewrite Hp. cbn. rewrite Hl.
  destruct (run_plan e plan w) as [[r w'] t]. reflexivity.
Qed.

Lemma finish_none w : finish [] w = (Ok (true, None), w, []).
Proof. reflexivity. Qed.

Lemma finish_some (failed : Plan) w :
  failed <> [] ->
  let loc := retry_plan_location (uuid4_hex (uuid_pos w)) in
  host w !! loc = None ->
  finish failed w
  = (Ok (false, Some loc),
     set_host (fun h => <[loc := HostFile (Json.dumps failed) true]> h)
       (set_uuid_pos (S (uuid_pos w)) w),
     []).
Proof.
  intros Hne loc Hfree. destruct failed as [|kv failed]; [contradiction|].
  unfold finish, uuid4, save_plan, open_write, bind, get, modify, ret.
  cbn. fold loc. rewrite Hfree. reflexivity.
Qed.

Lemma finish_events (failed : Plan) w r w' t :
  finish failed w = (r, w', t) -> t = [].
Proof.
  destruct failed as [|kv failed]; [intros [= _ _ <-]; reflexivity|].
  unfold finish, uuid4, save_plan, open_write, bind, get, modify, ret, raise.
  cbn. destruct (host w !! _) as [[c rd|sz]|]; intros [= _ _ <-]; reflexivity.
Qed.

Lemma load_saved (failed : Plan) loc w :
  Dict.wf failed = true ->
  host w !! loc = Some (HostFile (Json.dumps failed) true) ->
  load_plan loc w = Some (Ok failed, w, []).
Proof.
  intros Hwf Hloc. unfold load_plan, open_read, bind, get, ret.
  rewrite Hloc. cbn. now rewrite loads_dumps.
Qed.

End Execute.

Section CompareFacts.
Context {H : Host}.

(** In checksum mode a comparison never raises: what goes wrong inside
    it is logged and answered with "not equal". *)
Lemma compare_file_checksum_total e rel_path dest_full_path w :
  use_checksum e = true ->
  exists same w' t, _compare_file e rel_path dest_full_path w = (Ok same, w', t).
Proof.
  intros Hmode.
  assert (Hc : holds anything any_event never
                 (_compare_file e rel_path dest_full_path)).
  { apply holds_compare_file_checksum; unfold anything, any_event; auto. }
  destruct (_compare_file e rel_path dest_full_path w) as [[[same|x] w'] t] eqn:Hrun.
  - eauto.
  - destruct (proj2 (proj2 (Hc _ _ _ _ Hrun))).
Qed.

End CompareFacts.

(* ===================================================================== *)
(** * Facts: folder creation *)
(* ===================================================================== *)

Section Creation.
Context {H : Host}.

Lemma created_app t1 t2 : created (t1 ++ t2) = created t1 + created t2.
Proof. unfold created. now rewrite List.filter_app, length_app. Qed.

Lemma created_cons ev t :
  created (ev :: t) = (if is_creation ev then 1 else 0) + created t.
Proof. unfold created. cbn. destruct (is_creation ev); reflexivity. Qed.

Lemma mkdir_body_creates parent_id name sid w r w' t :
  mkdir_body parent_id name sid w = (r, w', t) ->
  creates r t /\ path_map w' = path_map w.
Proof.
  unfold mkdir_body, bind, get, no_device, raise, modify, emit, log, ret.
  cbn. destruct (device w); cbn; [|intros [= <- <- <-]; split; reflexivity].
  destruct (LIBMTP_Create_Folder _ _ _ _) as [res d]. cbn.
  destruct (Z.leb_spec (c_int res) 0); cbn; intros [= <- <- <-];
    (split; [|reflexivity]); unfold creates, created; cbn.
  - destruct (Z.ltb_spec 0 (c_int res)); [lia | reflexivity].
  - destruct (Z.ltb_spec 0 (c_int res)); [reflexivity | lia].
Qed.

Lemma wrapper_loop_creates {T} N b excs name (func : M T) :
  (forall w r w' t, func w = (r, w', t) ->
     creates r t /\ path_map w' = path_map w) ->
  forall fuel k last w r w' t,
    wrapper_loop N b excs name func fuel k last w = Some (r, w', t) ->
    creates r t /\ path_map w' = path_map w.
Proof.
  intros Hf. induction fuel as [|fuel IH]; intros k last w r w' t;
    cbn [wrapper_loop].
  - destruct (k <=? N)%Z; [discriminate|].
    destruct last; intros [= <- <- <-]; split; reflexivity.
  - destruct (k <=? N)%Z;
      [|destruct last; intros [= <- <- <-]; split; reflexivity].
    rewrite emit_bind.
    destruct (func w) as [[[v|x] w1] t1] eqn:Hfw;
      destruct (Hf _ _ _ _ Hfw) as [Hc Hp].
    + intros [= <- <- <-]. split; [exact Hc | exact Hp].
    + destruct (isinstance x excs);
        [|intros [= <- <- <-]; split; [exact Hc | exact Hp]].
      destruct (k + 1 >? N)%Z.
      * cbn. intros [= <- <- <-]. split; [|exact Hp].
        unfold creates in *. rewrite created_cons, created_app, Hc. reflexivity.
      * destruct (wrapper_loop N b excs name func fuel (k + 1) (Some x)
                    (set_rng_pos (S (rng_pos w1)) w1))
          as [[[r2 w2] t2]|] eqn:Hrec; [|discriminate].
        cbn. intros [= <- <- <-].
        destruct (IH _ _ _ _ _ _ Hrec) as [Hc2 Hp2].
        split; [|now rewrite Hp2].
        unfold creates in *. rewrite created_cons, !created_app, Hc.
        destruct r2; cbn in *; lia.
Qed.

Lemma mkdir_creates parent_id name sid w r w' t :
  mkdir parent_id name sid w = (r, w', t) ->
  creates r t /\ path_map w' = path_map w.
Proof.
  unfold mkdir, with_retry.
  destruct (wrapper_loop _ _ _ _ _ _ _ _ _) as [[[r2 w2] t2]|] eqn:Hrun.
  - intros [= <- <- <-]. eapply wrapper_loop_creates; [|exact Hrun].
    intros. eapply mkdir_body_creates; eauto.
  - intros [= <- <- <-]. split; reflexivity.
Qed.

Lemma mkdir_raises_exception parent_id name sid w x w' t :
  mkdir parent_id name sid w = (Raise x, w', t) -> is_exception x.
Proof.
  intros Hrun.
  destruct (holds_mkdir anything any_event) with
    (E := is_exception) (parent_id := parent_id) (folder_name := name)
    (sid := sid) (w := w) (r := @Raise Z x) (w' := w') (t := t)
    as (_ & _ & HE); unfold anything, any_event; auto.
  apply exc_ok_is_exception.
Qed.

(** The [try] of [_ensure_directory] never gives a new id: the device
    refuses, or [IDEntry] is not bound. *)
Lemma create_segment_run e current_id part next_path w :
  exists w' t,
    create_segment e current_id part next_path w = (Ok None, w', t)
    /\ created t <= 1
    /\ (created t = 1 -> is_Some (path_map w' !! next_path))
    /\ paths_kept w w'.
Proof.
  unfold create_segment, try_except.
  unfold bind at 1.
  destruct (mkdir current_id part (storage_id e) w) as [[[new_id|x] w1] t1] eqn:Hm;
    destruct (mkdir_creates _ _ _ _ _ _ _ Hm) as [Hc Hp]; unfold creates in Hc.
  - cbn.
    match goal with
    | |- context [if ?c then _ else _] =>
        assert (Hb : c = true) by reflexivity; rewrite Hb; clear Hb
    end.
    eexists _, _. split; [reflexivity|].
    rewrite !app_nil_r, created_app, Hc. cbn.
    split; [lia|]. split.
    + intros _. rewrite Hp. rewrite lookup_insert_eq. eauto.
    + intros p Hin. cbn. rewrite Hp.
      destruct (decide (next_path = p)) as [->|Hne].
      * rewrite lookup_insert_eq. eauto.
      * now rewrite lookup_insert_ne.
  - rewrite (mkdir_raises_exception _ _ _ _ _ _ _ Hm). cbn.
    eexists _, _. split; [reflexivity|].
    rewrite created_app, Hc. cbn.
    split; [lia|]. split; [lia|].
    intros p Hin. now rewrite Hp.
Qed.

End Creation.

Section Walk.
Context {H : Host}.


Lemma ensure_walk_step e part rest current_path current_id w :
  Str.is_empty part = false ->
  ensure_walk e (part :: rest) current_path current_id w
  = match path_map w !! (current_path +:+ "/" +:+ part) with
    | Some a =>
        ensure_walk e rest (current_path +:+ "/" +:+ part) (node_id (deref w a)) w
    | None =>
        let '(r, w1, t1) :=
          create_segment e current_id part (current_path +:+ "/" +:+ part) w in
        match r with
        | Ok (Some new_id) =>
            let '(r2, w2, t2) :=
              ensure_walk e rest (current_path +:+ "/" +:+ part) new_id w1 in
            (r2, w2, t1 ++ t2)
        | Ok None => (Ok false, w1, t1 ++ [])
        | Raise x => (Raise x, w1, t1)
        end
    end.
Proof.
  intros Hne. cbn [ensure_walk]. rewrite Hne. unfold bind at 1. cbn.
  destruct (path_map w !! _) as [a|].
  - destruct (ensure_walk _ _ _ _ _) as [[r w1] t1]. reflexivity.
  - unfold bind. destruct (create_segment _ _ _ _ _) as [[[[new_id|]|x] w1] t1];
      try reflexivity.
    destruct (ensure_walk _ _ _ _ _) as [[r2 w2] t2]. reflexivity.
Qed.

Lemma ensure_walk_run e parts : forall current_path current_id w,
  exists ok w' t,
    ensure_walk e parts current_path current_id w = (Ok ok, w', t)
    /\ created t <= 1
    /\ paths_kept w w'
    /\ (ok = true -> w' = w /\ t = [])
    /\ (nonempty_parts parts = 0 -> t = []).
Proof.
  induction parts as [|part rest IH]; intros current_path current_id w.
  - exists true, w, []. repeat split; auto. intros p Hp; exact Hp.
  - destruct (Str.is_empty part) eqn:Hpart.
    + cbn [ensure_walk]. rewrite Hpart.
      unfold nonempty_parts. cbn [List.filter]. rewrite Hpart. cbn [negb].
      apply IH.
    + rewrite ensure_walk_step by exact Hpart.
      unfold nonempty_parts. cbn [List.filter]. rewrite Hpart. cbn [negb length].
      destruct (path_map w !! _) as [a|] eqn:Hnext.
      * destruct (IH (current_path +:+ "/" +:+ part) (node_id (deref w a)) w)
          as (ok & w' & t & Hrun & Hc & Hk & Hpure & _).
        exists ok, w', t. repeat split; auto; try tauto; discriminate.
      * destruct (create_segment_run e current_id part
                    (current_path +:+ "/" +:+ part) w)
          as (w' & t & Hrun & Hc & _ & Hk).
        rewrite Hrun. exists false, w', (t ++ []).
        rewrite app_nil_r. repeat split; auto; discriminate.
Qed.

Lemma ensure_walk_twice e parts : forall current_path id1 id2 w r1 w1 t1 r2 w2 t2,
  ensure_walk e parts current_path id1 w = (r1, w1, t1) ->
  ensure_walk e parts current_path id2 w1 = (r2, w2, t2) ->
  created t1 + created t2 <= nonempty_parts parts.
Proof.
  induction parts as [|part rest IH];
    intros current_path id1 id2 w r1 w1 t1 r2 w2 t2.
  - intros [= _ _ <-] [= _ _ <-]. cbn. lia.
  - destruct (Str.is_empty part) eqn:Hpart.
    + cbn [ensure_walk]. rewrite Hpart.
      unfold nonempty_parts. cbn [List.filter]. rewrite Hpart. cbn [negb].
      apply IH.
    + rewrite !ensure_walk_step by exact Hpart.
      unfold nonempty_parts. cbn [List.filter]. rewrite Hpart. cbn [negb length].
      fold (nonempty_parts rest).
      set (next_path := current_path +:+ "/" +:+ part).
      destruct (path_map w !! next_path) as [a|] eqn:Hnext.
      * intros Hrun1.
        destruct (ensure_walk_run e rest next_path (node_id (deref w a)) w)
          as (ok & w' & t & Hrun & _ & Hk & _).
        rewrite Hrun in Hrun1. injection Hrun1 as <- <- <-.
        destruct (Hk next_path) as [a' Ha']; [eauto|]. rewrite Ha'.
        intros Hrun2. pose proof (IH _ _ _ _ _ _ _ _ _ _ Hrun Hrun2). lia.
      * destruct (create_segment_run e id1 part next_path w)
          as (w' & t & Hrun & Hc & Hin & _).
        rewrite Hrun. rewrite app_nil_r. intros [= <- <- <-].
        destruct (path_map w' !! next_path) as [a'|] eqn:Hnext'.
        -- destruct (ensure_walk_run e rest next_path (node_id (deref w' a')) w')
             as (ok & w'' & t' & Hrun' & Hc' & _ & _ & Hzero).
           rewrite Hrun'. intros [= <- <- <-].
           destruct (nonempty_parts rest) as [|n].
           ++ rewrite Hzero by reflexivity. cbn. lia.
           ++ lia.
        -- destruct (create_segment_run e id2 part next_path w')
             as (w'' & t' & Hrun' & Hc' & _).
           rewrite Hrun'. rewrite app_nil_r. intros [= <- <- <-].
           assert (created t <> 1).
           { intros Heq. destruct (Hin Heq) as [? ?]. congruence. }
           lia.
Qed.

Lemma ensure_directory_run e rel_path w :
  exists ok w' t,
    _ensure_directory e rel_path w = (Ok ok, w', t)
    /\ created t <= 1
    /\ (ok = true -> w' = w /\ t = [])
    /\ (length (segments rel_path) = 0 -> t = []).
Proof.
  unfold _ensure_directory, bind, get. cbn.
  destruct (path_map w !! _) as [a|].
  - exists true, w, []. repeat split; auto.
  - destruct (ensure_walk_run e (path_parts_of (with_trailing_slash rel_path))
                (dest_path e) 0%Z w)
      as (ok & w' & t & Hrun & Hc & _ & Hpure & Hzero).
    rewrite Hrun. exists ok, w', t. repeat split; auto; tauto.
Qed.

End Walk.

(* ===================================================================== *)
(** * Facts: [_sync_file] never reports success *)
(* ===================================================================== *)

Section SyncFileFails.
Context {H : Host}.

Lemma not_true_ret_false : not_true (ret false).
Proof. intros w r w' t [= <- _ _]. discriminate. Qed.

Lemma not_true_bind {A} (m : M A) (k : A -> M bool) :
  (forall a, not_true (k a)) -> not_true (bind m k).
Proof.
  intros Hk w r w' t. unfold bind.
  destruct (m w) as [[[a|x] w1] t1].
  - destruct (k a w1) as [[r2 w2] t2] eqn:Hka. intros [= <- _ _].
    exact (Hk a _ _ _ _ Hka).
  - intros [= <- _ _]. discriminate.
Qed.

Lemma not_true_after_raise {A} (m : M A) (k : A -> M bool) :
  (forall w, exists x w' t, m w = (Raise x, w', t)) -> not_true (bind m k).
Proof.
  intros Hm w r w' t. unfold bind.
  destruct (Hm w) as (x & w1 & t1 & ->). intros [= <- _ _]. discriminate.
Qed.

Lemma not_true_try_except (m : M bool) (h : exn -> M bool) :
  not_true m -> (forall x, not_true (h x)) -> not_true (try_except m h).
Proof.
  intros Hm Hh w r w' t. unfold try_except.
  destruct (m w) as [[[a|x] w1] t1] eqn:Hmw.
  - intros [= <- _ _]. exact (Hm _ _ _ _ Hmw).
  - destruct (isinstance x [Exception]).
    + destruct (h x w1) as [[r2 w2] t2] eqn:Hhx. intros [= <- _ _].
      exact (Hh x _ _ _ _ Hhx).
    + intros [= <- _ _]. discriminate.
Qed.

Ltac nt :=
  repeat first
    [ apply not_true_ret_false
    | apply not_true_after_raise; intros ?; rewrite load_global_IDEntry; eauto
    | apply not_true_bind; intros ?
    | match goal with
      | |- not_true (match ?x with _ => _ end) => destruct x
      | |- not_true (if ?x then _ else _) => destruct x
      end ].

Lemma upload_and_register_not_true e rel_path source_path parent_node parent_id :
  not_true (upload_and_register e rel_path source_path parent_node parent_id).
Proof.
  unfold upload_and_register. apply not_true_try_except; [|intros x]; nt.
Qed.

Lemma sync_file_not_true e rel_path : not_true (_sync_file e rel_path).
Proof.
  unfold _sync_file. nt; apply upload_and_register_not_true.
Qed.

(** [_sync_file] always reports a failure. *)
Lemma sync_file_fails e rel_path w :
  exists w' t, _sync_file e rel_path w = (Ok false, w', t) /\ Forall not_entry t.
Proof.
  destruct (sync_file_total e rel_path w) as (ok & w' & t & Hrun & Hne).
  destruct ok; [|eauto].
  now destruct (sync_file_not_true e rel_path _ _ _ _ Hrun).
Qed.

End SyncFileFails.

Section FilesFail.
Context {H : Host}.

Lemma phase_files_all_fail e (items : Plan) : forall failed w r w' t,
  phase_files e items failed w = (r, w', t) ->
  failed_of t = file_entries items.
Proof.
  induction items as [|[p k] rest IH]; intros failed w r w' t.
  - intros [= _ _ <-]. reflexivity.
  - cbn [phase_files file_entries List.filter snd].
    destruct (String.eqb k "file") eqn:Hk; [|apply IH].
    destruct (sync_file_fails e p w) as (w1 & t1 & Hrun & Hne).
    destruct (no_entries _ Hne) as [_ Hf].
    unfold bind at 1. rewrite Hrun. unfold bind at 1. unfold emit at 1.
    destruct (phase_files e rest (Dict.set p k failed) w1) as [[r2 w2] t2] eqn:Hrest.
    intros [= _ _ <-]. rewrite !failed_of_app, Hf. cbn.
    f_equal. exact (IH _ _ _ _ _ Hrest).
Qed.

Lemma record_failures_nonempty (l d : Plan) :
  d <> [] -> record_failures d l <> [].
Proof.
  revert d. induction l as [|[k v] l IH]; intros d Hd; [exact Hd|].
  apply IH. destruct d as [|[k' v'] d]; [contradiction|].
  cbn. destruct (String.eqb k' k); intros Heq; discriminate Heq.
Qed.

Lemma record_failures_nonempty' (l : Plan) : l <> [] -> record_failures [] l <> [].
Proof.
  destruct l as [|[k v] l]; [contradiction|]. intros _.
  change (record_failures [(k, v)] l <> []).
  apply record_failures_nonempty. discriminate.
Qed.

Lemma finish_reports_failure (failed : Plan) w w' t loc :
  failed <> [] -> finish failed w <> (Ok (true, loc), w', t).
Proof.
  destruct failed as [|kv failed]; [contradiction|]. intros _.
  unfold finish, uuid4, save_plan, open_write, bind, get, modify, ret, raise.
  cbn. destruct (host w !! _) as [[c rd|sz]|]; cbn; intros Heq; discriminate Heq.
Qed.

(** A plan with a file entry is never executed with success. *)
Lemma run_plan_with_file_fails e (plan : Plan) w w' t loc :
  file_entries plan <> [] ->
  run_plan e plan w <> (Ok (true, loc), w', t).
Proof.
  intros Hfiles. unfold run_plan, bind at 1.
  destruct (phases_run e plan w) as (w2 & t2 & Hph & _).
  rewrite Hph.
  destruct (finish _ w2) as [[r3 w3] t3] eqn:Hfin.
  intros [= -> -> _].
  revert Hfin. apply finish_reports_failure, record_failures_nonempty'.
  unfold phases, bind in Hph.
  destruct (phase_dirs e plan [] w) as [[[f1|x] w1] t1]; [|discriminate].
  destruct (phase_files e plan f1 w1) as [[r2 w2'] t2'] eqn:Hpf.
  injection Hph as _ _ <-.
  rewrite failed_of_app, (phase_files_all_fail _ _ _ _ _ _ _ Hpf).
  intros Heq. apply app_eq_nil in Heq as [_ Heq]. contradiction.
Qed.

End FilesFail.

(* ===================================================================== *)
(** * The retry policy (C7, C10) *)
(* ===================================================================== *)

Section RetryPolicy.
Context {H : Host}.

(** The wrapper meets the retry contract, within its budget. *)
Lemma with_retry_spec {T} (N : Z) (b : Q) (excs : list pyclass) (name : string)
    (func : M T) (w : World) :
  (0 <= N)%Z ->
  exists n : nat,
    (Z.of_nat n <= N + 1)%Z
    /\ retry_spec N b excs name func n 0 w (with_retry N b excs name func w).
Proof.
  intros HN.
  destruct (wrapper_loop_spec N b excs name func (retry_fuel N) 0%Z None w)
    as (n & out & Hrun & Hspec & Hn); [lia | unfold retry_fuel; f_equal; lia |].
  exists n. unfold with_retry. rewrite Hrun. split; [|exact Hspec].
  unfold retry_fuel in Hn. lia.
Qed.


(** X15. A negative budget: the operation is not invoked and the
    wrapper raises the [RuntimeError] of line 66. *)
Lemma with_retry_negative_budget {T} (N : Z) (b : Q) (excs : list pyclass)
    (name : string) (func : M T) (w : World) :
  (N < 0)%Z ->
  with_retry N b excs name func w
  = (Raise (mk_exn RuntimeError "Unexpected error in retry mechanism"), w, []).
Proof.
  intros HN. unfold with_retry, retry_fuel.
  replace (Z.to_nat (N + 1)) with 0 by lia. cbn [wrapper_loop].
  destruct (Z.leb_spec 0 N); [lia | reflexivity].
Qed.

Lemma default_exceptions_all (x : exn) :
  issubclass (exn_class x) Exception = true ->
  isinstance x default_exceptions = true.
Proof. intros Hx. unfold isinstance, default_exceptions. cbn. now rewrite Hx. Qed.

(** An operation that raises nothing but exceptions and is wrapped with
    the defaults gives up only after its fourth attempt. *)
Lemma default_retry_exhausts {T} (name : string) (func : M T) w x w' t :
  holds anything any_event is_exception func ->
  with_retry 3 RETRY_BACKOFF_FACTOR default_exceptions name func w = (Raise x, w', t) ->
  retry_spec 3 RETRY_BACKOFF_FACTOR default_exceptions name func 4 0 w (Raise x, w', t).
Proof.
  intros Hf Hrun.
  destruct (with_retry_spec 3 RETRY_BACKOFF_FACTOR default_exceptions name func w)
    as (n & Hn & Hspec); [lia|].
  rewrite Hrun in Hspec.
  enough (n = 4) as <- by exact Hspec.
  pose proof (retry_spec_raise_exhausts _ _ _ _ _ _ _ _ _ _ _ Hspec) as Hex.
  enough (Z.of_nat n = 4%Z) by lia. apply Hex; [lia|].
  intros w0 y w1 t1 Hy. exact (proj2 (proj2 (Hf _ _ _ _ Hy))).
Qed.

Ltac trivial_frame :=
  unfold anything, any_event; intros; exact I.

Lemma download_body_exceptions file_id target_path :
  holds anything any_event is_exception (download_body file_id target_path).
Proof.
  apply holds_download_body; try trivial_frame. intros x Hx; exact Hx.
Qed.

Lemma upload_body_exceptions source_path parent_id filename :
  holds anything any_event is_exception (upload_body source_path parent_id filename).
Proof.
  apply holds_upload_body; try trivial_frame. intros x Hx; exact Hx.
Qed.

Lemma mkdir_body_exceptions parent_id folder_name sid :
  holds anything any_event is_exception (mkdir_body parent_id folder_name sid).
Proof.
  apply holds_mkdir_body; try trivial_frame. intros x Hx; exact Hx.
Qed.

Lemma download_body_absent file_id target_path w :
  device w = true -> id_map w !! file_id = None ->
  download_body file_id target_path w
  = (Raise (mk_exn ValueError ("File ID " +:+ pretty file_id +:+ " not found")),
     w, []).
Proof.
  intros Hd Hi. unfold download_body, bind, get. cbn. rewrite Hd, Hi. reflexivity.
Qed.

Lemma wrapper_loop_again {T} N b excs name (func : M T) fuel k last w x :
  func w = (Raise x, w, []) -> isinstance x excs = true ->
  (k + 1 <= N)%Z ->
  let delay := (Qpower b (k + 1) + random_uniform (rng_pos w))%Q in
  wrapper_loop N b excs name func (S fuel) k last w
  = prepend [EvAttempt name; EvLog (LogRetry (k + 1) N name x delay); EvSleep delay]
      (wrapper_loop N b excs name func fuel (k + 1) (Some x)
         (set_rng_pos (S (rng_pos w)) w)).
Proof.
  intros Hf Hx Hk delay. cbn [wrapper_loop].
  destruct (Z.leb_spec k N); [|lia].
  rewrite emit_bind, Hf, Hx.
  destruct (Z.gtb_spec (k + 1) N); [lia|]. reflexivity.
Qed.

Lemma wrapper_loop_last {T} N b excs name (func : M T) fuel k last w x :
  func w = (Raise x, w, []) -> isinstance x excs = true ->
  (k <= N < k + 1)%Z ->
  wrapper_loop N b excs name func (S fuel) k last w
  = Some (Raise x, w, [EvAttempt name; EvLog (LogMaxRetries N name)]).
Proof.
  intros Hf Hx Hk. cbn [wrapper_loop].
  destruct (Z.leb_spec k N); [|lia].
  rewrite emit_bind, Hf, Hx.
  destruct (Z.gtb_spec (k + 1) N); [|lia]. reflexivity.
Qed.

Lemma download_absent file_id target_path w :
  device w = true -> id_map w !! file_id = None ->
  download file_id target_path w
  = (Raise (mk_exn ValueError ("File ID " +:+ pretty file_id +:+ " not found")),
     set_rng_pos (3 + rng_pos w) w,
     absent_download_events file_id (rng_pos w)).
Proof.
  intros Hd Hi. unfold download, with_retry.
  change (retry_fuel 3) with 4.
  set (x := mk_exn ValueError ("File ID " +:+ pretty file_id +:+ " not found")).
  set (func := download_body file_id target_path).
  assert (Hx : isinstance x default_exceptions = true) by reflexivity.
  assert (Hf : forall w0, device w0 = true -> id_map w0 !! file_id = None ->
                          func w0 = (Raise x, w0, []))
    by (intros; now apply download_body_absent).
  pose proof (wrapper_loop_again 3 RETRY_BACKOFF_FACTOR default_exceptions
                "download" func 3 0%Z None w x (Hf w Hd Hi) Hx) as H1.
  set (w1 := set_rng_pos (S (rng_pos w)) w) in *.
  pose proof (wrapper_loop_again 3 RETRY_BACKOFF_FACTOR default_exceptions
                "download" func 2 1%Z (Some x) w1 x (Hf w1 Hd Hi) Hx) as H2.
  set (w2 := set_rng_pos (S (rng_pos w1)) w1) in *.
  pose proof (wrapper_loop_again 3 RETRY_BACKOFF_FACTOR default_exceptions
                "download" func 1 2%Z (Some x) w2 x (Hf w2 Hd Hi) Hx) as H3.
  set (w3 := set_rng_pos (S (rng_pos w2)) w2) in *.
  pose proof (wrapper_loop_last 3 RETRY_BACKOFF_FACTOR default_exceptions
                "download" func 0 3%Z (Some x) w3 x (Hf w3 Hd Hi) Hx) as H4.
  cbv zeta in H1, H2, H3.
  rewrite H1 by lia. change (0 + 1)%Z with 1%Z.
  rewrite H2 by lia. change (1 + 1)%Z with 2%Z.
  rewrite H3 by lia. change (2 + 1)%Z with 3%Z.
  rewrite H4 by lia.
  unfold absent_download_events.
  replace (rng_pos w + 2 - 1) with (S (rng_pos w)) by lia.
  replace (rng_pos w + 3 - 1) with (S (S (rng_pos w))) by lia.
  replace (rng_pos w + 1 - 1) with (rng_pos w) by lia.
  reflexivity.
Qed.

(** C10. The default retryable set, [(Exception,)], takes in every
    exception class derived from [Exception]; [download], [upload] and
    [mkdir] are wrapped with it and a budget of 3, so that whenever one
    of them raises, it has made all four attempts; in particular the
    download of an id that is absent from [id_map], which cannot
    succeed, is attempted four times, with three sleeps, before its
    [ValueError] comes out, and never reaches the library. *)
Theorem device_operations_retry_every_failure :
  (forall x, issubclass (exn_class x) Exception = true ->
             isinstance x default_exceptions = true)
  /\ (forall file_id target_path w x w' t,
        download file_id target_path w = (Raise x, w', t) ->
        retry_spec 3 RETRY_BACKOFF_FACTOR default_exceptions "download"
          (download_body file_id target_path) 4 0 w (Raise x, w', t))
  /\ (forall source_path parent_id filename w x w' t,
        upload source_path parent_id filename w = (Raise x, w', t) ->
        retry_spec 3 RETRY_BACKOFF_FACTOR default_exceptions "upload"
          (upload_body source_path parent_id filename) 4 0 w (Raise x, w', t))
  /\ (forall parent_id folder_name sid w x w' t,
        mkdir parent_id folder_name sid w = (Raise x, w', t) ->
        retry_spec 3 RETRY_BACKOFF_FACTOR default_exceptions "mkdir"
          (mkdir_body parent_id folder_name sid) 4 0 w (Raise x, w', t))
  /\ (forall file_id target_path w,
        device w = true -> id_map w !! file_id = None ->
        let out := download file_id target_path w in
        result_of out
        = Raise (mk_exn ValueError ("File ID " +:+ pretty file_id +:+ " not found"))
        /\ attempts_of "download" (events_of out) = 4
        /\ length (sleeps_of (events_of out)) = 3
        /\ device_calls (events_of out) = []).
Proof.
  split; [exact default_exceptions_all|].
  split; [intros; apply default_retry_exhausts;
          [apply download_body_exceptions | assumption]|].
  split; [intros; apply default_retry_exhausts;
          [apply upload_body_exceptions | assumption]|].
  split; [intros; apply default_retry_exhausts;
          [apply mkdir_body_exceptions | assumption]|].
  intros file_id target_path w Hd Hi. cbv zeta.
  rewrite (download_absent _ _ _ Hd Hi). repeat split.
Qed.

End RetryPolicy.

(* ===================================================================== *)
(** * The plan store (C8) *)
(* ===================================================================== *)

Section PlanStore.
Context {H : Host}.

Lemma save_plan_run (plan : Plan) (plan_path : string) (w : World) :
  can_hold_plan (host w !! plan_path) = true ->
  exists w',
    save_plan plan_path plan w = (Ok tt, w', [])
    /\ host w' !! plan_path = Some (HostFile (Json.dumps plan) true).
Proof.
  intros Hfree. unfold save_plan, open_write, bind, get, modify. cbn.
  destruct (host w !! plan_path) as [[c rd|sz]|]; cbn in *; try discriminate.
  - subst rd. eexists. split; [reflexivity|]. cbn. apply lookup_insert_eq.
  - eexists. split; [reflexivity|]. cbn. apply lookup_insert_eq.
Qed.

(** C8. For every plan (a dictionary from relative paths to entry
    types) and every place that can hold it, what [verify] writes there
    (lines 99-101) is read back by [execute] (lines 124-126) as the same
    plan: same keys, same values, same order. *)
Theorem plan_round_trip (plan : Plan) (plan_path : string) (w : World) :
  Dict.wf plan = true ->
  can_hold_plan (host w !! plan_path) = true ->
  exists w',
    save_plan plan_path plan w = (Ok tt, w', [])
    /\ load_plan plan_path w' = Some (Ok plan, w', []).
Proof.
  intros Hwf Hfree.
  destruct (save_plan_run plan plan_path w Hfree) as (w' & Hsave & Hfile).
  exists w'. split; [exact Hsave|]. now apply load_saved.
Qed.

End PlanStore.

(* ===================================================================== *)
(** * The diff (C9) *)
(* ===================================================================== *)

Section Diff.
Context {H : Host}.

Lemma same_index_trans a b c : same_index a b -> same_index b c -> same_index a c.
Proof.
  intros (H1 & H2 & H3) (H4 & H5 & H6). repeat split; congruence.
Qed.

(** C9. [verify] leaves the remote index as it found it: after the
    call, in size-only and in checksum mode alike and whether it returns
    or raises, [path_map] and [id_map] and the node objects they refer
    to are what they were. *)
Theorem verify_keeps_index (e : SyncEngine) (plan_path : option string) (w : World) :
  let w' := world_of (verify e plan_path w) in
  path_map w' = path_map w /\ id_map w' = id_map w /\ heap w' = heap w.
Proof.
  assert (Hv : holds same_index any_event (fun _ => True) (verify e plan_path)).
  { apply holds_verify; unfold any_event, exc_ok; intros;
      try exact I; try (repeat split; reflexivity).
    eapply same_index_trans; eassumption. }
  destruct (verify e plan_path w) as [[r w'] t] eqn:Hrun.
  exact (proj1 (Hv w r w' t Hrun)).
Qed.

(** The executor never writes the id index: the only two statements
    that do (lines 302 and 383) come after the lookup of [IDEntry]. *)
Lemma sync_file_keeps_id_map (e : SyncEngine) (rel_path : string) (w : World) :
  id_map (world_of (_sync_file e rel_path w)) = id_map w.
Proof.
  assert (Hs : holds same_id_map any_event (fun _ => True) (_sync_file e rel_path)).
  { apply holds_sync_file; unfold same_id_map, any_event; intros;
      try exact I; try reflexivity. congruence. }
  destruct (_sync_file e rel_path w) as [[r w'] t] eqn:Hrun.
  exact (proj1 (Hs w r w' t Hrun)).
Qed.

Lemma ensure_directory_keeps_id_map (e : SyncEngine) (rel_path : string) (w : World) :
  id_map (world_of (_ensure_directory e rel_path w)) = id_map w.
Proof.
  assert (Hs : holds same_id_map any_event (fun _ => True)
                 (_ensure_directory e rel_path)).
  { apply holds_ensure_directory; unfold same_id_map, any_event; intros;
      try exact I; try reflexivity. congruence. }
  destruct (_ensure_directory e rel_path w) as [[r w'] t] eqn:Hrun.
  exact (proj1 (Hs w r w' t Hrun)).
Qed.

(** X7. [execute] never writes the id index: whatever the plan and
    however the run ends, [id_map] is afterwards what it was before. *)
Lemma execute_keeps_id_map (e : SyncEngine) (plan_path : option string)
    (w : World) r w' t :
  execute e plan_path w = Some (r, w', t) -> id_map w' = id_map w.
Proof.
  intros Hrun.
  eapply (holds_execute same_id_map any_event) with (E := fun _ => True);
    [..|exact Hrun];
    unfold same_id_map, any_event, exc_ok; intros; try exact I; try reflexivity.
  congruence.
Qed.

End Diff.

(* ===================================================================== *)
(** * The executor (C4) *)
(* ===================================================================== *)

Section Executor.
Context {H : Host}.


Lemma ensure_directory_unfold (e : SyncEngine) (rel_path : string) (w : World) :
  _ensure_directory e rel_path w
  = match path_map w !! PosixPath.normpath
            (dest_path e +:+ "/" +:+ with_trailing_slash rel_path) with
    | Some _ => (Ok true, w, [])
    | None =>
        ensure_walk e (path_parts_of (with_trailing_slash rel_path))
          (dest_path e) 0 w
    end.
Proof.
  unfold _ensure_directory, bind, get. cbn.
  destruct (path_map w !! _); [reflexivity|].
  destruct (ensure_walk _ _ _ _ _) as [[r w'] t]. reflexivity.
Qed.

(** Two calls of [_ensure_directory] on the same relative path carry
    out, together, at most one folder creation on the device for each
    segment of the path; and if the first call returns success, the
    second returns success too, calls nothing and changes nothing. *)
Theorem ensure_directory_twice (e : SyncEngine) (rel_path : string) (w : World) :
  let first := _ensure_directory e rel_path w in
  let second := _ensure_directory e rel_path (world_of first) in
  created (events_of first) + created (events_of second)
    <= length (segments rel_path)
  /\ (result_of first = Ok true -> second = (Ok true, world_of first, [])).
Proof.
  cbv zeta.
  destruct (ensure_directory_run e rel_path w)
    as (ok1 & w1 & t1 & Hrun1 & Hc1 & Hpure1 & Hzero1).
  rewrite Hrun1. cbn [world_of events_of result_of fst snd].
  destruct (ensure_directory_run e rel_path w1)
    as (ok2 & w2 & t2 & Hrun2 & Hc2 & Hpure2 & Hzero2).
  split.
  - rewrite Hrun2. cbn [events_of snd].
    pose proof Hrun1 as Hone. pose proof Hrun2 as Htwo.
    rewrite ensure_directory_unfold in Hone, Htwo.
    destruct (path_map w !! _) as [a|].
    + injection Hone as <- <- <-.
      rewrite Hrun1 in Hrun2. injection Hrun2 as <- <- <-. cbn. lia.
    + destruct (path_map w1 !! _) as [a|].
      * injection Htwo as _ _ <-.
        destruct (length (segments rel_path)) as [|n] eqn:Hlen.
        -- rewrite (Hzero1 eq_refl). cbn. lia.
        -- cbn. lia.
      * exact (ensure_walk_twice e _ _ _ _ _ _ _ _ _ _ _ Hone Htwo).
  - intros [= ->]. destruct (Hpure1 eq_refl) as [-> ->]. exact Hrun1.
Qed.

End Executor.

(* ===================================================================== *)
(** * The engine on concrete inputs *)
(* ===================================================================== *)

(** C1. Two runs in which the plan of a [verify] that follows an
    [execute] is not empty.

    (i) The destination is given as [/d/] and the source holds the
    directory [sub].  [verify] plans [sub/]; a first [execute] creates
    the folder, records it under [/d//sub] and reports a failure
    ([IDEntry] is unbound); [verify] plans [sub/] again; the second
    [execute] finds [/d//sub] and returns [(True, None)]; and [verify],
    which looks for [/d/sub], plans [sub/] once more.

    (ii) The destination is [/d] and the source holds the file [a.txt].
    [verify] plans [a.txt]; [execute] sends the file to the device and
    reports a failure all the same; [path_map] has not learnt of the
    file, and [verify] plans [a.txt] again. *)
Theorem verify_after_execute_not_empty :
  (let run_verify := verify (H := host_sub) engine_slash (Some plan_file) in
   let run_execute := execute (H := host_sub) engine_slash (Some plan_file) in
   let planned w := host (H := host_sub) w !! plan_file in
   exists w1 t1 w2 t2,
     planned (world_of (run_verify world_sub))
     = Some (HostFile (Json.dumps [("sub/", "dir")]) true)
     /\ run_execute (world_of (run_verify world_sub))
        = Some (Ok (false, Some "/app/data/.execution_retry/token0.json"), w1, t1)
     /\ planned (world_of (run_verify w1))
        = Some (HostFile (Json.dumps [("sub/", "dir")]) true)
     /\ run_execute (world_of (run_verify w1)) = Some (Ok (true, None), w2, t2)
     /\ planned (world_of (run_verify w2))
        = Some (HostFile (Json.dumps [("sub/", "dir")]) true)
     /\ Json.dumps [("sub/", "dir")] <> Json.dumps [])
  /\
  (let run_verify := verify (H := host_a) engine_size (Some plan_file) in
   let run_execute := execute (H := host_a) engine_size (Some plan_file) in
   let planned w := host (H := host_a) w !! plan_file in
   exists w1 t1,
     planned (world_of (run_verify world_a))
     = Some (HostFile (Json.dumps [("a.txt", "file")]) true)
     /\ run_execute (world_of (run_verify world_a))
        = Some (Ok (false, Some "/app/data/.execution_retry/token0.json"), w1, t1)
     /\ device_calls t1 = [EvSendFile "/src/a.txt" 1 "a.txt" 5 0 100]
     /\ path_map w1 !! "/d/a.txt" = None
     /\ planned (world_of (run_verify w1))
        = Some (HostFile (Json.dumps [("a.txt", "file")]) true)).
Proof.
  split; cbv zeta.
  - eexists _, _, _, _.
    split; [vm_compute; reflexivity|].
    split; [vm_compute; reflexivity|].
    split; [vm_compute; reflexivity|].
    split; [vm_compute; reflexivity|].
    split; [vm_compute; reflexivity|].
    vm_compute. discriminate.
  - eexists _, _.
    split; [vm_compute; reflexivity|].
    split; [vm_compute; reflexivity|].
    split; [vm_compute; reflexivity|].
    split; vm_compute; reflexivity.
Qed.

(** The source holds [a.txt] and the destination root is in the
    index.  The device takes the file (id 100), and [_sync_file] still
    reports a failure: the new node is a child of the root and an
    object of the heap, but [id_map] has no entry for id 100 and
    [path_map] none for [/d/a.txt]. *)
Theorem sync_file_leaves_index_without_file :
  let out := _sync_file (H := host_a) engine_size "a.txt" world_a in
  let w' := world_of out in
  result_of out = Ok false
  /\ device_calls (events_of out) = [EvSendFile "/src/a.txt" 1 "a.txt" 5 0 100]
  /\ id_map w' !! 100%Z = None
  /\ path_map w' !! "/d/a.txt" = None
  /\ heap w' !! 0 = Some (FolderNode 1 {[ "a.txt" := 1 ]})
  /\ heap w' !! 1 = Some (FileNode 100 5).
Proof. vm_compute. repeat split. Qed.

(** C5. Checksum mode; [a.txt] is on the device and in the index; the
    source file cannot be opened.  The comparison downloads the remote
    file to [/tmp/mtpsync/a.txt], fails to read the source, logs the
    error and answers "not equal"; the scratch file is still there. *)
Theorem compare_file_leaves_scratch_on_error :
  let out :=
    _compare_file (H := host_a) engine_checksum "a.txt" "/d/a.txt"
      (world_synced false) in
  result_of out = Ok false
  /\ events_of out
     = [ EvAttempt "download"; EvGetFile 7 "/tmp/mtpsync/a.txt" 0;
         EvLog (LogCompareError "a.txt" (mk_exn PermissionError "/src/a.txt")) ]
  /\ host (world_synced false) !! "/tmp/mtpsync/a.txt" = None
  /\ host (world_of out) !! "/tmp/mtpsync/a.txt" = Some (HostFile "hello" true).
Proof. vm_compute. repeat split. Qed.

(** When the source can be read, the scratch file is deleted. *)
Example compare_file_deletes_scratch :
  let out :=
    _compare_file (H := host_a) engine_checksum "a.txt" "/d/a.txt"
      (world_synced true) in
  result_of out = Ok true
  /\ host (world_of out) !! "/tmp/mtpsync/a.txt" = None.
Proof. vm_compute. repeat split. Qed.

(** The device refuses to create [locked]: the first call gives up
    after four attempts, and the second call asks the device four more
    times and fails too. *)
Lemma ensure_directory_second_call_not_noop :
  let first := _ensure_directory (H := host_a) engine_size "locked/" world_a in
  let second :=
    _ensure_directory (H := host_a) engine_size "locked/" (world_of first) in
  result_of second = Ok false
  /\ length (device_calls (events_of second)) = 4
  /\ ~ (result_of second = Ok true /\ device_calls (events_of second) = []).
Proof.
  vm_compute. repeat split. intros [Habs _]. discriminate Habs.
Qed.

(** C6. The device creates every folder it is asked for, and
    [_ensure_directory] is called on [a/b/].  The first call creates
    [a], records it in [path_map] and stops with a failure: [IDEntry]
    is unbound at line 302.  The second call is no no-op: it finds [a],
    has the device create [b] and stops with a failure in the same way.
    Only the third call finds the whole path and returns [True] without
    a device call. *)
Example ensure_directory_two_segments :
  let first := _ensure_directory (H := host_a) engine_size "a/b/" world_a in
  let second :=
    _ensure_directory (H := host_a) engine_size "a/b/" (world_of first) in
  let third :=
    _ensure_directory (H := host_a) engine_size "a/b/" (world_of second) in
  result_of first = Ok false
  /\ device_calls (events_of first) = [EvCreateFolder "a" 0 0 100]
  /\ path_map (world_of first) !! "/d/a" = Some 1
  /\ id_map (world_of first) !! 100%Z = None
  /\ result_of second = Ok false
  /\ device_calls (events_of second) = [EvCreateFolder "b" 100 0 101]
  /\ third = (Ok true, world_of second, []).
Proof. vm_compute. repeat split. Qed.

Lemma ensure_directory_twice_witness :
  result_of (_ensure_directory (H := host_a) engine_size "" world_a) = Ok true
  /\ _ensure_directory (H := host_a) engine_size ""
       (world_of (_ensure_directory (H := host_a) engine_size "" world_a))
     = (Ok true, world_of (_ensure_directory (H := host_a) engine_size "" world_a), []).
Proof.
  split; [reflexivity|].
  apply (proj2 (ensure_directory_twice (H := host_a) engine_size "" world_a)).
  reflexivity.
Defined.


Lemma device_operations_retry_every_failure_witness :
  device world_a = true
  /\ id_map world_a !! 5%Z = None
  /\ (let out := download (H := host_a) 5 None world_a in
      result_of out = Raise (mk_exn ValueError "File ID 5 not found")
      /\ attempts_of "download" (events_of out) = 4
      /\ length (sleeps_of (events_of out)) = 3
      /\ device_calls (events_of out) = []).
Proof.
  split; [reflexivity|]. split; [reflexivity|].
  apply (proj2 (proj2 (proj2 (proj2
           (device_operations_retry_every_failure (H := host_a))))));
    reflexivity.
Defined.

Lemma plan_round_trip_witness :
  Dict.wf plan_a = true
  /\ can_hold_plan (host world_a !! plan_file) = true
  /\ exists w',
       save_plan (H := host_a) plan_file plan_a world_a = (Ok tt, w', [])
       /\ load_plan plan_file w' = Some (Ok plan_a, w', []).
Proof.
  split; [reflexivity|]. split; [reflexivity|].
  apply (plan_round_trip (H := host_a) plan_a plan_file world_a); reflexivity.
Defined.


(** What this run gives: the directory is created and
    still reported as failed, the file is sent and still reported as
    failed, and the retry plan holds both. *)
Example execute_plan_a :
  exists w' t,
    execute (H := host_a) engine_size (Some plan_file) world_planned
    = Some (Ok (false, Some "/app/data/.execution_retry/token0.json"), w', t)
    /\ entries_of t = [("sub/", "dir", false); ("a.txt", "file", false)]
    /\ load_plan "/app/data/.execution_retry/token0.json" w'
       = Some (Ok [("sub/", "dir"); ("a.txt", "file")], w', []).
Proof.
  eexists _, _. split; [vm_compute; reflexivity|].
  split; vm_compute; reflexivity.
Qed.

Example normpath_double_slash : PosixPath.normpath "/d//sub/" = "/d/sub".
Proof. reflexivity. Qed.
Example normpath_two_leading : PosixPath.normpath "//sub/" = "//sub".
Proof. reflexivity. Qed.
Example normpath_dotdot : PosixPath.normpath "/d/a/../b/" = "/d/b".
Proof. reflexivity. Qed.
Example dirname_nested : PosixPath.dirname "sub/nested/f.txt" = "sub/nested".
Proof. reflexivity. Qed.
Example dirname_top : PosixPath.dirname "f.txt" = "".
Proof. reflexivity. Qed.
Example split_trailing : Str.split "/" "a/b/" = ["a"; "b"; ""].
Proof. reflexivity. Qed.
Example loads_dumps_plan_a : Json.loads (Json.dumps plan_a) = Json.Loaded plan_a.
Proof. reflexivity. Qed.
Example loads_rejects_trailing_comma :
  Json.loads ("{" +:+ Json.encode_str "a" +:+ ": " +:+ Json.encode_str "b" +:+ ",}")
  = Json.Malformed.
Proof. reflexivity. Qed.

(* ===================================================================== *)
(** * The executor, beyond the claims *)
(* ===================================================================== *)

Section ExecutorMore.
Context {H : Host}.

(** X1. A plan that cannot be read stops [execute] before anything is
    done: a missing file raises [FileNotFoundError], a document that is
    not JSON raises [JSONDecodeError]; the world is untouched and no
    event has happened. *)
Theorem execute_unreadable_plan (e : SyncEngine) (p : string) (w : World) :
  (host w !! p = None ->
   execute e (Some p) w = Some (Raise (mk_exn FileNotFoundError p), w, []))
  /\ (forall text,
        host w !! p = Some (HostFile text true) ->
        Json.loads text = Json.Malformed ->
        execute e (Some p) w = Some (Raise (mk_exn JSONDecodeError text), w, [])).
Proof.
  split.
  - intros Hp. unfold execute, find_plan, load_plan, open_read, ret, bind, get, raise.
    rewrite Hp. reflexivity.
  - intros text Hp Hl.
    unfold execute, find_plan, load_plan, open_read, ret, bind, get, raise.
    rewrite Hp. cbn. rewrite Hl. reflexivity.
Qed.

Lemma phase_dirs_skip e (items : Plan) : forall failed w,
  dir_entries items = [] -> phase_dirs e items failed w = (Ok failed, w, []).
Proof.
  induction items as [|[q k] rest IH]; intros failed w; [reflexivity|].
  cbn [phase_dirs dir_entries List.filter snd].
  destruct (String.eqb k "dir"); [discriminate|]. apply IH.
Qed.

Lemma phase_files_skip e (items : Plan) : forall failed w,
  file_entries items = [] -> phase_files e items failed w = (Ok failed, w, []).
Proof.
  induction items as [|[q k] rest IH]; intros failed w; [reflexivity|].
  cbn [phase_files file_entries List.filter snd].
  destruct (String.eqb k "file"); [discriminate|]. apply IH.
Qed.

Lemma filter_none {A} (f : A -> bool) (l : list A) :
  (forall x, In x l -> f x = false) -> List.filter f l = [].
Proof.
  induction l as [|x l IH]; intros Hf; [reflexivity|]. cbn.
  rewrite (Hf x) by now left. apply IH. intros y Hy. apply Hf. now right.
Qed.

(** X2. Entries whose kind is neither ["dir"] nor ["file"] are passed
    over in silence: a plan made of such entries only (the empty plan
    among them) is executed with success, [(True, None)], without a
    device call, an event or a change of the world. *)
Theorem execute_skips_other_kinds (e : SyncEngine) (p text : string)
    (plan : Plan) (w : World) :
  host w !! p = Some (HostFile text true) ->
  Json.loads text = Json.Loaded plan ->
  (forall q k, In (q, k) plan -> k <> "dir" /\ k <> "file") ->
  execute e (Some p) w = Some (Ok (true, None), w, []).
Proof.
  intros Hp Hl Hk. rewrite (execute_loaded e p text plan w Hp Hl).
  assert (Hd : dir_entries plan = []).
  { apply filter_none. intros [q k] Hin. cbn.
    destruct (String.eqb_spec k "dir") as [->|]; [|reflexivity].
    now destruct (Hk _ _ Hin). }
  assert (Hf : file_entries plan = []).
  { apply filter_none. intros [q k] Hin. cbn.
    destruct (String.eqb_spec k "file") as [->|]; [|reflexivity].
    now destruct (Hk _ _ Hin). }
  unfold run_plan, phases, bind.
  rewrite (phase_dirs_skip e plan [] w Hd), (phase_files_skip e plan [] w Hf).
  reflexivity.
Qed.

(** X3. Whatever the plan document, [execute] processes no path twice
    in a run: [json.load] keeps one entry per key, and the two loops
    take each entry at most once. *)
Theorem execute_each_path_once (e : SyncEngine) (p text : string)
    (plan : Plan) (w : World) :
  host w !! p = Some (HostFile text true) ->
  Json.loads text = Json.Loaded plan ->
  exists r w' t,
    execute e (Some p) w = Some (r, w', t)
    /\ List.NoDup (map (fun x => fst (fst x)) (entries_of t)).
Proof.
  intros Hp Hl. rewrite (execute_loaded e p text plan w Hp Hl).
  unfold run_plan, bind.
  destruct (phases_run e plan w) as (w2 & t2 & Hph & Hent). rewrite Hph.
  destruct (finish _ w2) as [[r3 w3] t3] eqn:Hfin.
  rewrite (finish_events _ _ _ _ _ Hfin), app_nil_r.
  eexists _, _, _. split; [reflexivity|].
  rewrite <- (map_map fst fst), Hent.
  apply by_kind_NoDup, dict_wf_NoDup, (loads_wf text), Hl.
Qed.

Lemma finish_failure_inv (failed : Plan) w loc w' t :
  finish failed w = (Ok (false, Some loc), w', t) ->
  failed <> []
  /\ exists r, host w' !! loc = Some (HostFile (Json.dumps failed) r)
               /\ (host w !! loc = None -> r = true).
Proof.
  destruct failed as [|kv failed]; [discriminate|].
  unfold finish, uuid4, save_plan, open_write, bind, get, modify, ret, raise.
  cbn. destruct (host w !! _) as [[c rd|sz]|] eqn:Hloc; cbn;
    intros [= <- <- <-]; (split; [easy|]).
  - exists rd. cbn. split; [apply lookup_insert_eq | intros Hn; congruence].
  - exists true. cbn. split; [apply lookup_insert_eq | reflexivity].
Qed.

(** X4. Executing the retry plan of a run processes the entries that
    failed in that run, the directories first, and no entry that
    succeeded. *)
Theorem execute_retry_runs_failures (e : SyncEngine) (p text : string)
    (plan : Plan) (w : World) loc w1 t1 :
  host w !! p = Some (HostFile text true) ->
  Json.loads text = Json.Loaded plan ->
  execute e (Some p) w = Some (Ok (false, Some loc), w1, t1) ->
  (forall c, host w1 !! loc <> Some (HostFile c false)) ->
  exists r2 w2 t2,
    execute e (Some loc) w1 = Some (r2, w2, t2)
    /\ map fst (entries_of t2)
       = dir_entries (failed_of t1) ++ file_entries (failed_of t1)
    /\ (forall q k, In (q, k, true) (entries_of t1) ->
                    ~ In q (map (fun x => fst (fst x)) (entries_of t2))).
Proof.
  intros Hp Hl Hrun Hread.
  rewrite (execute_loaded e p text plan w Hp Hl) in Hrun.
  injection Hrun as Hrun. unfold run_plan, bind in Hrun.
  destruct (phases_run e plan w) as (wa & ta & Hph & Hent). rewrite Hph in Hrun.
  destruct (finish _ wa) as [[r3 w3] t3] eqn:Hfin.
  injection Hrun as -> -> <-.
  rewrite (finish_events _ _ _ _ _ Hfin), app_nil_r.
  destruct (failures_exact plan ta (loads_wf _ _ Hl) Hent)
    as (Hrec & Hwf & _ & Hsucc).
  rewrite Hrec in Hfin.
  destruct (finish_failure_inv _ _ _ _ _ Hfin) as (_ & rd & Hloc & _).
  destruct rd; [|now destruct (Hread _ Hloc)].
  pose proof (loads_dumps _ Hwf) as Hld.
  rewrite (execute_loaded e loc _ _ w1 Hloc Hld).
  unfold run_plan, bind.
  destruct (phases_run e (failed_of ta) w1) as (w2 & t2 & Hph2 & Hent2).
  rewrite Hph2.
  destruct (finish _ w2) as [[r4 w4] t4] eqn:Hfin2.
  rewrite (finish_events _ _ _ _ _ Hfin2), app_nil_r.
  eexists _, _, _. split; [reflexivity|]. split; [exact Hent2|].
  intros q k Hin Hq.
  rewrite <- (map_map fst fst), Hent2 in Hq.
  apply in_map_iff in Hq as ([q' k'] & Hq' & Hq). cbn in Hq'. subst q'.
  apply by_kind_incl in Hq.
  pose proof (Hsucc q k Hin) as Hnone.
  assert (Hk : In q (Dict.keys (failed_of ta))).
  { apply in_map_iff. exists (q, k'). split; [reflexivity | exact Hq]. }
  revert Hk. clear -Hnone. induction (failed_of ta) as [|[a b] d IH]; cbn; [tauto|].
  cbn in Hnone. destruct (String.eqb_spec a q) as [->|Hne]; [discriminate|].
  intros [Ha|Hd]; [contradiction | auto].
Qed.


(** X9. [_ensure_directory] answers [True] only when it has found the
    whole path in the index: such a call changes nothing and calls
    nothing.  A call that creates a folder answers [False], and no call
    creates more than one. *)
Theorem ensure_directory_success_is_lookup (e : SyncEngine) (rel_path : string)
    (w : World) :
  exists ok w' t,
    _ensure_directory e rel_path w = (Ok ok, w', t)
    /\ created t <= 1
    /\ (ok = true -> w' = w /\ t = []).
Proof.
  destruct (ensure_directory_run e rel_path w) as (ok & w' & t & Hrun & Hc & Hp & _).
  eauto 6.
Qed.

End ExecutorMore.

Section IndexGrows.
Context {H : Host}.

Lemma index_grows_refl w : index_grows w w.
Proof. unfold index_grows. reflexivity. Qed.

Lemma index_grows_trans a b c : index_grows a b -> index_grows b c -> index_grows a c.
Proof. unfold index_grows. intros Hab Hbc. etrans; eassumption. Qed.

Lemma create_segment_path_map e current_id part next_path w r w' t :
  create_segment e current_id part next_path w = (r, w', t) ->
  path_map w' = path_map w
  \/ exists a, path_map w' = <[next_path := a]> (path_map w).
Proof.
  unfold create_segment, try_except.
  unfold bind at 1.
  destruct (mkdir current_id part (storage_id e) w) as [[[new_id|x] w1] t1] eqn:Hm;
    destruct (mkdir_creates _ _ _ _ _ _ _ Hm) as [_ Hp].
  - cbn.
    match goal with
    | |- context [if ?c then _ else _] =>
        assert (Hb : c = true) by reflexivity; rewrite Hb; clear Hb
    end.
    intros [= _ <- _]. right. cbn. rewrite Hp. eauto.
  - rewrite (mkdir_raises_exception _ _ _ _ _ _ _ Hm). cbn.
    intros [= _ <- _]. left. exact Hp.
Qed.

Lemma ensure_walk_grows e parts : forall current_path current_id w r w' t,
  ensure_walk e parts current_path current_id w = (r, w', t) ->
  index_grows w w'.
Proof.
  induction parts as [|part rest IH]; intros current_path current_id w r w' t.
  - intros [= _ <- _]. apply index_grows_refl.
  - destruct (Str.is_empty part) eqn:Hpart.
    + cbn [ensure_walk]. rewrite Hpart. apply IH.
    + rewrite ensure_walk_step by exact Hpart.
      destruct (path_map w !! _) as [a|] eqn:Hnext; [apply IH|].
      destruct (create_segment_run e current_id part
                  (current_path +:+ "/" +:+ part) w) as (w1 & t1 & Hrun & _).
      rewrite Hrun. intros [= _ <- _].
      destruct (create_segment_path_map _ _ _ _ _ _ _ _ Hrun) as [Heq|[a Heq]];
        unfold index_grows; rewrite Heq; [reflexivity|].
      now apply insert_subseteq.
Qed.

Lemma holds_ensure_directory_grows E e rel_path :
  holds index_grows any_event E (_ensure_directory e rel_path).
Proof.
  intros w r w' t Hrun.
  destruct (ensure_directory_total e rel_path w) as (ok & w1 & t1 & Hrun' & _).
  rewrite Hrun' in Hrun. injection Hrun as <- <- <-.
  split; [|split; [apply Forall_forall; intros; exact I | exact I]].
  revert Hrun'. unfold _ensure_directory, bind, get. cbn.
  destruct (path_map w !! _) as [a|].
  - intros [= _ <- _]. apply index_grows_refl.
  - destruct (ensure_walk _ _ _ _ _) as [[r2 w2] t2] eqn:Hw.
    intros [= _ <- _]. exact (ensure_walk_grows _ _ _ _ _ _ _ _ Hw).
Qed.

Ltac frame_side :=
  solve [ apply index_grows_refl
        | exact index_grows_trans
        | intros; apply index_grows_refl
        | intros; exact I
        | unfold exc_ok; intros; exact I
        | intros; unfold index_grows; cbn; reflexivity ].

Lemma holds_upload_and_register_grows E e rel_path source_path parent_node parent_id :
  holds index_grows any_event E
    (upload_and_register e rel_path source_path parent_node parent_id).
Proof. apply holds_upload_and_register; frame_side. Qed.

Ltac gstep :=
  first
    [ apply holds_ret; frame_side
    | apply holds_get; frame_side
    | apply holds_emit; frame_side
    | apply holds_ensure_directory_grows
    | apply holds_upload_and_register_grows
    | apply holds_bind; [exact index_grows_trans | | intros ? ]
    | match goal with
      | |- holds _ _ _ (match ?x with _ => _ end) => destruct x eqn:?
      | |- holds _ _ _ (if ?x then _ else _) => destruct x eqn:?
      end ].

Lemma holds_sync_file_grows E e rel_path :
  holds index_grows any_event E (_sync_file e rel_path).
Proof.
  unfold _sync_file, log.
  apply holds_bind; [exact index_grows_trans | | intros ex].
  { apply holds_path_exists; frame_side. }
  repeat gstep.
Qed.

Lemma holds_phase_dirs_grows E e items : forall failed,
  holds index_grows any_event E (phase_dirs e items failed).
Proof.
  induction items as [|[p k] rest IH]; intros failed; cbn [phase_dirs];
    repeat first [apply IH | gstep].
Qed.

Lemma holds_phase_files_grows E e items : forall failed,
  holds index_grows any_event E (phase_files e items failed).
Proof.
  induction items as [|[p k] rest IH]; intros failed; cbn [phase_files];
    repeat first [apply IH | apply holds_sync_file_grows | gstep].
Qed.

Lemma holds_finish_grows E failed : exc_ok E -> holds index_grows any_event E (finish failed).
Proof.
  intros HE. unfold finish, uuid4.
  destruct failed as [|kv failed]; [apply holds_ret; frame_side|].
  repeat first
    [ apply holds_save_plan; try frame_side; exact HE
    | apply holds_modify; frame_side
    | gstep ].
Qed.

Lemma holds_run_plan_grows E e plan :
  exc_ok E -> holds index_grows any_event E (run_plan e plan).
Proof.
  intros HE. unfold run_plan, phases.
  repeat first
    [ apply holds_phase_dirs_grows | apply holds_phase_files_grows
    | apply holds_finish_grows; exact HE | gstep ].
Qed.

(** X6. [execute] only adds to the path index: whatever the plan and
    however the run ends, every path that was in [path_map] is still
    there afterwards and refers to the same node object. *)
Theorem execute_keeps_paths (e : SyncEngine) (plan_path : option string)
    (w : World) r w' t :
  execute e plan_path w = Some (r, w', t) ->
  forall p a, path_map w !! p = Some a -> path_map w' !! p = Some a.
Proof.
  intros Hrun.
  enough (Hg : index_grows w w').
  { intros p a Hp. exact (lookup_weaken _ _ _ _ Hp Hg). }
  revert Hrun. unfold execute.
  assert (Hfp : holds index_grows any_event (fun _ => True) (find_plan e plan_path)).
  { apply holds_find_plan; try frame_side. }
  destruct (find_plan e plan_path w) as [[[p|x] w1] t1] eqn:Hf;
    destruct (Hfp _ _ _ _ Hf) as (HR1 & _);
    [|intros [= _ <- _]; exact HR1].
  unfold load_plan.
  assert (Hop : holds index_grows any_event (fun _ => True) (open_read p)).
  { apply holds_open_read; try frame_side. }
  destruct (open_read p w1) as [[[text|x] w2] t2] eqn:Ho;
    destruct (Hop _ _ _ _ Ho) as (HR2 & _);
    [|intros [= _ <- _]; eapply index_grows_trans; eassumption].
  destruct (Json.loads text) as [plan| |]; [| |discriminate].
  - destruct (run_plan e plan w2) as [[r3 w3] t3] eqn:Hr.
    assert (Hrp : holds index_grows any_event (fun _ => True) (run_plan e plan)).
    { apply holds_run_plan_grows. intros ? ?; exact I. }
    destruct (Hrp _ _ _ _ Hr) as (HR3 & _).
    intros [= _ <- _].
    eapply index_grows_trans; [|exact HR3].
    eapply index_grows_trans; eassumption.
  - intros [= _ <- _]. eapply index_grows_trans; eassumption.
Qed.

End IndexGrows.

Section NoSegment.
Context {H : Host}.

Lemma ensure_walk_no_segment e parts : forall current_path current_id w,
  nonempty_parts parts = 0 ->
  ensure_walk e parts current_path current_id w = (Ok true, w, []).
Proof.
  induction parts as [|part rest IH]; intros current_path current_id w Hn;
    [reflexivity|].
  unfold nonempty_parts in Hn. cbn [List.filter] in Hn.
  cbn [ensure_walk]. destruct (Str.is_empty part); [|discriminate].
  apply IH. exact Hn.
Qed.

(** X10. For a relative path without a segment (the empty path, ["/"],
    a run of slashes) [_ensure_directory] answers [True] without a
    device call and without a change, whether or not the destination
    root is in the path index: there is nothing it would create. *)
Theorem ensure_directory_no_segment (e : SyncEngine) (rel_path : string) (w : World) :
  segments rel_path = [] ->
  _ensure_directory e rel_path w = (Ok true, w, []).
Proof.
  intros Hseg. unfold _ensure_directory, bind, get. cbn.
  destruct (path_map w !! _); [reflexivity|].
  rewrite ensure_walk_no_segment; [reflexivity|].
  unfold nonempty_parts. unfold segments in Hseg. now rewrite Hseg.
Qed.

End NoSegment.

Section CallBounds.
Context {H : Host}.

Lemma device_calls_app t1 t2 :
  device_calls (t1 ++ t2) = device_calls t1 ++ device_calls t2.
Proof. apply List.filter_app. Qed.

Lemma at_most_weaken {A} a b (m : M A) : at_most a m -> a <= b -> at_most b m.
Proof. intros Hm Hab w r w' t Hrun. specialize (Hm _ _ _ _ Hrun). lia. Qed.

Lemma at_most_ret {A} n (a : A) : at_most n (ret a).
Proof. intros w r w' t [= _ _ <-]. cbn. lia. Qed.

Lemma at_most_get n : at_most n get.
Proof. intros w r w' t [= _ _ <-]. cbn. lia. Qed.

Lemma at_most_modify n f : at_most n (modify f).
Proof. intros w r w' t [= _ _ <-]. cbn. lia. Qed.

Lemma at_most_raise {A} n c msg : at_most n (raise (A:=A) c msg).
Proof. intros w r w' t [= _ _ <-]. cbn. lia. Qed.

Lemma at_most_reraise {A} n x : at_most n (reraise (A:=A) x).
Proof. intros w r w' t [= _ _ <-]. cbn. lia. Qed.

Lemma at_most_log n r : at_most n (log r).
Proof. intros w r0 w' t [= _ _ <-]. cbn. lia. Qed.

Lemma at_most_emit n ev : at_most (S n) (emit ev).
Proof.
  intros w r w' t [= _ _ <-]. unfold device_calls. cbn.
  destruct (is_device_call ev); cbn; lia.
Qed.

Lemma at_most_bind {A B} a n (m : M A) (k : A -> M B) :
  at_most a m -> (forall x, at_most (n - a) (k x)) -> a <= n ->
  at_most n (bind m k).
Proof.
  intros Hm Hk Han w r w' t. unfold bind.
  destruct (m w) as [[[x|e] w1] t1] eqn:Hmw.
  - destruct (k x w1) as [[r2 w2] t2] eqn:Hkw. intros [= _ _ <-].
    rewrite device_calls_app, length_app.
    specialize (Hm _ _ _ _ Hmw). specialize (Hk _ _ _ _ _ Hkw). lia.
  - intros [= _ _ <-]. specialize (Hm _ _ _ _ Hmw). lia.
Qed.

Lemma at_most_try {A} a n (m : M A) (h : exn -> M A) :
  at_most a m -> (forall x, at_most (n - a) (h x)) -> a <= n ->
  at_most n (try_except m h).
Proof.
  intros Hm Hh Han w r w' t. unfold try_except.
  destruct (m w) as [[[x|e] w1] t1] eqn:Hmw.
  - intros [= _ _ <-]. specialize (Hm _ _ _ _ Hmw). lia.
  - destruct (isinstance e [Exception]).
    + destruct (h e w1) as [[r2 w2] t2] eqn:Hhw. intros [= _ _ <-].
      rewrite device_calls_app, length_app.
      specialize (Hm _ _ _ _ Hmw). specialize (Hh _ _ _ _ _ Hhw). lia.
    + intros [= _ _ <-]. specialize (Hm _ _ _ _ Hmw). lia.
Qed.

(** The wrapper calls the library no more often than its attempts do. *)
Lemma at_most_wrapper_loop {T} a N b excs name (func : M T) :
  at_most a func ->
  forall fuel k last w r w' t,
    wrapper_loop N b excs name func fuel k last w = Some (r, w', t) ->
    length (device_calls t) <= fuel * a.
Proof.
  intros Hf. induction fuel as [|fuel IH]; intros k last w r w' t;
    cbn [wrapper_loop].
  - destruct (k <=? N)%Z; [discriminate|].
    destruct last; intros [= _ _ <-]; cbn; lia.
  - destruct (k <=? N)%Z; [|destruct last; intros [= _ _ <-]; cbn; lia].
    rewrite emit_bind.
    destruct (func w) as [[[v|x] w1] t1] eqn:Hfw; specialize (Hf _ _ _ _ Hfw).
    + intros [= _ _ <-]. cbn. unfold device_calls in *. cbn. lia.
    + destruct (isinstance x excs);
        [|intros [= _ _ <-]; unfold device_calls in *; cbn; lia].
      destruct (k + 1 >? N)%Z.
      * cbn. intros [= _ _ <-]. unfold device_calls in *. cbn.
        rewrite List.filter_app, length_app. cbn. lia.
      * destruct (wrapper_loop N b excs name func fuel (k + 1) (Some x) _)
          as [[[r2 w2] t2]|] eqn:Hrec; [|discriminate].
        cbn. intros [= _ _ <-]. specialize (IH _ _ _ _ _ _ Hrec).
        unfold device_calls in *. cbn.
        rewrite !List.filter_app, !length_app. cbn. lia.
Qed.

Lemma at_most_with_retry {T} a N b excs name (func : M T) :
  at_most a func -> at_most (retry_fuel N * a) (with_retry N b excs name func).
Proof.
  intros Hf w r w' t. unfold with_retry.
  destruct (wrapper_loop _ _ _ _ _ _ _ _ _) as [[[r2 w2] t2]|] eqn:Hrun.
  - intros [= _ _ <-]. eapply at_most_wrapper_loop; eauto.
  - intros [= _ _ <-]. cbn. lia.
Qed.

Ltac leaf :=
  first
    [ apply at_most_ret | apply at_most_get | apply at_most_modify
    | apply at_most_raise | apply at_most_reraise | apply at_most_log
    | apply at_most_emit ].

Ltac cstep :=
  first
    [ leaf
    | match goal with
      | H0 : forall n, at_most n ?m |- at_most _ ?m => apply H0
      end
    | apply (at_most_bind 0);
        [ solve [ leaf | auto
                | match goal with
                  | |- at_most _ (match ?x with _ => _ end) => destruct x; leaf
                  | |- at_most _ (if ?x then _ else _) => destruct x; leaf
                  end ]
        | intros ? | lia ]
    | apply (at_most_bind 1); [apply at_most_emit | intros ? | lia]
    | match goal with
      | |- at_most _ (match ?x with _ => _ end) => destruct x eqn:?
      | |- at_most _ (if ?x then _ else _) => destruct x eqn:?
      end ].

Ltac cost := unfold no_device; repeat cstep.

Lemma at_most_path_exists n p : at_most n (path_exists p).
Proof. unfold path_exists. cost. Qed.

Lemma at_most_stat_size n p : at_most n (stat_size p).
Proof. unfold stat_size. cost. Qed.

Lemma at_most_open_read n p : at_most n (open_read p).
Proof. unfold open_read. cost. Qed.

Lemma at_most_unlink n p : at_most n (unlink p).
Proof. unfold unlink. cost. Qed.

Lemma at_most_calculate_checksum n p : at_most n (calculate_checksum p).
Proof.
  unfold calculate_checksum.
  apply (at_most_bind 0); [apply at_most_open_read | intros ? | lia]. cost.
Qed.

Lemma at_most_alloc n x : at_most n (alloc x).
Proof. unfold alloc. cost. Qed.

Lemma at_most_load_global n name : at_most n (load_global name).
Proof. unfold load_global. cost. Qed.

Lemma at_most_download_body file_id target_path :
  at_most 1 (download_body file_id target_path).
Proof. unfold download_body. cost. Qed.

Lemma at_most_upload_body source_path parent_id filename :
  at_most 1 (upload_body source_path parent_id filename).
Proof.
  unfold upload_body.
  pose proof at_most_path_exists. pose proof at_most_stat_size. cost.
Qed.

Lemma at_most_mkdir_body parent_id folder_name sid :
  at_most 1 (mkdir_body parent_id folder_name sid).
Proof. unfold mkdir_body. cost. Qed.

Lemma at_most_download file_id target_path : at_most 4 (download file_id target_path).
Proof. apply (at_most_with_retry 1 3), at_most_download_body. Qed.

Lemma at_most_upload source_path parent_id filename :
  at_most 4 (upload source_path parent_id filename).
Proof. apply (at_most_with_retry 1 3), at_most_upload_body. Qed.

Lemma at_most_mkdir parent_id folder_name sid :
  at_most 4 (mkdir parent_id folder_name sid).
Proof. apply (at_most_with_retry 1 3), at_most_mkdir_body. Qed.

Lemma at_most_entry n rel_path entry_type ok :
  at_most n (emit (EvEntry rel_path entry_type ok)).
Proof. intros w r w' t [= _ _ <-]. cbn. lia. Qed.

Lemma at_most_create_segment e current_id part next_path :
  at_most 4 (create_segment e current_id part next_path).
Proof.
  unfold create_segment.
  apply (at_most_try 4); [|intros x; cost|lia].
  apply (at_most_bind 4); [apply at_most_mkdir | intros new_id | lia].
  pose proof at_most_alloc. pose proof at_most_load_global. cost.
Qed.

Lemma at_most_ensure_walk e parts : forall current_path current_id,
  at_most 4 (ensure_walk e parts current_path current_id).
Proof.
  induction parts as [|part rest IH]; intros current_path current_id;
    [apply at_most_ret|].
  destruct (Str.is_empty part) eqn:Hpart.
  - cbn [ensure_walk]. rewrite Hpart. apply IH.
  - intros w r w' t. rewrite ensure_walk_step by exact Hpart.
    destruct (path_map w !! _) as [a|]; [apply IH|].
    destruct (create_segment_run e current_id part
                (current_path +:+ "/" +:+ part) w) as (w1 & t1 & Hrun & _).
    rewrite Hrun. intros [= _ _ <-]. rewrite app_nil_r.
    exact (at_most_create_segment _ _ _ _ _ _ _ _ Hrun).
Qed.

Lemma at_most_ensure_directory e rel_path : at_most 4 (_ensure_directory e rel_path).
Proof.
  unfold _ensure_directory. pose proof (at_most_ensure_walk e) as Hw.
  apply (at_most_bind 0); [apply at_most_get | intros w | lia].
  destruct (path_map w !! _); [apply at_most_ret | apply Hw].
Qed.

Lemma at_most_upload_and_register e rel_path source_path parent_node parent_id :
  at_most (upload_calls e)
    (upload_and_register e rel_path source_path parent_node parent_id).
Proof.
  unfold upload_and_register, upload_calls.
  pose proof at_most_alloc. pose proof at_most_load_global.
  pose proof at_most_stat_size. pose proof at_most_path_exists.
  pose proof at_most_calculate_checksum. pose proof at_most_unlink.
  destruct (use_checksum e).
  - apply (at_most_try 8); [|intros x; cost|lia].
    apply (at_most_bind 4); [apply at_most_upload | intros new_id | lia].
    apply (at_most_bind 4); [|intros valid; cost|lia].
    apply (at_most_bind 4); [apply at_most_download | intros temp_path | lia].
    cost.
  - apply (at_most_try 4); [|intros x; cost|lia].
    apply (at_most_bind 4); [apply at_most_upload | intros new_id | lia].
    cost.
Qed.

Lemma at_most_sync_file e rel_path :
  at_most (4 + upload_calls e) (_sync_file e rel_path).
Proof.
  unfold _sync_file.
  apply (at_most_bind 0); [apply at_most_path_exists | intros ex | lia].
  destruct (negb ex); [cost|].
  apply (at_most_bind 4); [apply at_most_ensure_directory | intros ok | lia].
  destruct (negb ok); [cost|].
  apply (at_most_bind 0); [apply at_most_get | intros w | lia].
  destruct (path_map w !! _); [|cost].
  destruct (deref w _); [cost|].
  eapply at_most_weaken; [apply at_most_upload_and_register | lia].
Qed.

Lemma at_most_phase_dirs e (items : Plan) : forall failed,
  at_most (4 * length (dir_entries items)) (phase_dirs e items failed).
Proof.
  induction items as [|[p k] rest IH]; intros failed; [apply at_most_ret|].
  cbn [phase_dirs dir_entries List.filter snd].
  destruct (String.eqb k "dir"); [|apply IH].
  cbn [length].
  apply (at_most_bind 4); [apply at_most_ensure_directory | intros ok | lia].
  apply (at_most_bind 0); [apply at_most_entry | intros _ | lia].
  eapply at_most_weaken; [apply IH | unfold dir_entries; lia].
Qed.

Lemma at_most_phase_files e (items : Plan) : forall failed,
  at_most ((4 + upload_calls e) * length (file_entries items))
    (phase_files e items failed).
Proof.
  induction items as [|[p k] rest IH]; intros failed; [apply at_most_ret|].
  cbn [phase_files file_entries List.filter snd].
  destruct (String.eqb k "file"); [|apply IH].
  cbn [length].
  apply (at_most_bind (4 + upload_calls e));
    [apply at_most_sync_file | intros ok | lia].
  apply (at_most_bind 0); [apply at_most_entry | intros _ | lia].
  eapply at_most_weaken; [apply IH | unfold file_entries; lia].
Qed.

(** X8. The device calls of a run are bounded by the plan: [execute]
    calls the library at most 4 times for a directory entry (one folder
    creation, in up to four attempts) and at most 8 times for a file
    entry, 12 in checksum mode (the creation of the parent, the upload
    and the download that validates it). *)
Theorem execute_device_calls_bounded (e : SyncEngine) (p text : string)
    (plan : Plan) (w : World) :
  host w !! p = Some (HostFile text true) ->
  Json.loads text = Json.Loaded plan ->
  exists r w' t,
    execute e (Some p) w = Some (r, w', t)
    /\ length (device_calls t)
       <= 4 * length (dir_entries plan)
          + (4 + upload_calls e) * length (file_entries plan).
Proof.
  intros Hp Hl. rewrite (execute_loaded e p text plan w Hp Hl).
  destruct (run_plan e plan w) as [[r w'] t] eqn:Hrun.
  exists r, w', t. split; [reflexivity|].
  revert Hrun. unfold run_plan, phases.
  unfold bind at 1. unfold bind at 1.
  destruct (phase_dirs e plan [] w) as [[[f1|x] w1] t1] eqn:Hd.
  - pose proof (at_most_phase_dirs e plan _ _ _ _ _ Hd) as Hc1.
    destruct (phase_files e plan f1 w1) as [[[f2|x] w2] t2] eqn:Hf;
      pose proof (at_most_phase_files e plan _ _ _ _ _ Hf) as Hc2.
    + destruct (finish f2 w2) as [[r3 w3] t3] eqn:Hfin.
      intros [= _ _ <-]. rewrite (finish_events _ _ _ _ _ Hfin), app_nil_r.
      rewrite device_calls_app, length_app. lia.
    + intros [= _ _ <-]. rewrite device_calls_app, length_app. lia.
  - pose proof (at_most_phase_dirs e plan _ _ _ _ _ Hd) as Hc1.
    intros [= _ _ <-]. lia.
Qed.

End CallBounds.

(* ===================================================================== *)
(** * The scan and the diff, beyond the claims *)
(* ===================================================================== *)

Section StringFacts.

Lemma rev_app_app (a b c : string) :
  String.rev_app (a +:+ b) c = String.rev_app b (String.rev_app a c).
Proof.
  revert c. induction a as [|x a IH]; intros c; [reflexivity|].
  rewrite str_app_cons. cbn [String.rev_app]. apply IH.
Qed.

Lemma rev_snoc (s : string) (c : ascii) :
  String.rev (s +:+ String c "") = String c (String.rev s).
Proof. unfold String.rev. now rewrite rev_app_app. Qed.

Lemma rev_app_rev (a b c : string) :
  String.rev_app (String.rev_app a b) c = String.rev_app b (a +:+ c).
Proof.
  revert b c. induction a as [|x a IH]; intros b c; [reflexivity|].
  cbn [String.rev_app]. rewrite IH. reflexivity.
Qed.

Lemma rev_rev (s : string) : String.rev (String.rev s) = s.
Proof. unfold String.rev. rewrite rev_app_rev. cbn. apply str_app_empty_r. Qed.

Lemma rev_app_alt (a b : string) : String.rev_app a b = String.rev a +:+ b.
Proof.
  revert b. induction a as [|x a IH]; intros b; [reflexivity|].
  unfold String.rev. cbn [String.rev_app]. rewrite !IH.
  rewrite str_app_assoc. reflexivity.
Qed.

Lemma rev_app_distr (a b : string) :
  String.rev (a +:+ b) = String.rev b +:+ String.rev a.
Proof. unfold String.rev at 1. rewrite rev_app_app. apply rev_app_alt. Qed.

(** [s.endswith(c)] looks at the last character. *)
Lemma endswith_char_snoc (c d : ascii) (s : string) :
  Str.endswith (String c "") (s +:+ String d "") = Ascii.eqb c d.
Proof.
  unfold Str.endswith. rewrite rev_snoc. cbn.
  destruct (ascii_dec c d) as [Heq|Hne].
  - subst. rewrite Ascii.eqb_refl. destruct (String.rev s); reflexivity.
  - symmetry. now apply Ascii.eqb_neq.
Qed.

Lemma endswith_char_empty (c : ascii) : Str.endswith (String c "") "" = false.
Proof. reflexivity. Qed.

Lemma string_snoc_inv (s : string) :
  s = "" \/ exists s' d, s = s' +:+ String d "".
Proof.
  induction s as [|x s IH]; [now left|]. right.
  destruct IH as [->|(s' & d & ->)].
  - exists "", x. reflexivity.
  - exists (String x s'), d. reflexivity.
Qed.

Lemma endswith_char_app (c : ascii) (a b : string) :
  b <> "" -> Str.endswith (String c "") (a +:+ b) = Str.endswith (String c "") b.
Proof.
  intros Hb. destruct (string_snoc_inv b) as [->|(b' & d & ->)]; [contradiction|].
  rewrite <- str_app_assoc, !endswith_char_snoc. reflexivity.
Qed.

Lemma replace_app (a b : ascii) (s t : string) :
  Str.replace a b (s +:+ t) = Str.replace a b s +:+ Str.replace a b t.
Proof.
  induction s as [|x s IH]; [reflexivity|].
  rewrite str_app_cons. cbn [Str.replace]. rewrite str_app_cons. now rewrite IH.
Qed.

Lemma endswith_replace (s : string) :
  Str.endswith "/" (Str.replace "\" "/" s)
  = Str.endswith "/" s || Str.endswith "\" s.
Proof.
  destruct (string_snoc_inv s) as [->|(s' & d & ->)]; [reflexivity|].
  rewrite replace_app. cbn [Str.replace].
  rewrite !endswith_char_snoc.
  destruct (Ascii.eqb_spec d "\"%char) as [->|Hne]; [reflexivity|].
  destruct (Ascii.eqb_spec "\"%char d) as [<-|_]; [contradiction|].
  now rewrite orb_false_r.
Qed.

Lemma drop_two (a b : ascii) (s : string) :
  Str.drop 2 (String a (String b s)) = s.
Proof. reflexivity. Qed.

End StringFacts.

Section ScanFacts.
Context {H : Host}.

Lemma dict_set_in {V} (k k' : string) (v v' : V) (d : Dict.t V) :
  In (k, v) (Dict.set k' v' d) -> (k, v) = (k', v') \/ In (k, v) d.
Proof.
  induction d as [|[a b] d IH]; cbn.
  - intros [Heq|[]]. left. congruence.
  - destruct (String.eqb a k'); cbn.
    + intros [Heq|Hin]; [left; congruence | right; now right].
    + intros [Heq|Hin]; [right; now left|].
      destruct (IH Hin) as [?|?]; [now left | right; now right].
Qed.

Lemma startswith_dot_slash (x : string) :
  Str.startswith "./" x = true -> exists rest, x = "./" +:+ rest.
Proof.
  unfold Str.startswith.
  destruct x as [|a [|b rest]]; cbn -[ascii_dec]; try discriminate.
  - destruct (ascii_dec "." a); discriminate.
  - destruct (ascii_dec "." a) as [<-|]; [|discriminate].
    destruct (ascii_dec "/" b) as [<-|]; [|discriminate].
    intros _. exists rest. reflexivity.
Qed.

Lemma join2_suffix (a b : string) : exists pre, PosixPath.join2 a b = pre +:+ b.
Proof.
  unfold PosixPath.join2.
  destruct (Str.startswith "/" b); [exists ""; reflexivity|].
  destruct (Str.is_empty a || Str.endswith "/" a).
  - exists a. reflexivity.
  - exists (a +:+ "/"). now rewrite str_app_assoc.
Qed.

Lemma plain_name_inv (f : string) :
  plain_name f = true ->
  f <> "" /\ Str.endswith "/" f = false /\ Str.endswith "\" f = false.
Proof.
  unfold plain_name. intros Hf.
  apply andb_true_iff in Hf as [Hf H3]. apply andb_true_iff in Hf as [H1 H2].
  apply negb_true_iff in H1, H2, H3. repeat split; auto.
  intros ->. discriminate.
Qed.

(** The key under which [scan_file] records a file. *)
Lemma scan_file_key (rel_root file : string) (source_map : Plan) :
  plain_name file = true ->
  exists key, scan_file rel_root source_map file = Dict.set key "file" source_map
              /\ Str.endswith "/" key = false.
Proof.
  intros Hf. destruct (plain_name_inv _ Hf) as (Hne & Hs & Hb).
  unfold scan_file. eexists. split; [reflexivity|].
  destruct (join2_suffix rel_root file) as [pre Hj].
  assert (Hr : Str.endswith "/" (Str.replace "\" "/" (PosixPath.join2 rel_root file))
               = false).
  { rewrite endswith_replace, Hj, !endswith_char_app by exact Hne.
    now rewrite Hs, Hb. }
  destruct (Str.startswith "./" _) eqn:Hdot; [|exact Hr].
  apply startswith_dot_slash in Hdot as [rest Hrest].
  rewrite Hrest in *. cbn [String.append Str.drop].
  destruct rest as [|c rest]; [discriminate Hr|].
  change (Str.endswith "/" (String c rest) = false).
  rewrite <- (endswith_char_app "/" "./" (String c rest)) by discriminate.
  exact Hr.
Qed.

Lemma kinds_set_file (m : Plan) key :
  kinds_by_slash m -> Str.endswith "/" key = false ->
  kinds_by_slash (Dict.set key "file" m).
Proof.
  intros Hm Hk p k Hin. apply dict_set_in in Hin as [[= -> ->]|Hin]; auto.
Qed.

Lemma kinds_set_dir (m : Plan) key :
  kinds_by_slash m -> Str.endswith "/" key = true ->
  kinds_by_slash (Dict.set key "dir" m).
Proof.
  intros Hm Hk p k Hin. apply dict_set_in in Hin as [[= -> ->]|Hin]; auto.
Qed.

Lemma scan_files_kinds rel_root (files : list string) : forall m,
  (forall f, In f files -> plain_name f = true) ->
  Dict.wf m = true -> kinds_by_slash m ->
  Dict.wf (fold_left (scan_file rel_root) files m) = true
  /\ kinds_by_slash (fold_left (scan_file rel_root) files m).
Proof.
  induction files as [|f files IH]; intros m Hf Hwf Hm; [now split|].
  cbn [fold_left].
  destruct (scan_file_key rel_root f m) as (key & -> & Hkey); [apply Hf; now left|].
  apply IH.
  - intros g Hg. apply Hf. now right.
  - now apply dict_wf_set.
  - now apply kinds_set_file.
Qed.

Lemma scan_step_kinds (m : Plan) (visit : string * list string) :
  (forall f, In f (snd visit) -> plain_name f = true) ->
  Dict.wf m = true -> kinds_by_slash m ->
  Dict.wf (scan_step m visit) = true /\ kinds_by_slash (scan_step m visit).
Proof.
  destruct visit as [rel_root files]. cbn [snd]. intros Hf Hwf Hm.
  unfold scan_step. apply scan_files_kinds; [exact Hf | |].
  - destruct (negb _); [now apply dict_wf_set | exact Hwf].
  - destruct (negb _); [|exact Hm]. apply kinds_set_dir; [exact Hm|].
    destruct (Str.endswith "/" (Str.replace "\" "/" rel_root)) eqn:He; [exact He|].
    apply (endswith_char_snoc "/" "/").
Qed.

Lemma scan_walk_kinds (walk : list (string * list string)) : forall m,
  (forall visit f, In visit walk -> In f (snd visit) -> plain_name f = true) ->
  Dict.wf m = true -> kinds_by_slash m ->
  Dict.wf (fold_left scan_step walk m) = true
  /\ kinds_by_slash (fold_left scan_step walk m).
Proof.
  induction walk as [|visit walk IH]; intros m Hf Hwf Hm; [now split|].
  cbn [fold_left].
  destruct (scan_step_kinds m visit) as [Hwf' Hm']; auto.
  { intros f Hin. apply (Hf visit); [now left | exact Hin]. }
  apply IH; auto. intros v f Hv. apply Hf. now right.
Qed.

(** X11. What [_scan_source_directory] returns is a dictionary in which
    the kind of every entry can be read off its key: the key of a
    ["dir"] entry ends with a slash, the key of a ["file"] entry does
    not.  The scan changes nothing. *)
Theorem scan_kinds_by_slash (e : SyncEngine) (w : World) m w' t :
  (forall visit f, In visit (os_walk (host w) (source_dir e)) ->
                   In f (snd visit) -> plain_name f = true) ->
  _scan_source_directory e w = (Ok m, w', t) ->
  w' = w /\ t = [] /\ Dict.wf m = true /\ kinds_by_slash m.
Proof.
  intros Hf. unfold _scan_source_directory, path_exists, bind, get, ret, raise. cbn.
  destruct (host w !! source_dir e); cbn; [|discriminate].
  intros [= <- <- <-]. split; [reflexivity|]. split; [reflexivity|].
  apply scan_walk_kinds; [exact Hf | reflexivity |]. intros p k [].
Qed.

End ScanFacts.

Section VerifyFacts.
Context {H : Host}.

Lemma wrote_plan_only_refl place w : wrote_plan_only place w w.
Proof. unfold wrote_plan_only. repeat split; try reflexivity. now left. Qed.

Lemma wrote_plan_only_trans place a b c :
  wrote_plan_only place a b -> wrote_plan_only place b c -> wrote_plan_only place a c.
Proof.
  unfold wrote_plan_only.
  intros (A1 & A2 & A3 & A4 & A5 & A6 & A7 & A8) (B1 & B2 & B3 & B4 & B5 & B6 & B7 & B8).
  repeat split; try congruence.
  intros q Hq.
  destruct (A8 q Hq) as [Ha|(Hin & Ha1 & Ha2)],
           (B8 q Hq) as [Hb|(Hin' & Hb1 & Hb2)].
  - left. congruence.
  - right. split; [exact Hin'|]. split; congruence.
  - right. split; [exact Hin|]. split; congruence.
  - congruence.
Qed.

Lemma make_dir_lookup (a : string) (h : gmap string HostNode) q :
  make_dir a h !! q = h !! q
  \/ (q = a /\ h !! q = None /\ make_dir a h !! q = Some (HostDir 0)).
Proof.
  unfold make_dir. destruct (h !! a) eqn:Ha; [now left|].
  destruct (decide (q = a)) as [->|Hne].
  - right. rewrite lookup_insert_eq. now repeat split.
  - left. now rewrite lookup_insert_ne by congruence.
Qed.

Lemma make_dirs_lookup (l : list string) (h : gmap string HostNode) q :
  foldr make_dir h l !! q = h !! q
  \/ (In q l /\ h !! q = None /\ foldr make_dir h l !! q = Some (HostDir 0)).
Proof.
  induction l as [|a l IH]; cbn [foldr]; [now left|].
  destruct (make_dir_lookup a (foldr make_dir h l) q) as [Hm|(-> & Hn & Hs)].
  - rewrite Hm. destruct IH as [IH|(Hin & Hn & Hs)]; [now left|].
    right. split; [right; exact Hin|]. split; assumption.
  - rewrite Hs. destruct IH as [IH|(_ & _ & Hs')]; [|congruence].
    right. split; [left; reflexivity|]. split; [congruence|reflexivity].
Qed.

Section SizeOnly.
Variable place : string.
Variable e : SyncEngine.
Hypothesis size_only : use_checksum e = false.

Ltac ostep :=
  first
    [ apply holds_ret; apply wrote_plan_only_refl
    | apply holds_get; apply wrote_plan_only_refl
    | apply holds_raise; first [exact I | intros; apply wrote_plan_only_refl]
    | apply holds_bind; [exact (wrote_plan_only_trans place) | | intros ? ]
    | match goal with
      | |- holds _ _ _ (match ?x with _ => _ end) => destruct x eqn:?
      | |- holds _ _ _ (if ?x then _ else _) => destruct x eqn:?
      end ].

Lemma offline_compare_file rel_path dest_full_path :
  holds (wrote_plan_only place) no_event (fun _ => True) (_compare_file e rel_path dest_full_path).
Proof.
  unfold _compare_file, stat_size. rewrite size_only. cbn [negb]. repeat ostep.
Qed.

Lemma offline_verify_loop items : forall plan,
  holds (wrote_plan_only place) no_event (fun _ => True) (verify_loop e items plan).
Proof.
  induction items as [|[rel_path entry_type] rest IH]; intros plan;
    cbn [verify_loop]; unfold _path_exists_in_dest;
    repeat first [apply IH | apply offline_compare_file | ostep].
Qed.

Lemma offline_scan : holds (wrote_plan_only place) no_event (fun _ => True) (_scan_source_directory e).
Proof. unfold _scan_source_directory, path_exists. repeat ostep. Qed.

Lemma offline_mkdir_parents :
  holds (wrote_plan_only place) no_event (fun _ => True) (mkdir_parents (PosixPath.dirname place)).
Proof.
  unfold mkdir_parents. repeat ostep.
  apply holds_modify. intros w. unfold wrote_plan_only. cbn [set_host path_map id_map heap device dev rng_pos uuid_pos host].
  repeat split; try reflexivity.
  intros q _. apply make_dirs_lookup.
Qed.

Lemma offline_save_plan plan :
  holds (wrote_plan_only place) no_event (fun _ => True) (save_plan place plan).
Proof.
  unfold save_plan, open_write. repeat ostep;
    apply holds_modify; intros w; unfold wrote_plan_only; cbn;
    repeat split; try reflexivity;
    intros q Hq; left; now rewrite lookup_insert_ne.
Qed.

End SizeOnly.

(** X12. In size-only mode [verify] works offline: whatever the source
    tree and the index, it calls no device operation, sleeps and logs
    nothing, and (whether it returns or raises) leaves everything as it
    was but the plan file and the directories above it: those that were
    missing are there afterwards, and nothing else of the host has
    changed. *)
Theorem verify_size_only_offline (e : SyncEngine) (plan_path : option string)
    (w : World) :
  use_checksum e = false ->
  events_of (verify e plan_path w) = []
  /\ wrote_plan_only (plan_place plan_path) w (world_of (verify e plan_path w)).
Proof.
  intros Hmode.
  assert (Hv : holds (wrote_plan_only (plan_place plan_path)) no_event
                 (fun _ => True) (verify e plan_path)).
  { unfold verify. fold (plan_place plan_path).
    apply holds_bind; [exact (wrote_plan_only_trans _)
                      | apply offline_mkdir_parents | intros _].
    apply holds_bind; [exact (wrote_plan_only_trans _)
                      | apply offline_scan | intros source_map].
    apply holds_bind; [exact (wrote_plan_only_trans _)
                      | now apply offline_verify_loop | intros plan].
    apply holds_bind; [exact (wrote_plan_only_trans _)
                      | apply offline_save_plan | intros _].
    apply holds_ret, wrote_plan_only_refl. }
  destruct (verify e plan_path w) as [[r w'] t] eqn:Hrun.
  destruct (Hv _ _ _ _ Hrun) as (HR & HP & _). split; [|exact HR].
  cbn. destruct t as [|ev t]; [reflexivity|].
  inversion HP as [|? ? Hev _]. destruct Hev.
Qed.

(** ** The entries of the plan *)

Lemma compare_file_keeps_index e rel_path dest_full_path w r w' t :
  _compare_file e rel_path dest_full_path w = (r, w', t) -> path_map w' = path_map w.
Proof.
  intros Hrun.
  assert (Hc : holds same_index any_event (fun _ => True)
                 (_compare_file e rel_path dest_full_path)).
  { apply holds_compare_file; unfold any_event, exc_ok; intros;
      try exact I; try (repeat split; reflexivity).
    eapply same_index_trans; eassumption. }
  exact (proj1 (proj1 (Hc _ _ _ _ Hrun))).
Qed.

Lemma dict_get_set_same {V} (k : string) (v : V) (d : Dict.t V) :
  Dict.get k (Dict.set k v d) = Some v.
Proof.
  induction d as [|[a b] d IH]; cbn.
  - now rewrite String.eqb_refl.
  - destruct (String.eqb a k) eqn:Hak; cbn.
    + now rewrite String.eqb_refl.
    + now rewrite Hak.
Qed.

Lemma dict_get_set_some {V} (k k' : string) (v : V) (d : Dict.t V) :
  Dict.get k d <> None -> Dict.get k (Dict.set k' v d) <> None.
Proof.
  intros Hk. destruct (String.eqb_spec k' k) as [->|Hne].
  - now rewrite dict_get_set_same.
  - now rewrite dict_get_set_other.
Qed.

Lemma dict_get_set_inv {V} (k k' : string) (v : V) (d : Dict.t V) :
  Dict.get k (Dict.set k' v d) <> None -> k = k' \/ Dict.get k d <> None.
Proof.
  destruct (String.eqb_spec k' k) as [->|Hne]; [now left|].
  rewrite dict_get_set_other by exact Hne. now right.
Qed.

(** The loop of [verify]: where the entries of the plan come from. *)
Lemma verify_loop_entries e (items : Plan) : forall acc w plan w' t,
  verify_loop e items acc w = (Ok plan, w', t) ->
  (forall q k, In (q, k) plan -> In (q, k) acc \/ In (q, k) items)
  /\ (forall q, Dict.get q acc <> None
                \/ (exists k, In (q, k) items /\ path_map w !! dest_of e q = None) ->
                Dict.get q plan <> None)
  /\ (forall q, Dict.get q plan <> None ->
                Dict.get q acc <> None
                \/ exists k, In (q, k) items
                             /\ (path_map w !! dest_of e q = None \/ k = "file")).
Proof.
  induction items as [|[rel_path entry_type] rest IH]; intros acc w plan w' t.
  - intros [= <- _ _]. repeat split.
    + intros q k Hin. now left.
    + intros q [Hq|(k & [] & _)]. exact Hq.
    + intros q Hq. now left.
  - cbn [verify_loop]. unfold _path_exists_in_dest, bind at 1, get, ret. cbn.
    fold (dest_of e rel_path).
    destruct (path_map w !! dest_of e rel_path) as [a|] eqn:Hdest; cbn.
    + destruct (String.eqb_spec entry_type "file") as [->|Hkind].
      * unfold bind at 1.
        destruct (_compare_file e rel_path (dest_of e rel_path) w)
          as [[[same|x] w1] t1] eqn:Hcmp; [|discriminate].
        pose proof (compare_file_keeps_index _ _ _ _ _ _ _ Hcmp) as Hpm.
        destruct same; cbn [negb].
        -- destruct (verify_loop e rest acc w1) as [[r2 w2] t2] eqn:Hrest.
           intros [= -> <- <-].
           destruct (IH _ _ _ _ _ Hrest) as (I1 & I2 & I3). rewrite Hpm in *.
           repeat split.
           ++ intros q k Hin. destruct (I1 q k Hin); [now left | right; now right].
           ++ intros q [Hq|(k & [[= <- <-]|Hin] & Hmiss)].
              ** apply I2. now left.
              ** congruence.
              ** apply I2. right. eauto.
           ++ intros q Hq. destruct (I3 q Hq) as [?|(k & Hin & Hk)]; [now left|].
              right. exists k. split; [now right | exact Hk].
        -- destruct (verify_loop e rest (Dict.set rel_path "file" acc) w1)
             as [[r2 w2] t2] eqn:Hrest.
           intros [= -> <- <-].
           destruct (IH _ _ _ _ _ Hrest) as (I1 & I2 & I3). rewrite Hpm in *.
           repeat split.
           ++ intros q k Hin. destruct (I1 q k Hin) as [Hs|?]; [|right; now right].
              apply dict_set_in in Hs as [[= -> ->]|?]; [right; now left | now left].
           ++ intros q [Hq|(k & [[= <- <-]|Hin] & Hmiss)].
              ** apply I2. left. now apply dict_get_set_some.
              ** congruence.
              ** apply I2. right. eauto.
           ++ intros q Hq. destruct (I3 q Hq) as [Hs|(k & Hin & Hk)].
              ** apply dict_get_set_inv in Hs as [->|?]; [|now left].
                 right. exists "file". split; [now left | now right].
              ** right. exists k. split; [now right | exact Hk].
      * destruct (verify_loop e rest acc w) as [[r2 w2] t2] eqn:Hrest.
        cbn. intros [= -> <- <-].
        destruct (IH _ _ _ _ _ Hrest) as (I1 & I2 & I3).
        repeat split.
        -- intros q k Hin. destruct (I1 q k Hin); [now left | right; now right].
        -- intros q [Hq|(k & [[= <- <-]|Hin] & Hmiss)].
           ++ apply I2. now left.
           ++ congruence.
           ++ apply I2. right. eauto.
        -- intros q Hq. destruct (I3 q Hq) as [?|(k & Hin & Hk)]; [now left|].
           right. exists k. split; [now right | exact Hk].
    + destruct (verify_loop e rest (Dict.set rel_path entry_type acc) w)
        as [[r2 w2] t2] eqn:Hrest.
      cbn. intros [= -> <- <-].
      destruct (IH _ _ _ _ _ Hrest) as (I1 & I2 & I3).
      repeat split.
      * intros q k Hin. destruct (I1 q k Hin) as [Hs|?]; [|right; now right].
        apply dict_set_in in Hs as [[= -> ->]|?]; [right; now left | now left].
      * intros q [Hq|(k & [[= <- <-]|Hin] & Hmiss)].
        -- apply I2. left. now apply dict_get_set_some.
        -- apply I2. left. rewrite dict_get_set_same. discriminate.
        -- apply I2. right. eauto.
      * intros q Hq. destruct (I3 q Hq) as [Hs|(k & Hin & Hk)].
        -- apply dict_get_set_inv in Hs as [->|?]; [|now left].
           right. exists entry_type. split; [now left | now left].
        -- right. exists k. split; [now right | exact Hk].
Qed.

End VerifyFacts.

Section VerifyPlan.
Context {H : Host}.

Lemma scan_files_wf rel_root (files : list string) : forall m,
  Dict.wf m = true -> Dict.wf (fold_left (scan_file rel_root) files m) = true.
Proof.
  induction files as [|f files IH]; intros m Hwf; [exact Hwf|].
  cbn [fold_left]. apply IH. unfold scan_file. now apply dict_wf_set.
Qed.

Lemma scan_walk_wf (walk : list (string * list string)) : forall m,
  Dict.wf m = true -> Dict.wf (fold_left scan_step walk m) = true.
Proof.
  induction walk as [|[rel_root files] walk IH]; intros m Hwf; [exact Hwf|].
  cbn [fold_left]. apply IH. unfold scan_step. apply scan_files_wf.
  destruct (negb _); [now apply dict_wf_set | exact Hwf].
Qed.

Lemma dict_get_keys {V} (k : string) (d : Dict.t V) :
  In k (Dict.keys d) -> Dict.get k d <> None.
Proof.
  induction d as [|[a b] d IH]; cbn; [tauto|].
  intros [->|Hin].
  - now rewrite String.eqb_refl.
  - destruct (String.eqb a k); [discriminate | auto].
Qed.

(** X13. The plan that [verify] writes is taken from the scan of the
    source tree: every entry of the plan is an entry of the scan, with
    its kind; every scanned path that the path index lacks is in the
    plan; and a scanned path that is no file and that the index holds
    is not. *)
Theorem verify_plan_entries (e : SyncEngine) (plan_path : option string)
    (w : World) pp w' t :
  verify e plan_path w = (Ok pp, w', t) ->
  exists w1 source_map plan rd,
    pp = plan_place plan_path
    /\ mkdir_parents (PosixPath.dirname pp) w = (Ok tt, w1, [])
    /\ _scan_source_directory e w1 = (Ok source_map, w1, [])
    /\ host w' !! pp = Some (HostFile (Json.dumps plan) rd)
    /\ (forall q k, In (q, k) plan -> In (q, k) source_map)
    /\ (forall q k, In (q, k) source_map ->
                    path_map w !! dest_of e q = None -> In (q, k) plan)
    /\ (forall q k, In (q, k) source_map -> k <> "file" ->
                    path_map w !! dest_of e q <> None ->
                    ~ In q (Dict.keys plan)).
Proof.
  unfold verify. fold (plan_place plan_path). set (place := plan_place plan_path).
  unfold bind at 1.
  destruct (mkdir_parents (PosixPath.dirname place) w) as [[[[]|x] w1] t1] eqn:Hmk;
    [|discriminate].
  assert (Hmk' : t1 = [] /\ path_map w1 = path_map w).
  { revert Hmk. unfold mkdir_parents, bind, get, ret, raise, modify. cbn.
    destruct (host w !! _) as [[c rd|sz]|]; cbn;
      repeat (match goal with
              | |- context [if ?b then _ else _] => destruct b
              end; cbn);
      intros [= <- <-] || discriminate; split; reflexivity. }
  destruct Hmk' as [-> Hpm1].
  unfold bind at 1.
  destruct (_scan_source_directory e w1) as [[[source_map|x] ws] ts] eqn:Hscan;
    [|discriminate].
  assert (Hscan' : ws = w1 /\ ts = []
                   /\ Dict.wf source_map = true).
  { revert Hscan. unfold _scan_source_directory, path_exists, bind, get, ret, raise.
    cbn. destruct (host w1 !! source_dir e); cbn; [|discriminate].
    intros [= <- <- <-]. repeat split. now apply scan_walk_wf. }
  destruct Hscan' as (-> & -> & Hwf).
  unfold bind at 1.
  destruct (verify_loop e source_map [] w1) as [[[plan|x] w2] t2] eqn:Hloop;
    [|discriminate].
  destruct (verify_loop_entries e source_map [] w1 plan w2 t2 Hloop)
    as (I1 & I2 & I3).
  rewrite Hpm1 in I2, I3.
  unfold bind at 1.
  destruct (save_plan place plan w2) as [[[[]|x] w3] t3] eqn:Hsave; [|discriminate].
  cbn. intros [= <- <- <-].
  assert (Hfile : exists rd, host w3 !! place = Some (HostFile (Json.dumps plan) rd)).
  { revert Hsave. unfold save_plan, open_write, bind, get, modify, raise. cbn.
    destruct (host w2 !! place) as [[c rd|sz]|]; cbn;
      intros [= <- _] || discriminate; cbn; eexists; apply lookup_insert_eq. }
  destruct Hfile as [rd Hfile].
  pose proof (dict_wf_NoDup _ Hwf) as Hnd.
  exists w1, source_map, plan, rd.
  split; [reflexivity|]. split; [exact Hmk|]. split; [exact Hscan|].
  split; [exact Hfile|]. split; [|split].
  - intros q k Hin. destruct (I1 q k Hin) as [[]|Hs]. exact Hs.
  - intros q k Hin Hmiss.
    assert (Hq : Dict.get q plan <> None) by (apply I2; right; eauto).
    destruct (Dict.get q plan) as [k'|] eqn:Hget; [|contradiction].
    apply dict_get_in in Hget.
    destruct (I1 q k' Hget) as [[]|Hs].
    now rewrite (dict_keys_functional source_map q k k' Hnd Hin Hs).
  - intros q k Hin Hkind Hpresent Hq.
    apply dict_get_keys in Hq.
    destruct (I3 q Hq) as [Hacc|(k' & Hs & Hk)]; [now apply Hacc|].
    pose proof (dict_keys_functional source_map q k k' Hnd Hin Hs) as ->.
    destruct Hk; contradiction.
Qed.

End VerifyPlan.

(* ===================================================================== *)
(** * The retry policy and the client, beyond the claims *)
(* ===================================================================== *)

Section RetryMore.
Context {H : Host}.

Lemma attempts_of_app name t1 t2 :
  attempts_of name (t1 ++ t2) = attempts_of name t1 + attempts_of name t2.
Proof. unfold attempts_of. now rewrite List.filter_app, length_app. Qed.

Lemma sleeps_of_app t1 t2 : sleeps_of (t1 ++ t2) = sleeps_of t1 ++ sleeps_of t2.
Proof. apply flat_map_app. Qed.

Lemma quiet_no_retry_events name t :
  Forall quiet t -> attempts_of name t = 0 /\ sleeps_of t = [].
Proof.
  induction 1 as [|ev t Hev _ [IH1 IH2]]; [now split|].
  destruct ev; try destruct Hev; cbn in *; auto.
Qed.

Lemma attempts_of_cons_attempt name t :
  attempts_of name (EvAttempt name :: t) = S (attempts_of name t).
Proof. unfold attempts_of. cbn. now rewrite String.eqb_refl. Qed.

Lemma sleeps_of_cons_attempt name t : sleeps_of (EvAttempt name :: t) = sleeps_of t.
Proof. reflexivity. Qed.

Section Counting.
Context {T : Type}.
Variables (N : Z) (b : Q) (excs : list pyclass) (name : string) (func : M T).
Hypothesis func_quiet : forall w r w' t, func w = (r, w', t) -> Forall quiet t.

Lemma retry_spec_counts n k w out :
  retry_spec N b excs name func n k w out ->
  attempts_of name (events_of out) = n
  /\ length (sleeps_of (events_of out)) = n - 1.
Proof.
  induction 1 as [k w v w1 t1 Hf | k w y w1 t1 Hf Hy | k w y w1 t1 Hf Hy Hlt
                 | n k w y w1 t1 out w2 t2 Hf Hy Hle delay Hrest [IH1 IH2]];
    destruct (quiet_no_retry_events name t1 (func_quiet _ _ _ _ Hf)) as [Ha Hs];
    cbn [events_of snd] in *.
  - rewrite attempts_of_cons_attempt, sleeps_of_cons_attempt, Ha, Hs. now split.
  - rewrite attempts_of_cons_attempt, sleeps_of_cons_attempt, Ha, Hs. now split.
  - rewrite attempts_of_cons_attempt, sleeps_of_cons_attempt.
    rewrite attempts_of_app, sleeps_of_app, Ha, Hs. now split.
  - rewrite attempts_of_cons_attempt, sleeps_of_cons_attempt.
    rewrite !attempts_of_app, !sleeps_of_app, Ha, Hs, IH1. cbn.
    split; [reflexivity|]. rewrite IH2.
    assert (1 <= n); [|lia].
    clear -Hrest. inversion Hrest; lia.
Qed.

End Counting.

(** X14. The wrapper sleeps between attempts and nowhere else: for a
    budget [N >= 0] and a wrapped function that emits no attempt or
    sleep of its own, a call makes between 1 and [N + 1] attempts and
    sleeps exactly once less than it attempts, however it ends. *)
Theorem with_retry_sleeps_between_attempts {T} (N : Z) (b : Q)
    (excs : list pyclass) (name : string) (func : M T) (w : World) :
  (0 <= N)%Z ->
  (forall w0 r w1 t, func w0 = (r, w1, t) -> Forall quiet t) ->
  let t := events_of (with_retry N b excs name func w) in
  1 <= attempts_of name t
  /\ (Z.of_nat (attempts_of name t) <= N + 1)%Z
  /\ length (sleeps_of t) + 1 = attempts_of name t.
Proof.
  intros HN Hq t.
  destruct (with_retry_spec N b excs name func w HN) as (n & Hn & Hspec).
  destruct (retry_spec_counts N b excs name func Hq _ _ _ _ Hspec) as [Ha Hs].
  fold t in Ha, Hs.
  assert (1 <= n) by (clear -Hspec; inversion Hspec; lia).
  rewrite Ha, Hs. repeat split; lia.
Qed.

(** ** Operations that cannot succeed *)

Lemma retry_constant_failure {T} (name : string) (func : M T) (x : exn) (w : World) :
  isinstance x default_exceptions = true ->
  (forall n, func (set_rng_pos n w) = (Raise x, set_rng_pos n w, [])) ->
  with_retry 3 RETRY_BACKOFF_FACTOR default_exceptions name func w
  = (Raise x, set_rng_pos (3 + rng_pos w) w, failing_events name x (rng_pos w)).
Proof.
  intros Hx Hf. unfold with_retry. change (retry_fuel 3) with 4.
  assert (Hw : set_rng_pos (rng_pos w) w = w) by (destruct w; reflexivity).
  assert (Hf0 : func w = (Raise x, w, [])) by (rewrite <- Hw at 1 2; apply Hf).
  pose proof (wrapper_loop_again 3 RETRY_BACKOFF_FACTOR default_exceptions
                name func 3 0%Z None w x Hf0 Hx) as H1.
  set (w1 := set_rng_pos (S (rng_pos w)) w) in *.
  assert (Hf1 : func w1 = (Raise x, w1, [])) by apply Hf.
  pose proof (wrapper_loop_again 3 RETRY_BACKOFF_FACTOR default_exceptions
                name func 2 1%Z (Some x) w1 x Hf1 Hx) as H2.
  set (w2 := set_rng_pos (S (rng_pos w1)) w1) in *.
  assert (Hf2 : func w2 = (Raise x, w2, []))
    by (change w2 with (set_rng_pos (S (S (rng_pos w))) w); apply Hf).
  pose proof (wrapper_loop_again 3 RETRY_BACKOFF_FACTOR default_exceptions
                name func 1 2%Z (Some x) w2 x Hf2 Hx) as H3.
  set (w3 := set_rng_pos (S (rng_pos w2)) w2) in *.
  assert (Hf3 : func w3 = (Raise x, w3, []))
    by (change w3 with (set_rng_pos (S (S (S (rng_pos w)))) w); apply Hf).
  pose proof (wrapper_loop_last 3 RETRY_BACKOFF_FACTOR default_exceptions
                name func 0 3%Z (Some x) w3 x Hf3 Hx) as H4.
  cbv zeta in H1, H2, H3.
  rewrite H1 by lia. change (0 + 1)%Z with 1%Z.
  rewrite H2 by lia. change (1 + 1)%Z with 2%Z.
  rewrite H3 by lia. change (2 + 1)%Z with 3%Z.
  rewrite H4 by lia.
  unfold failing_events.
  replace (rng_pos w + 2 - 1) with (S (rng_pos w)) by lia.
  replace (rng_pos w + 3 - 1) with (S (S (rng_pos w))) by lia.
  replace (rng_pos w + 1 - 1) with (rng_pos w) by lia.
  reflexivity.
Qed.

(** X16. Without a device every operation of the client still goes
    through its retries: the call raises [RuntimeError("No device
    connected")] only after four attempts and three sleeps, and the
    library is never called. *)
Theorem device_operations_without_device (w : World) :
  device w = false ->
  (forall file_id target_path,
     download file_id target_path w
     = (Raise no_device_error, set_rng_pos (3 + rng_pos w) w,
        failing_events "download" no_device_error (rng_pos w)))
  /\ (forall source_path parent_id filename,
        upload source_path parent_id filename w
        = (Raise no_device_error, set_rng_pos (3 + rng_pos w) w,
           failing_events "upload" no_device_error (rng_pos w)))
  /\ (forall parent_id folder_name sid,
        mkdir parent_id folder_name sid w
        = (Raise no_device_error, set_rng_pos (3 + rng_pos w) w,
           failing_events "mkdir" no_device_error (rng_pos w)))
  /\ (forall name,
        attempts_of name (failing_events name no_device_error (rng_pos w)) = 4
        /\ length (sleeps_of (failing_events name no_device_error (rng_pos w))) = 3
        /\ device_calls (failing_events name no_device_error (rng_pos w)) = []).
Proof.
  intros Hd. repeat split.
  - intros. apply retry_constant_failure; [reflexivity|].
    intros n. unfold download_body, bind, get, no_device, raise. cbn. now rewrite Hd.
  - intros. apply retry_constant_failure; [reflexivity|].
    intros n. unfold upload_body, bind, get, no_device, raise. cbn. now rewrite Hd.
  - intros. apply retry_constant_failure; [reflexivity|].
    intros n. unfold mkdir_body, bind, get, no_device, raise. cbn. now rewrite Hd.
  - unfold failing_events, attempts_of. cbn. now rewrite String.eqb_refl.
Qed.

(** X17. The upload of a source file that does not exist cannot succeed
    and is retried all the same: [FileNotFoundError] comes out after
    four attempts and three sleeps, without a call of the library. *)
Theorem upload_missing_source (source_path : string) (parent_id : Z)
    (filename : option string) (w : World) :
  device w = true -> host w !! source_path = None ->
  let x := mk_exn FileNotFoundError ("Source file not found: " +:+ source_path) in
  upload source_path parent_id filename w
  = (Raise x, set_rng_pos (3 + rng_pos w) w, failing_events "upload" x (rng_pos w))
  /\ attempts_of "upload" (failing_events "upload" x (rng_pos w)) = 4
  /\ length (sleeps_of (failing_events "upload" x (rng_pos w))) = 3
  /\ device_calls (failing_events "upload" x (rng_pos w)) = [].
Proof.
  intros Hd Hsrc x. split; [|repeat split].
  apply retry_constant_failure; [reflexivity|].
  intros n. unfold upload_body, path_exists, bind, get, ret, raise. cbn.
  rewrite Hd. cbn. rewrite Hsrc. reflexivity.
Qed.

(** ** The ids the client returns *)

Lemma wrapper_loop_value {T} N b excs name (func : M T) (Q : T -> Prop) :
  (forall w v w' t, func w = (Ok v, w', t) -> Q v) ->
  forall fuel k last w v w' t,
    wrapper_loop N b excs name func fuel k last w = Some (Ok v, w', t) -> Q v.
Proof.
  intros Hf. induction fuel as [|fuel IH]; intros k last w v w' t;
    cbn [wrapper_loop].
  - destruct (k <=? N)%Z; [discriminate|]. destruct last; discriminate.
  - destruct (k <=? N)%Z; [|destruct last; discriminate].
    rewrite emit_bind.
    destruct (func w) as [[[v0|x] w1] t1] eqn:Hfw.
    + intros [= <- _ _]. eauto.
    + destruct (isinstance x excs); [|discriminate].
      destruct (k + 1 >? N)%Z; [discriminate|].
      destruct (wrapper_loop N b excs name func fuel (k + 1) (Some x) _)
        as [[[r2 w2] t2]|] eqn:Hrec; [|discriminate].
      cbn. intros [= -> _ _]. eauto.
Qed.

Lemma with_retry_value {T} N b excs name (func : M T) (Q : T -> Prop) :
  (forall w v w' t, func w = (Ok v, w', t) -> Q v) ->
  forall w v w' t, with_retry N b excs name func w = (Ok v, w', t) -> Q v.
Proof.
  intros Hf w v w' t. unfold with_retry.
  destruct (wrapper_loop _ _ _ _ _ _ _ _ _) as [[[r2 w2] t2]|] eqn:Hrun;
    [|discriminate].
  intros [= -> _ _]. eapply wrapper_loop_value; eauto.
Qed.

Lemma c_int_range z : (- 2 ^ 31 <= c_int z < 2 ^ 31)%Z.
Proof. unfold c_int. pose proof (Z.mod_pos_bound (z + 2 ^ 31) (2 ^ 32)). lia. Qed.

Lemma c_uint32_range z : (0 <= c_uint32 z < 2 ^ 32)%Z.
Proof. unfold c_uint32. apply Z.mod_pos_bound. lia. Qed.

Lemma c_int_high z : (2 ^ 31 <= z mod 2 ^ 32)%Z -> (c_int z < 0)%Z.
Proof.
  intros Hz. unfold c_int.
  pose proof (Z.mod_pos_bound z (2 ^ 32) ltac:(lia)) as Hb.
  assert (Hm : ((z + 2 ^ 31) mod 2 ^ 32 = z mod 2 ^ 32 - 2 ^ 31)%Z).
  { symmetry. apply (Z.mod_unique _ _ (z / 2 ^ 32 + 1)); [left; lia|].
    pose proof (Z.div_mod z (2 ^ 32) ltac:(lia)). lia. }
  rewrite Hm. lia.
Qed.

(** X18. The ids the client hands out: [mkdir] returns only ids from 1
    to [2^31 - 1] and [upload] only ids from 0 to [2^32 - 1].  A folder
    id in which the device sets bit 31 reads as a negative [c_int]: the
    attempt is taken for a failure although the library was called. *)
Theorem client_id_ranges :
  (forall parent_id folder_name sid w v w' t,
     mkdir parent_id folder_name sid w = (Ok v, w', t) -> (0 < v < 2 ^ 31)%Z)
  /\ (forall source_path parent_id filename w v w' t,
        upload source_path parent_id filename w = (Ok v, w', t) ->
        (0 <= v < 2 ^ 32)%Z)
  /\ (forall parent_id folder_name sid w r d,
        device w = true ->
        LIBMTP_Create_Folder (dev w) folder_name (c_uint32 parent_id) (c_uint32 sid)
        = (r, d) ->
        (2 ^ 31 <= r mod 2 ^ 32)%Z ->
        mkdir_body parent_id folder_name sid w
        = (Raise (mk_exn RuntimeError ("Failed to create folder: " +:+ folder_name)),
           set_dev d w,
           [EvCreateFolder folder_name parent_id sid (c_int r);
            EvLog (LogMkdirFailed folder_name parent_id)])).
Proof.
  split; [|split].
  - intros parent_id folder_name sid. unfold mkdir.
    apply with_retry_value. intros w v w' t.
    unfold mkdir_body, bind, get, no_device, raise, modify, emit, log, ret. cbn.
    destruct (device w); cbn; [|discriminate].
    destruct (LIBMTP_Create_Folder _ _ _ _) as [res d]. cbn.
    destruct (Z.leb_spec (c_int res) 0); cbn; [discriminate|].
    intros [= <- _ _]. pose proof (c_int_range res). lia.
  - intros source_path parent_id filename. unfold upload.
    apply with_retry_value. intros w v w' t.
    unfold upload_body, path_exists, stat_size, bind, get, no_device, raise,
      modify, emit, log, ret. cbn.
    destruct (device w); cbn; [|discriminate].
    destruct (host w !! source_path) as [[c rd|sz]|] eqn:Hsrc; cbn;
      try discriminate; rewrite Hsrc; cbn;
      match goal with
      | |- context [LIBMTP_Send_File_From_File ?a1 ?a2 ?a3 ?a4 ?a5 ?a6] =>
          destruct (LIBMTP_Send_File_From_File a1 a2 a3 a4 a5 a6) as [[res item] d]
      end; cbn;
      destruct (res =? 0)%Z; cbn; try discriminate;
      intros [= <- _ _]; apply c_uint32_range.
  - intros parent_id folder_name sid w r d Hd Hcall Hr.
    unfold mkdir_body, bind, get, no_device, raise, modify, emit, log, ret. cbn.
    rewrite Hd. cbn. rewrite Hcall. cbn.
    pose proof (c_int_high r Hr).
    destruct (Z.leb_spec (c_int r) 0); [reflexivity | lia].
Qed.

End RetryMore.

(* ===================================================================== *)
(** * Checksums *)
(* ===================================================================== *)

Section ChecksumFacts.
Context {H : Host}.
Variable md5 : string -> string.

Lemma str_take_drop (n : nat) (s : string) : str_take n s +:+ Str.drop n s = s.
Proof.
  revert s. induction n as [|n IH]; intros [|c s]; try reflexivity.
  cbn [str_take Str.drop]. rewrite str_app_cons. now rewrite IH.
Qed.

Lemma str_take_length (n : nat) (s : string) :
  String.length (str_take n s) = Nat.min n (String.length s).
Proof.
  revert s. induction n as [|n IH]; intros [|c s]; try reflexivity.
  cbn [str_take String.length]. rewrite IH. reflexivity.
Qed.

Lemma str_drop_length (n : nat) (s : string) :
  String.length (Str.drop n s) = String.length s - n.
Proof.
  revert s. induction n as [|n IH]; intros [|c s]; try reflexivity.
  cbn [Str.drop String.length]. rewrite IH. reflexivity.
Qed.

Lemma str_drop_drop (n m : nat) (s : string) :
  Str.drop m (Str.drop n s) = Str.drop (n + m) s.
Proof.
  revert s. induction n as [|n IH]; intros s; [reflexivity|].
  destruct s as [|c s]; [destruct m; reflexivity|].
  cbn [Str.drop Nat.add]. apply IH.
Qed.

Lemma str_app_length (a b : string) :
  String.length (a +:+ b) = String.length a + String.length b.
Proof.
  induction a as [|c a IH]; [reflexivity|].
  rewrite str_app_cons. cbn [String.length]. now rewrite IH.
Qed.

Lemma str_empty_length (s : string) : Str.is_empty s = true <-> String.length s = 0.
Proof. destruct s; cbn; split; intros; congruence || lia. Qed.

Lemma str_length_zero (s : string) : String.length s = 0 -> s = "".
Proof. destruct s; [reflexivity | discriminate]. Qed.

Lemma str_drop_take (n : nat) (s : string) :
  Str.drop (String.length (str_take n s)) s = Str.drop n s.
Proof.
  revert s. induction n as [|n IH]; intros [|c s]; try reflexivity.
  cbn [str_take String.length Str.drop]. apply IH.
Qed.

(** One read: what was left is what was read followed by what is left
    now. *)
Lemma fo_data_rest (n : Z) (f : FileObj) :
  fo_rest f
  = fo_data n f
    +:+ fo_rest (mk_FileObj (fo_content f) (fo_pos f + String.length (fo_data n f))).
Proof.
  unfold fo_data, fo_rest. cbn [fo_pos fo_content].
  rewrite <- str_drop_drop.
  destruct (n <? 0)%Z.
  - rewrite str_drop_length.
    set (r := Str.drop (fo_pos f) (fo_content f)).
    replace (Str.drop (String.length (fo_content f) - fo_pos f) r) with "".
    + now rewrite str_app_empty_r.
    + symmetry. apply str_length_zero. rewrite str_drop_length. subst r.
      rewrite str_drop_length. lia.
  - rewrite str_drop_take. symmetry. apply str_take_drop.
Qed.

Lemma fo_data_empty (n : Z) (f : FileObj) :
  (n <> 0)%Z -> fo_data n f = "" -> fo_rest f = "".
Proof.
  unfold fo_data. intros Hn. destruct (Z.ltb_spec n 0); [easy|].
  intros Hd. apply str_length_zero.
  apply (f_equal String.length) in Hd. rewrite str_take_length in Hd.
  cbn in Hd. lia.
Qed.

(** The loop feeds the hash all that was left, whatever the size of
    the chunks, and leaves the file at its end. *)
Lemma hash_loop_spec (buffer_size : Z) :
  (buffer_size <> 0)%Z -> (-1 <= buffer_size)%Z ->
  forall fuel f h,
    String.length (fo_rest f) < fuel ->
    exists f',
      hash_loop fuel f h buffer_size
      = Some (Ok (h_digest h (h_fed h +:+ fo_rest f)), f')
      /\ fo_content f' = fo_content f
      /\ fo_rest f' = "".
Proof.
  intros Hn Hm. induction fuel as [|fuel IH]; intros f h Hfuel; [lia|].
  cbn [hash_loop]. unfold fo_read.
  destruct (Z.ltb_spec buffer_size (-1)); [lia|].
  pose proof (fo_data_rest buffer_size f) as Hrest.
  set (data := fo_data buffer_size f) in *.
  set (f1 := mk_FileObj (fo_content f) (fo_pos f + String.length data)) in *.
  destruct (Str.is_empty data) eqn:Hdata.
  - apply str_empty_length, str_length_zero in Hdata.
    pose proof (fo_data_empty buffer_size f Hn Hdata) as Hr.
    exists f1. split; [|split; [reflexivity|]].
    + unfold h_hexdigest. now rewrite Hr, str_app_empty_r.
    + rewrite Hdata in Hrest. change (fo_rest f = fo_rest f1) in Hrest. congruence.
  - assert (Hlen : String.length data <> 0).
    { intros Hz. apply str_empty_length in Hz. congruence. }
    destruct (IH f1 (h_update data h)) as (f' & Hrun & Hc & Hr).
    { apply (f_equal String.length) in Hrest. rewrite str_app_length in Hrest. lia. }
    exists f'. split; [|split; [exact Hc | exact Hr]].
    rewrite Hrun. cbn [h_update h_digest h_fed].
    now rewrite Hrest, str_app_assoc.
Qed.

(** A chunk size of 0 ends the loop at the first read. *)
Lemma hash_loop_zero fuel f h :
  hash_loop (S fuel) f h 0
  = Some (Ok (h_hexdigest h), mk_FileObj (fo_content f) (fo_pos f + 0)).
Proof. reflexivity. Qed.

(** A chunk size below -1 is refused by the first read. *)
Lemma hash_loop_refused fuel f h n :
  (n < -1)%Z ->
  hash_loop (S fuel) f h n
  = Some (Raise (mk_exn ValueError "read length must be non-negative or -1"), f).
Proof.
  intros Hn. cbn [hash_loop]. unfold fo_read.
  destruct (Z.ltb_spec n (-1)); [reflexivity | lia].
Qed.

End ChecksumFacts.

Section ChecksumTheorems.
Context {H : Host}.
Variable md5 : string -> string.

Lemma calculate_hash_spec (f : FileObj) (h : HashObj) (buffer_size : Z) :
  exists f',
    _calculate_hash f h buffer_size
    = Some (read_outcome buffer_size (h_digest h) (h_fed h) (fo_rest f), f')
    /\ fo_content f' = fo_content f.
Proof.
  unfold _calculate_hash, hash_fuel, read_outcome.
  destruct (Z.ltb_spec buffer_size (-1)) as [Hlow|Hm].
  { rewrite hash_loop_refused by exact Hlow. eexists. split; reflexivity. }
  destruct (Z.eqb_spec buffer_size 0) as [->|Hn].
  - rewrite hash_loop_zero. rewrite str_app_empty_r. eexists. split; reflexivity.
  - destruct (hash_loop_spec buffer_size Hn Hm (S (String.length (fo_rest f))) f h)
      as (f' & Hrun & Hc & _); [lia|].
    exists f'. split; [exact Hrun | exact Hc].
Qed.

(** X23. The size of the chunks does not show in the checksum: for every
    [buffer_size] from -1 on other than 0, [calculate_checksum] gives
    the digest of the whole content of the file, which is what the
    comparisons of the engine rely on.  With a [buffer_size] of 0 the
    first read is empty and the result is the digest of the empty
    input, whatever the file holds; a [buffer_size] below -1 is refused
    by the reader with a [ValueError].  Any [algorithm] other than
    ["md5"] is SHA-256. *)
Theorem calculate_checksum_chunks (file_path algorithm : string)
    (buffer_size : Z) (w : World) :
  calculate_checksum_of md5 file_path algorithm buffer_size w
  = (c <- open_read file_path ;;
     match read_outcome buffer_size
             (if String.eqb algorithm "md5" then md5 else hexdigest) "" c with
     | Ok digest => ret digest
     | Raise x => reraise x
     end) w
  /\ calculate_checksum_of md5 file_path "sha256" 65536 w
     = calculate_checksum file_path w.
Proof.
  assert (Hgen : forall alg n,
    calculate_checksum_of md5 file_path alg n w
    = (c <- open_read file_path ;;
       match read_outcome n (if String.eqb alg "md5" then md5 else hexdigest) "" c with
       | Ok digest => ret digest
       | Raise x => reraise x
       end) w).
  { intros alg n. unfold calculate_checksum_of, bind.
    destruct (open_read file_path w) as [[[c|x] w1] t1]; [|reflexivity].
    destruct (calculate_hash_spec (mk_FileObj c 0) (new_hash md5 alg) n)
      as (f' & -> & _).
    unfold new_hash, fo_rest. destruct (String.eqb alg "md5"); reflexivity. }
  split; [apply Hgen|]. rewrite Hgen. reflexivity.
Qed.

(** X24. [calculate_checksum_from_fileobj] hashes the file object from
    its start, wherever its position is, and puts the position back on
    every way out: whether the digest (of the whole content, for a
    [buffer_size] from -1 on other than 0) is returned or the read
    raises, the file object is left as it was given. *)
Theorem checksum_from_fileobj_restores (fileobj : FileObj) (algorithm : string)
    (buffer_size : Z) :
  calculate_checksum_from_fileobj md5 fileobj algorithm buffer_size
  = Some (read_outcome buffer_size
            (if String.eqb algorithm "md5" then md5 else hexdigest) ""
            (fo_content fileobj),
          fileobj).
Proof.
  unfold calculate_checksum_from_fileobj.
  destruct (calculate_hash_spec (fo_seek 0 fileobj) (new_hash md5 algorithm) buffer_size)
    as (f' & -> & Hc).
  unfold fo_seek, fo_tell, fo_rest in *. cbn [fo_content fo_pos] in *.
  rewrite Hc. destruct fileobj as [c p]. cbn [fo_content fo_pos Str.drop].
  unfold new_hash. destruct (String.eqb algorithm "md5"); reflexivity.
Qed.

Lemma batch_lookup (completed : list string) (w : World) :
  forall (results : gmap string (option string)) (p : string),
  fold_left (fun results path => <[path := checksum_or_none w path]> results)
    completed results !! p
  = if bool_decide (p ∈ completed) then Some (checksum_or_none w p)
    else results !! p.
Proof.
  induction completed as [|q completed IH]; intros results p; cbn [fold_left].
  - rewrite bool_decide_eq_false_2; [reflexivity | apply not_elem_of_nil].
  - rewrite IH.
    destruct (decide (p ∈ completed)) as [Hin|Hnin].
    + rewrite !bool_decide_eq_true_2; [reflexivity | now right | exact Hin].
    + rewrite (bool_decide_eq_false_2 _ Hnin).
      destruct (decide (p = q)) as [->|Hne].
      * rewrite bool_decide_eq_true_2 by now left. apply lookup_insert_eq.
      * rewrite bool_decide_eq_false_2.
        -- now apply lookup_insert_ne.
        -- intros Hin. apply elem_of_cons in Hin as [?|?]; contradiction.
Qed.

(** X25. The result of [batch_calculate_checksums] does not depend on
    the order in which the pool completes the tasks: it maps every path
    of the list, and no other, to its checksum, or to [None] when the
    file cannot be read; an unreadable file stops nothing. *)
Theorem batch_checksums_any_order (file_paths completed : list string) (w : World) :
  completed ≡ₚ file_paths ->
  batch_calculate_checksums completed w = batch_calculate_checksums file_paths w
  /\ forall p,
       batch_calculate_checksums completed w !! p
       = if bool_decide (p ∈ file_paths) then Some (checksum_or_none w p) else None.
Proof.
  intros Hperm.
  assert (Hl : forall p,
    batch_calculate_checksums completed w !! p
    = if bool_decide (p ∈ file_paths) then Some (checksum_or_none w p) else None).
  { intros p. unfold batch_calculate_checksums. rewrite batch_lookup.
    rewrite lookup_empty.
    destruct (decide (p ∈ file_paths)) as [Hin|Hnin].
    - rewrite !bool_decide_eq_true_2; [reflexivity | exact Hin | now rewrite Hperm].
    - rewrite !bool_decide_eq_false_2; [reflexivity | exact Hnin | now rewrite Hperm]. }
  split; [|exact Hl].
  apply map_eq. intros p. rewrite Hl.
  unfold batch_calculate_checksums. rewrite batch_lookup, lookup_empty. reflexivity.
Qed.

End ChecksumTheorems.

(* ===================================================================== *)
(** * The index of the device *)
(* ===================================================================== *)

Section TreeFacts.
Context {H : Host} {L : Listing H}.

Lemma folder_induction (P : LIBMTP_folder_struct -> Prop) :
  (forall folder_id parent_id storage_id name sibling child,
     (forall s, sibling = Some s -> P s) ->
     (forall c, child = Some c -> P c) ->
     P (mk_folder folder_id parent_id storage_id name sibling child)) ->
  forall folder, P folder.
Proof.
  intros Hstep. fix IH 1. intros [folder_id parent_id storage_id name sibling child].
  apply Hstep.
  - intros s Hs. destruct sibling as [s'|]; [|discriminate].
    injection Hs as <-. apply IH.
  - intros c Hc. destruct child as [c'|]; [|discriminate].
    injection Hc as <-. apply IH.
Qed.

Lemma heap_grown_refl w : heap_grown w w.
Proof. unfold heap_grown. repeat split; reflexivity. Qed.

Lemma heap_grown_trans a b c : heap_grown a b -> heap_grown b c -> heap_grown a c.
Proof.
  unfold heap_grown.
  intros (A1 & A2 & A3 & A4 & A5 & A6 & A7 & A8) (B1 & B2 & B3 & B4 & B5 & B6 & B7 & B8).
  repeat split; try congruence. etrans; eassumption.
Qed.

Lemma alloc_run (n : Node) (w : World) :
  exists a,
    alloc n w = (Ok a, set_heap (fun h => <[a := n]> h) w, [])
    /\ heap w !! a = None.
Proof.
  unfold alloc, bind, get, modify, ret. cbn.
  exists (fresh (dom (heap w))). split; [reflexivity|].
  apply not_elem_of_dom. apply is_fresh.
Qed.

Lemma entries_are_folders_grown w w' im :
  heap w ⊆ heap w' -> entries_are_folders w im -> entries_are_folders w' im.
Proof.
  intros Hsub Him k entry Hin. destruct (Him k entry Hin) as (i & ch & Hh).
  exists i, ch. exact (lookup_weaken _ _ _ _ Hh Hsub).
Qed.

Lemma intdict_set_in {V} (k k' : Z) (v v' : V) (d : IntDict.t V) :
  In (k, v) (IntDict.set k' v' d) -> (k, v) = (k', v') \/ In (k, v) d.
Proof.
  induction d as [|[a b] d IH]; cbn.
  - intros [Heq|[]]. left. congruence.
  - destruct (a =? k')%Z; cbn.
    + intros [Heq|Hin]; [left; congruence | right; now right].
    + intros [Heq|Hin]; [right; now left|].
      destruct (IH Hin) as [?|?]; [now left | right; now right].
Qed.

Lemma intdict_set_nonempty {V} (k : Z) (v : V) (d : IntDict.t V) :
  IntDict.set k v d <> [].
Proof. destruct d as [|[a b] d]; cbn; [|destruct (a =? k)%Z]; discriminate. Qed.

(** What [_process_folders] does on a folder record. *)
Lemma process_folder_run (folder : LIBMTP_folder_struct) :
  forall path_map id_map current_path w,
  exists path_map' id_map' w',
    process_folder folder path_map id_map current_path w
    = (Ok (path_map', id_map'), w', [])
    /\ heap_grown w w'
    /\ (entries_are_folders w id_map -> entries_are_folders w' id_map')
    /\ (id_map <> [] -> id_map' <> [])
    /\ (names_a_folder folder = true -> id_map' <> [])
    /\ (names_a_folder folder = false ->
        path_map' = path_map /\ id_map' = id_map /\ w' = w).
Proof.
  induction folder as [folder_id parent_id storage_id name sibling child IHs IHc]
    using folder_induction.
  intros pm im cp w. cbn [process_folder names_a_folder].
  (* the record itself *)
  assert (Hstep : exists new_path pm1 im1 w1,
    register_folder (c_uint32 folder_id) (c_uint32 parent_id) name pm im cp w
    = (Ok (new_path, pm1, im1), w1, [])
    /\ heap_grown w w1
    /\ (entries_are_folders w im -> entries_are_folders w1 im1)
    /\ (im <> [] -> im1 <> [])
    /\ ((c_uint32 folder_id =? 0)%Z = false -> im1 <> [])
    /\ ((c_uint32 folder_id =? 0)%Z = true -> pm1 = pm /\ im1 = im /\ w1 = w)).
  { unfold register_folder.
    destruct (c_uint32 folder_id =? 0)%Z eqn:Hid.
    - exists cp, pm, im, w. split; [reflexivity|].
      split; [apply heap_grown_refl|]. repeat split; auto; try discriminate.
    - cbv zeta. unfold bind at 1.
      destruct (alloc_run (FolderNode (c_uint32 folder_id) ∅) w) as (a & -> & Hfresh).
      eexists _, _, _, _. split; [reflexivity|].
      assert (Hsub : heap w ⊆ <[a := FolderNode (c_uint32 folder_id) ∅]> (heap w))
        by now apply insert_subseteq.
      split; [unfold heap_grown; cbn; repeat split; auto|].
      split; [|split; [|split]].
      + intros Him k entry Hin.
        apply intdict_set_in in Hin as [[= -> ->]|Hin].
        * cbn. exists (c_uint32 folder_id), ∅. apply lookup_insert_eq.
        * destruct (Him k entry Hin) as (i & ch & Hh). exists i, ch. cbn.
          exact (lookup_weaken _ _ _ _ Hh Hsub).
      + intros _. apply intdict_set_nonempty.
      + intros _. apply intdict_set_nonempty.
      + discriminate. }
  destruct Hstep as (new_path & pm1 & im1 & w1 & Hrun1 & Hg1 & He1 & Hn1 & Hid1 & Hz1).
  unfold bind at 1. rewrite Hrun1. cbn [app].
  (* the children *)
  assert (Hchild : exists pm2 im2 w2,
    match child with
    | Some c => process_folder c pm1 im1 new_path
    | None => ret (pm1, im1)
    end w1 = (Ok (pm2, im2), w2, [])
    /\ heap_grown w1 w2
    /\ (entries_are_folders w1 im1 -> entries_are_folders w2 im2)
    /\ (im1 <> [] -> im2 <> [])
    /\ (match child with Some c => names_a_folder c | None => false end = true ->
        im2 <> [])
    /\ (match child with Some c => names_a_folder c | None => false end = false ->
        pm2 = pm1 /\ im2 = im1 /\ w2 = w1)).
  { destruct child as [c|].
    - destruct (IHc c eq_refl pm1 im1 new_path w1)
        as (pm2 & im2 & w2 & Hrun & Hg & He & Hn & Ht & Hf).
      exists pm2, im2, w2.
      exact (conj Hrun (conj Hg (conj He (conj Hn (conj Ht Hf))))).
    - exists pm1, im1, w1. split; [reflexivity|].
      split; [apply heap_grown_refl|]. repeat split; auto; try discriminate. }
  destruct Hchild as (pm2 & im2 & w2 & Hrun2 & Hg2 & He2 & Hn2 & Ht2 & Hf2).
  unfold bind at 1. rewrite Hrun2. cbn [app].
  (* the siblings *)
  assert (Hsib : exists pm3 im3 w3,
    match sibling with
    | Some s => process_folder s pm2 im2 cp
    | None => ret (pm2, im2)
    end w2 = (Ok (pm3, im3), w3, [])
    /\ heap_grown w2 w3
    /\ (entries_are_folders w2 im2 -> entries_are_folders w3 im3)
    /\ (im2 <> [] -> im3 <> [])
    /\ (match sibling with Some s => names_a_folder s | None => false end = true ->
        im3 <> [])
    /\ (match sibling with Some s => names_a_folder s | None => false end = false ->
        pm3 = pm2 /\ im3 = im2 /\ w3 = w2)).
  { destruct sibling as [s|].
    - destruct (IHs s eq_refl pm2 im2 cp w2)
        as (pm3 & im3 & w3 & Hrun & Hg & He & Hn & Ht & Hf).
      exists pm3, im3, w3.
      exact (conj Hrun (conj Hg (conj He (conj Hn (conj Ht Hf))))).
    - exists pm2, im2, w2. split; [reflexivity|].
      split; [apply heap_grown_refl|]. repeat split; auto; try discriminate. }
  destruct Hsib as (pm3 & im3 & w3 & Hrun3 & Hg3 & He3 & Hn3 & Ht3 & Hf3).
  rewrite Hrun3.
  exists pm3, im3, w3. split; [reflexivity|].
  split; [eapply heap_grown_trans; [eapply heap_grown_trans|]; eassumption|].
  split; [auto|]. split; [auto|]. split.
  - intros Hany. apply orb_true_iff in Hany as [Hany|Hany];
      [apply orb_true_iff in Hany as [Hany|Hany]|].
    + apply negb_true_iff in Hany. auto.
    + auto.
    + auto.
  - intros Hnone. apply orb_false_iff in Hnone as [Hnone Hs].
    apply orb_false_iff in Hnone as [Hid Hc]. apply negb_false_iff in Hid.
    destruct (Hz1 Hid) as (-> & -> & ->).
    destruct (Hf2 Hc) as (-> & -> & ->).
    destruct (Hf3 Hs) as (-> & -> & ->). auto.
Qed.

End TreeFacts.

Section TreeTheorems.
Context {H : Host} {L : Listing H}.

(** The loop of [build_file_tree] stops in its first round. *)
Lemma files_loop_raises (storage_id : Z) (id_map : IntDict.t IDEntry) (w : World) :
  id_map <> [] -> entries_are_folders w id_map ->
  exists d,
    files_loop storage_id (IntDict.keys id_map) id_map w
    = (Raise files_unbound, set_dev d w, []).
Proof.
  destruct id_map as [|[k entry] rest]; [contradiction|]. intros _ Him.
  destruct (Him k entry) as (i & ch & Hh); [now left|].
  cbn [IntDict.keys map fst files_loop IntDict.get].
  rewrite Z.eqb_refl. cbn [default]. unfold bind at 1, get. cbn.
  unfold deref. rewrite Hh. cbn [default].
  unfold _get_files_in_folder, bind, get, unbound, raise, modify, ret. cbn.
  destruct (LIBMTP_Get_Files_And_Folders _ _ _) as [files d]. cbn.
  exists d. reflexivity.
Qed.

(** X19. [build_file_tree] never leaves an index with an entry: when it
    returns, both maps are empty, those it returns and those of the
    client; when it raises, the maps of the client are what they were.
    As soon as the folder listing of the device holds a folder with an
    id other than 0, it raises: line 311 reads [files], a name that
    nothing binds. *)
Theorem build_file_tree_outcome (storage_id : Z) (base_path : string) (w : World) :
  exists r w',
    build_file_tree storage_id base_path w = (r, w', [])
    /\ match r with
       | Ok (path_map', id_map') =>
           path_map' = ∅ /\ id_map' = [] /\ path_map w' = ∅ /\ id_map w' = ∅
       | Raise x => path_map w' = path_map w /\ id_map w' = id_map w
       end
    /\ (device w = true ->
        forall tree,
          fst (LIBMTP_Get_Folder_List_For_Storage (dev w) (c_uint32 storage_id))
          = Some tree ->
          names_a_folder tree = true ->
          r = Raise files_unbound).
Proof.
  unfold build_file_tree, bind at 1, get. cbn.
  destruct (device w) eqn:Hdev; cbn.
  2: { eexists _, _. split; [reflexivity|]. split; [split; reflexivity|]. discriminate. }
  unfold _get_folder_list, bind at 1, get. cbn.
  destruct (LIBMTP_Get_Folder_List_For_Storage (dev w) (c_uint32 storage_id))
    as [folders d] eqn:Hlist. cbn.
  set (w0 := set_dev d w).
  assert (Hproc : exists pm im w1,
    _process_folders folders ∅ [] base_path w0 = (Ok (pm, im), w1, [])
    /\ heap_grown w0 w1 /\ entries_are_folders w1 im
    /\ (forall tree, folders = Some tree -> names_a_folder tree = true -> im <> [])
    /\ (im = [] -> pm = ∅)).
  { destruct folders as [tree|]; cbn [_process_folders].
    - destruct (process_folder_run tree ∅ [] base_path w0)
        as (pm & im & w1 & Hrun & Hg & He & _ & Ht & Hf).
      exists pm, im, w1. split; [exact Hrun|]. split; [exact Hg|].
      split; [apply He; intros k entry []|]. split.
      + intros tree' [= <-]. exact Ht.
      + intros Him. destruct (names_a_folder tree) eqn:Hn.
        * now destruct (Ht eq_refl).
        * now destruct (Hf eq_refl).
    - exists ∅, [], w0. split; [reflexivity|]. split; [apply heap_grown_refl|].
      split; [intros k entry []|]. split; [discriminate | reflexivity]. }
  destruct Hproc as (pm & im & w1 & Hrun & Hg & He & Ht & Hpm).
  unfold bind at 1. rewrite Hrun. cbn [app].
  destruct Hg as (G1 & G2 & _).
  destruct im as [|kv im'].
  - cbn [IntDict.keys map files_loop]. rewrite (Hpm eq_refl).
    unfold bind, modify, ret. cbn.
    eexists _, _. split; [reflexivity|]. split; [repeat split|].
    intros _ tree Htree Hn. cbn in Htree. subst folders.
    now destruct (Ht tree eq_refl Hn).
  - destruct (files_loop_raises storage_id (kv :: im') w1) as [d' Hloop];
      [discriminate | exact He |].
    unfold bind at 1. rewrite Hloop.
    eexists _, _. split; [reflexivity|]. split; [|reflexivity].
    cbn. rewrite G1, G2. split; reflexivity.
Qed.

Lemma intdict_keys_set {V} (k k' : Z) (v : V) (d : IntDict.t V) :
  In k (IntDict.keys (IntDict.set k' v d)) <-> k = k' \/ In k (IntDict.keys d).
Proof.
  induction d as [|[a b] d IH]; cbn.
  - split; [intros [?|[]]; auto | intros [?|[]]; auto].
  - destruct (Z.eqb_spec a k') as [->|Hne]; cbn.
    + intuition congruence.
    + rewrite IH. intuition congruence.
Qed.

(** X21. [_process_files] registers the files of a listing by id and as
    children of their folder, and nowhere else: the path index is not
    touched.  The records of type folder are passed over; every other
    record puts its id among the keys of [id_map]; nothing is raised or
    emitted. *)
Theorem process_files_by_id_only (file_ptr : list LIBMTP_file_struct)
    (parent_folder : addr) (parent_path : string) :
  forall (im : IntDict.t IDEntry) (w : World),
  exists im' w',
    _process_files file_ptr parent_folder im parent_path w = (Ok im', w', [])
    /\ path_map w' = path_map w /\ id_map w' = id_map w
    /\ (forall k, In k (IntDict.keys im') <->
                  In k (IntDict.keys im)
                  \/ exists file, In file file_ptr
                                  /\ c_uint32 (filetype file) <> LIBMTP_FILETYPE_FOLDER
                                  /\ k = c_uint32 (item_id file)).
Proof.
  induction file_ptr as [|file next IH]; intros im w.
  - exists im, w. split; [reflexivity|]. repeat split; auto.
    intros [?|(f & [] & _)]. assumption.
  - cbn [_process_files].
    destruct (Z.eqb_spec (c_uint32 (filetype file)) LIBMTP_FILETYPE_FOLDER) as [Hty|Hty].
    + destruct (IH im w) as (im' & w' & Hrun & Hp & Hi & Hk).
      exists im', w'. split; [exact Hrun|]. split; [exact Hp|]. split; [exact Hi|].
      intros k. rewrite Hk. split.
      * intros [?|(f & Hf & Hft & ->)]; [now left|]. right. exists f.
        split; [now right | auto].
      * intros [?|(f & [<-|Hf] & Hft & ->)]; [now left | contradiction|].
        right. exists f. auto.
    + unfold bind at 1.
      destruct (alloc_run (FileNode (c_uint32 (item_id file))
                             (c_uint64 (filesize file))) w) as (a & -> & _).
      unfold bind at 1, modify at 1. cbn [app].
      match goal with
      | |- context [_process_files next parent_folder ?im1 parent_path ?w1] =>
          destruct (IH im1 w1) as (im' & w' & Hrun & Hp & Hi & Hk)
      end.
      rewrite Hrun. exists im', w'. split; [reflexivity|].
      split; [exact Hp|]. split; [exact Hi|].
      intros k. rewrite Hk, intdict_keys_set. split.
      * intros [[->|?]|(f & Hf & Hft & ->)].
        -- right. exists file. split; [now left | auto].
        -- now left.
        -- right. exists f. split; [now right | auto].
      * intros [?|(f & [<-|Hf] & Hft & ->)].
        -- left. now right.
        -- left. now left.
        -- right. exists f. auto.
Qed.

(** X22. [close] releases the device once: a second [close] calls
    nothing and changes nothing, and from then on the client has no
    device, so that a download raises "No device connected" (after its
    retries).  The maps of the client and the host are left alone. *)
Theorem close_once (w : World) :
  exists w',
    close w = (Ok tt, w', [])
    /\ device w' = false
    /\ close w' = (Ok tt, w', [])
    /\ dev w' = (if device w then LIBMTP_Release_Device (dev w) else dev w)
    /\ path_map w' = path_map w /\ id_map w' = id_map w /\ host w' = host w
    /\ (forall file_id target_path,
          result_of (download file_id target_path w') = Raise no_device_error).
Proof.
  assert (Hoff : forall w0 file_id target_path,
    device w0 = false ->
    result_of (download file_id target_path w0) = Raise no_device_error).
  { intros w0 file_id target_path Hd. unfold download.
    rewrite (retry_constant_failure "download" _ no_device_error w0);
      [reflexivity | reflexivity |].
    intros n. unfold download_body, bind, get, no_device, raise. cbn.
    now rewrite Hd. }
  unfold close, bind, get, modify, ret. cbn.
  destruct (device w) eqn:Hd; cbn.
  - eexists. split; [reflexivity|]. cbn. do 6 (split; [reflexivity|]).
    intros. now apply Hoff.
  - exists w. rewrite Hd. do 7 (split; [reflexivity|]).
    intros. now apply Hoff.
Qed.

End TreeTheorems.

Section TreePaths.
Context {H : Host} {L : Listing H}.

Lemma prefix_app (a b : string) : String.prefix a (a +:+ b) = true.
Proof.
  induction a as [|c a IH]; [destruct b; reflexivity|].
  rewrite str_app_cons. cbn -[ascii_dec]. destruct (ascii_dec c c); [exact IH | contradiction].
Qed.

Lemma prefix_trans (a b c : string) :
  String.prefix a b = true -> String.prefix b c = true -> String.prefix a c = true.
Proof.
  revert b c. induction a as [|x a IH]; intros b c; [destruct c; reflexivity|].
  destruct b as [|y b]; [discriminate|]. destruct c as [|z c]; [discriminate|].
  cbn -[ascii_dec].
  destruct (ascii_dec x y) as [->|]; [|discriminate].
  destruct (ascii_dec y z) as [->|]; [|discriminate].
  destruct (ascii_dec z z); [|contradiction]. apply IH.
Qed.

Lemma register_folder_paths folder_id parent_id name pm im cp w new_path pm1 im1 w1 t :
  register_folder folder_id parent_id name pm im cp w
  = (Ok (new_path, pm1, im1), w1, t) ->
  Str.startswith cp new_path = true
  /\ (forall p, is_Some (pm1 !! p) -> is_Some (pm !! p) \/ Str.startswith cp p = true)
  /\ (forall k, In k (IntDict.keys im1) -> In k (IntDict.keys im) \/ k <> 0%Z).
Proof.
  unfold register_folder, Str.startswith.
  destruct (Z.eqb_spec folder_id 0) as [->|Hid].
  - intros [= <- <- <- _ _]. split; [|split; auto].
    rewrite <- (str_app_empty_r cp) at 2. apply prefix_app.
  - cbv zeta. unfold bind at 1.
    destruct (alloc_run (FolderNode folder_id ∅) w) as (a & -> & _).
    intros [= <- <- <- _ _].
    assert (Hpre : String.prefix cp
                     (if Str.endswith "/" cp
                      then cp +:+ match name with Some n => n | None => "" end
                      else cp +:+ "/" +:+ match name with Some n => n | None => "" end)
                   = true)
      by (destruct (Str.endswith "/" cp); apply prefix_app).
    split; [exact Hpre|]. split.
    + intros p Hp. apply lookup_insert_is_Some in Hp as [<-|[_ Hp]]; auto.
    + intros k Hk. apply intdict_keys_set in Hk as [->|Hk]; auto.
Qed.

Lemma process_folder_paths (folder : LIBMTP_folder_struct) :
  forall pm im cp w pm' im' w' t,
    process_folder folder pm im cp w = (Ok (pm', im'), w', t) ->
    (forall p, is_Some (pm' !! p) -> is_Some (pm !! p) \/ Str.startswith cp p = true)
    /\ (forall k, In k (IntDict.keys im') -> In k (IntDict.keys im) \/ k <> 0%Z).
Proof.
  induction folder as [folder_id parent_id storage_id name sibling child IHs IHc]
    using folder_induction.
  intros pm im cp w pm' im' w' t. cbn [process_folder].
  unfold bind at 1.
  destruct (register_folder _ _ _ _ _ _ _) as [[[[[new_path pm1] im1]|x] w1] t1] eqn:Hreg;
    [|discriminate].
  destruct (register_folder_paths _ _ _ _ _ _ _ _ _ _ _ _ Hreg) as (Hpre & Hp1 & Hk1).
  unfold bind at 1.
  assert (Hchild : forall pm2 im2 w2 t2,
    match child with
    | Some c => process_folder c pm1 im1 new_path
    | None => ret (pm1, im1)
    end w1 = (Ok (pm2, im2), w2, t2) ->
    (forall p, is_Some (pm2 !! p) -> is_Some (pm !! p) \/ Str.startswith cp p = true)
    /\ (forall k, In k (IntDict.keys im2) -> In k (IntDict.keys im) \/ k <> 0%Z)).
  { intros pm2 im2 w2 t2. destruct child as [c|].
    - intros Hrun. destruct (IHc c eq_refl _ _ _ _ _ _ _ _ Hrun) as [Hp Hk]. split.
      + intros p Hin. destruct (Hp p Hin) as [Hin1|Hpre2]; [auto|].
        right. exact (prefix_trans _ _ _ Hpre Hpre2).
      + intros k Hin. destruct (Hk k Hin); auto.
    - intros [= <- <- _ _]. auto. }
  set (mc := match child with
             | Some c => process_folder c pm1 im1 new_path
             | None => ret (pm1, im1)
             end) in *.
  destruct (mc w1) as [[[[pm2 im2]|x] w2] t2] eqn:Hc; [|discriminate].
  destruct (Hchild _ _ _ _ eq_refl) as [Hp2 Hk2].
  destruct sibling as [s|].
  - destruct (process_folder s pm2 im2 cp w2) as [[rs ws] ts] eqn:Hs.
    intros [= -> _ _].
    destruct (IHs s eq_refl _ _ _ _ _ _ _ _ Hs) as [Hp Hk]. split.
    + intros p Hin. destruct (Hp p Hin); auto.
    + intros k Hin. destruct (Hk k Hin); auto.
  - intros [= <- <- _ _]. auto.
Qed.

(** X20. [_process_folders] puts the folders of a listing under
    [current_path] and never registers the id 0: every path it adds to
    the path dictionary begins with [current_path], every id it adds to
    the id dictionary is other than 0, and the maps of the client are
    left alone.  It raises and emits nothing. *)
Theorem process_folders_under_base (folder_ptr : option LIBMTP_folder_struct)
    (pm : gmap string addr) (im : IntDict.t IDEntry) (current_path : string)
    (w : World) :
  exists pm' im' w',
    _process_folders folder_ptr pm im current_path w = (Ok (pm', im'), w', [])
    /\ path_map w' = path_map w /\ id_map w' = id_map w
    /\ (forall p, is_Some (pm' !! p) ->
                  is_Some (pm !! p) \/ Str.startswith current_path p = true)
    /\ (forall k, In k (IntDict.keys im') -> In k (IntDict.keys im) \/ k <> 0%Z).
Proof.
  destruct folder_ptr as [folder|]; cbn [_process_folders].
  - destruct (process_folder_run folder pm im current_path w)
      as (pm' & im' & w' & Hrun & (G1 & G2 & _) & _).
    destruct (process_folder_paths folder _ _ _ _ _ _ _ _ Hrun) as [Hp Hk].
    exists pm', im', w'. auto 6.
  - exists pm, im, w. repeat split; auto.
Qed.

End TreePaths.

(* ===================================================================== *)
(** * The place of the retry plan (C3) *)
(* ===================================================================== *)

Section PlaceFacts.
Context {H : Host}.

Lemma slash_free_app (a b : string) :
  slash_free (a +:+ b) = slash_free a && slash_free b.
Proof.
  induction a as [|c a IH]; [reflexivity|].
  rewrite str_app_cons. cbn [slash_free]. rewrite IH. now rewrite andb_assoc.
Qed.

Lemma split_slash_free (s : string) :
  slash_free s = true -> Str.split "/" s = [s].
Proof.
  induction s as [|c s IH]; [reflexivity|].
  cbn [slash_free Str.split]. intros [Hc Hs]%andb_prop.
  apply negb_true_iff in Hc. rewrite Hc, (IH Hs). reflexivity.
Qed.

Lemma startswith_slash_free (s : string) :
  slash_free s = true -> Str.startswith "/" s = false.
Proof.
  destruct s as [|c s]; [reflexivity|].
  cbn [slash_free]. intros [Hc _]%andb_prop. apply negb_true_iff in Hc.
  unfold Str.startswith. cbn -[ascii_dec].
  destruct (ascii_dec "/" c) as [<-|Hne]; [discriminate Hc|reflexivity].
Qed.

Lemma basename_slash_free (name : string) :
  slash_free (PosixPath.basename name) = true.
Proof.
  unfold PosixPath.basename.
  induction name as [|d p IH]; [reflexivity|].
  cbn [Str.rpartition]. destruct (Str.rpartition PosixPath.sep p) as [h t].
  cbn [snd] in IH.
  destruct h as [|x h]; [|exact IH].
  destruct (Ascii.eqb d PosixPath.sep) eqn:Hd; [exact IH|].
  cbn [snd slash_free]. unfold PosixPath.sep in Hd. now rewrite Hd, IH.
Qed.

(** The last slash of a path cuts it in one way only. *)
Lemma app_slash_inj (a b x y : string) :
  slash_free x = true -> slash_free y = true ->
  a +:+ "/" +:+ x = b +:+ "/" +:+ y -> a = b /\ x = y.
Proof.
  assert (Hno : forall u v, slash_free (u +:+ "/" +:+ v) = true -> False).
  { intros u v Hs. rewrite slash_free_app in Hs.
    change ("/" +:+ v) with (String "/" v) in Hs. cbn [slash_free] in Hs.
    rewrite Ascii.eqb_refl in Hs. cbn in Hs.
    now rewrite andb_false_r in Hs. }
  intros Hx Hy. revert b.
  induction a as [|c a IH]; intros b Heq.
  - destruct b as [|d b].
    + change (String "/" x = String "/" y) in Heq.
      injection Heq as ->. now split.
    + change (String "/" x = String d (b +:+ "/" +:+ y)) in Heq.
      injection Heq as <- ->. destruct (Hno _ _ Hx).
  - destruct b as [|d b].
    + change (String c (a +:+ "/" +:+ x) = String "/" y) in Heq.
      injection Heq as -> <-. destruct (Hno _ _ Hy).
    + rewrite !str_app_cons in Heq. injection Heq as -> Heq.
      destruct (IH _ Heq) as [-> ->]. now split.
Qed.

Lemma app_inv_tail (a b c : string) : a +:+ c = b +:+ c -> a = b.
Proof.
  revert b. induction a as [|x a IH]; intros b Heq.
  - destruct b as [|y b]; [reflexivity|].
    apply (f_equal String.length) in Heq.
    rewrite !str_app_length in Heq. cbn in Heq. lia.
  - destruct b as [|y b].
    + apply (f_equal String.length) in Heq.
      rewrite !str_app_length in Heq. cbn in Heq. lia.
    + rewrite !str_app_cons in Heq. injection Heq as -> Heq.
      now rewrite (IH _ Heq).
Qed.

(** The retry directory, spelled out. *)
Lemma retry_dir_spelled :
  exists base, RETRY_DIR = base +:+ ".execution_retry".
Proof.
  unfold RETRY_DIR, PathLib.joinpath. cbn.
  destruct (Str.endswith "/" DATA_DIR).
  - exists DATA_DIR. reflexivity.
  - exists (DATA_DIR +:+ "/"). rewrite str_app_assoc. reflexivity.
Qed.

Lemma retry_plan_location_spelled (token : string) :
  slash_free token = true ->
  retry_plan_location token = RETRY_DIR +:+ "/" +:+ (token +:+ ".json").
Proof.
  intros Ht. unfold retry_plan_location, PathLib.joinpath, PathLib.parts.
  assert (Hs : slash_free (token +:+ ".json") = true)
    by (rewrite slash_free_app, Ht; reflexivity).
  rewrite (startswith_slash_free _ Hs), (split_slash_free _ Hs).
  cbn [List.filter].
  assert (Hne : (String.eqb (token +:+ ".json") ""
                 || String.eqb (token +:+ ".json") ".") = false).
  { apply orb_false_intro; apply String.eqb_neq; intros Heq;
      apply (f_equal String.length) in Heq;
      rewrite str_app_length in Heq; cbn in Heq; lia. }
  rewrite Hne. cbn [negb Str.join].
  destruct retry_dir_spelled as [base ->].
  rewrite endswith_char_app by discriminate.
  change (Str.endswith "/" ".execution_retry") with false. cbv iota.
  now rewrite str_app_assoc.
Qed.

Lemma temp_place_spelled (q : string) :
  temp_place q ->
  exists a b, q = a +:+ "/" +:+ b /\ slash_free b = true
              /\ String.length a <= 12.
Proof.
  intros [name ->]. pose proof (basename_slash_free name) as Hb.
  set (b := PosixPath.basename name) in *.
  unfold PathLib.joinpath, PathLib.parts.
  rewrite (startswith_slash_free _ Hb), (split_slash_free _ Hb).
  cbn [List.filter].
  destruct (negb (String.eqb b "" || String.eqb b ".")).
  - exists TEMP_DIR, b. repeat split; [exact Hb | cbn; lia].
  - exists "/tmp", "mtpsync". repeat split. cbn. lia.
Qed.

(** A retry plan is never at a scratch place. *)
Lemma retry_plan_not_temp (token : string) :
  slash_free token = true -> ~ temp_place (retry_plan_location token).
Proof.
  intros Ht (a & b & Heq & Hb & Hlen)%temp_place_spelled.
  rewrite (retry_plan_location_spelled _ Ht) in Heq.
  apply app_slash_inj in Heq;
    [|rewrite slash_free_app, Ht; reflexivity|exact Hb].
  destruct Heq as [Ha _]. destruct retry_dir_spelled as [base Hr].
  rewrite Hr in Ha. apply (f_equal String.length) in Ha.
  rewrite str_app_length in Ha. cbn in Ha. lia.
Qed.

(** Different tokens give different places. *)
Lemma retry_plan_location_inj (s t : string) :
  slash_free s = true -> slash_free t = true ->
  retry_plan_location s = retry_plan_location t -> s = t.
Proof.
  intros Hs Ht Heq.
  rewrite (retry_plan_location_spelled _ Hs),
          (retry_plan_location_spelled _ Ht) in Heq.
  apply app_slash_inj in Heq;
    [|rewrite slash_free_app, ?Hs, ?Ht; reflexivity..].
  destruct Heq as [_ Heq]. exact (app_inv_tail _ _ _ Heq).
Qed.

End PlaceFacts.



Section ScratchFrame.
Context {H : Host}.

Lemma scratch_only_refl w : scratch_only w w.
Proof. split; [reflexivity | intros; reflexivity]. Qed.

Lemma scratch_only_trans a b c :
  scratch_only a b -> scratch_only b c -> scratch_only a c.
Proof.
  intros [A1 A2] [B1 B2]. split; [congruence|].
  intros q Hq. now rewrite B2, A2.
Qed.

Lemma holds_bind_returns {A B} R P E (Q : A -> Prop) (m : M A) (k : A -> M B) :
  (forall a b c, R a b -> R b c -> R a c) ->
  holds R P E m -> returns Q m ->
  (forall a, Q a -> holds R P E (k a)) -> holds R P E (bind m k).
Proof.
  intros R_trans Hm Hq Hk w r w' t. unfold bind.
  destruct (m w) as [[[a|x] w1] t1] eqn:Hmw.
  - destruct (k a w1) as [[r2 w2] t2] eqn:Hkw. intros [= <- <- <-].
    destruct (Hm _ _ _ _ Hmw) as (HR1 & HP1 & _).
    destruct (Hk a (Hq _ _ _ _ Hmw) _ _ _ _ Hkw) as (HR2 & HP2 & HE2).
    repeat split; eauto. now apply Forall_app.
  - intros [= <- <- <-]. exact (Hm _ _ _ _ Hmw).
Qed.

Ltac sside :=
  solve [ apply scratch_only_refl
        | exact scratch_only_trans
        | exact I
        | reflexivity
        | intros; exact I
        | intros; reflexivity
        | unfold exc_ok; intros; assumption
        | intros; apply scratch_only_refl
        | intros; split; [reflexivity | intros; reflexivity] ].

Ltac sstep :=
  first
    [ apply holds_ret; sside
    | apply holds_get; sside
    | apply holds_emit; sside
    | apply holds_raise; sside
    | apply holds_reraise; sside
    | apply holds_modify; sside
    | apply holds_bind; [exact scratch_only_trans | | intros ? ]
    | match goal with
      | |- holds _ _ _ (match ?x with _ => _ end) => destruct x eqn:?
      | |- holds _ _ _ (if ?x then _ else _) => destruct x eqn:?
      | |- holds _ _ _ (let '(_, _) := ?x in _) => destruct x eqn:?
      end ].

Lemma scratch_insert (tp : string) (n : HostNode) (w : World) :
  temp_place tp ->
  scratch_only w (set_host (fun h => <[tp := n]> h) w).
Proof.
  intros Htp. split; [reflexivity|]. intros q Hq. cbn.
  apply lookup_insert_ne. intros <-. exact (Hq Htp).
Qed.

Lemma scratch_delete (tp : string) (w : World) :
  temp_place tp -> scratch_only w (set_host (fun h => delete tp h) w).
Proof.
  intros Htp. split; [reflexivity|]. intros q Hq. cbn.
  apply lookup_delete_ne. intros <-. exact (Hq Htp).
Qed.

Lemma scratch_download_body file_id :
  holds scratch_only any_event is_exception (download_body file_id None).
Proof.
  unfold download_body, log, no_device.
  repeat first
    [ sstep
    | apply holds_modify; intros w0; apply scratch_insert; eexists; reflexivity ].
Qed.

Lemma download_body_returns file_id :
  returns temp_place (download_body file_id None).
Proof.
  intros w tp w' t. unfold download_body, bind, get, no_device, raise. cbn.
  destruct (device w); cbn; [|discriminate].
  destruct (id_map w !! file_id) as [entry|]; [|discriminate].
  destruct (LIBMTP_Get_File_To_File _ _ _) as [[result written] d].
  cbn. destruct written; cbn; destruct (result =? 0)%Z; cbn;
    intros [= <- _ _] || discriminate; eexists; reflexivity.
Qed.

Lemma scratch_download file_id :
  holds scratch_only any_event is_exception (download file_id None).
Proof.
  apply holds_retrying; try sside. apply scratch_download_body.
Qed.

Lemma download_returns file_id : returns temp_place (download file_id None).
Proof.
  intros w tp w' t. apply with_retry_value. apply download_body_returns.
Qed.

Lemma scratch_upload_and_register E e rel_path source_path parent_node parent_id :
  holds scratch_only any_event E
    (upload_and_register e rel_path source_path parent_node parent_id).
Proof.
  unfold upload_and_register.
  apply holds_guarded; [exact scratch_only_trans | | intros x; unfold log; repeat sstep].
  apply holds_bind; [exact scratch_only_trans | apply holds_upload; sside | intros new_id].
  apply holds_bind; [exact scratch_only_trans | | intros valid].
  - destruct (use_checksum e); [|apply holds_ret; sside].
    apply (holds_bind_returns _ _ _ temp_place);
      [exact scratch_only_trans | apply scratch_download | apply download_returns
      | intros temp_path Htp].
    unfold log, unlink.
    repeat first
      [ apply holds_calculate_checksum; sside
      | apply holds_path_exists; sside
      | apply holds_modify; intros w0; now apply scratch_delete
      | sstep ].
  - unfold log.
    repeat first
      [ apply holds_stat_size; sside
      | apply holds_alloc; sside
      | apply holds_load_global; sside
      | sstep ].
Qed.

Lemma scratch_ensure_directory E e rel_path :
  holds scratch_only any_event E (_ensure_directory e rel_path).
Proof. apply holds_ensure_directory; sside. Qed.

Lemma scratch_sync_file E e rel_path :
  holds scratch_only any_event E (_sync_file e rel_path).
Proof.
  unfold _sync_file, log.
  repeat first
    [ apply holds_path_exists; sside
    | apply scratch_ensure_directory
    | apply scratch_upload_and_register
    | sstep ].
Qed.

Lemma scratch_phase_dirs E e items : forall failed,
  holds scratch_only any_event E (phase_dirs e items failed).
Proof.
  induction items as [|[p k] rest IH]; intros failed; cbn [phase_dirs];
    repeat first [apply IH | apply scratch_ensure_directory | sstep].
Qed.

Lemma scratch_phase_files E e items : forall failed,
  holds scratch_only any_event E (phase_files e items failed).
Proof.
  induction items as [|[p k] rest IH]; intros failed; cbn [phase_files];
    repeat first [apply IH | apply scratch_sync_file | sstep].
Qed.

Lemma scratch_phases E e plan :
  holds scratch_only any_event E (phases e plan).
Proof.
  unfold phases.
  apply holds_bind; [exact scratch_only_trans | apply scratch_phase_dirs | intros failed].
  apply scratch_phase_files.
Qed.

End ScratchFrame.


Section RetryPlanPlace.
Context {H : Host}.

(** A host without an entry under the retry directory has no retry
    plan at all, so none with a token that is still to come. *)
Lemma tokens_unused_empty (w : World) :
  (forall n, slash_free (uuid4_hex n) = true) ->
  (forall q, Str.startswith (RETRY_DIR +:+ "/") q = true -> host w !! q = None) ->
  tokens_unused w.
Proof.
  intros Hplain Hempty n _. apply Hempty.
  rewrite retry_plan_location_spelled by apply Hplain.
  unfold Str.startswith. rewrite <- (str_app_assoc RETRY_DIR "/").
  apply prefix_app.
Qed.


End RetryPlanPlace.

(* ===================================================================== *)
(** * The properties beyond the claims on concrete inputs *)
(* ===================================================================== *)

Lemma execute_unreadable_plan_witness :
  execute (H := host_a) engine_size (Some "/plans/none.json") world_a
  = Some (Raise (mk_exn FileNotFoundError "/plans/none.json"), world_a, []).
Proof.
  apply (proj1 (execute_unreadable_plan (H := host_a) engine_size
                  "/plans/none.json" world_a)).
  reflexivity.
Defined.

Lemma execute_skips_other_kinds_witness :
  execute (H := host_a) engine_size (Some plan_file) world_other
  = Some (Ok (true, None), world_other, []).
Proof.
  apply (execute_skips_other_kinds (H := host_a) engine_size plan_file
           (Json.dumps plan_other) plan_other world_other);
    [reflexivity | reflexivity |].
  intros q k [[= <- <-]|[]]. split; discriminate.
Defined.

Lemma execute_each_path_once_witness :
  exists r w' t,
    execute (H := host_a) engine_size (Some plan_file) world_planned = Some (r, w', t)
    /\ List.NoDup (map (fun x => fst (fst x)) (entries_of t)).
Proof.
  apply (execute_each_path_once (H := host_a) engine_size plan_file
           (Json.dumps plan_a) plan_a world_planned); reflexivity.
Defined.

Lemma execute_retry_runs_failures_witness :
  match execute (H := host_a) engine_size (Some plan_file) world_planned with
  | Some (_, w1, t1) =>
      exists r2 w2 t2,
        execute (H := host_a) engine_size
          (Some "/app/data/.execution_retry/token0.json") w1 = Some (r2, w2, t2)
        /\ map fst (entries_of t2)
           = dir_entries (failed_of t1) ++ file_entries (failed_of t1)
        /\ (forall q k, In (q, k, true) (entries_of t1) ->
                        ~ In q (map (fun x => fst (fst x)) (entries_of t2)))
  | None => False
  end.
Proof.
  destruct (execute (H := host_a) engine_size (Some plan_file) world_planned)
    as [[[r w1] t1]|] eqn:Hrun; [|vm_compute in Hrun; discriminate Hrun].
  assert (Hr : r = Ok (false, Some "/app/data/.execution_retry/token0.json")).
  { vm_compute in Hrun. injection Hrun as <- _ _. reflexivity. }
  subst r.
  apply (execute_retry_runs_failures (H := host_a) engine_size plan_file
           (Json.dumps plan_a) plan_a world_planned _ w1 t1);
    [reflexivity | reflexivity | exact Hrun |].
  intros c Hc. vm_compute in Hrun. injection Hrun as <- _.
  vm_compute in Hc. discriminate Hc.
Defined.


Lemma execute_keeps_paths_witness :
  match execute (H := host_a) engine_size (Some plan_file) world_planned with
  | Some (_, w', _) => path_map w' !! "/d" = Some 0
  | None => False
  end.
Proof.
  destruct (execute (H := host_a) engine_size (Some plan_file) world_planned)
    as [[[r w'] t]|] eqn:Hrun; [|vm_compute in Hrun; discriminate Hrun].
  apply (execute_keeps_paths (H := host_a) engine_size (Some plan_file)
           world_planned r w' t Hrun).
  reflexivity.
Defined.

Lemma execute_keeps_id_map_witness :
  match execute (H := host_a) engine_size (Some plan_file) world_planned with
  | Some (_, w', _) => id_map w' = root_ids
  | None => False
  end.
Proof.
  destruct (execute (H := host_a) engine_size (Some plan_file) world_planned)
    as [[[r w'] t]|] eqn:Hrun; [|vm_compute in Hrun; discriminate Hrun].
  exact (execute_keeps_id_map (H := host_a) engine_size (Some plan_file)
           world_planned r w' t Hrun).
Defined.

Lemma execute_device_calls_bounded_witness :
  exists r w' t,
    execute (H := host_a) engine_size (Some plan_file) world_planned = Some (r, w', t)
    /\ length (device_calls t) <= 12.
Proof.
  apply (execute_device_calls_bounded (H := host_a) engine_size plan_file
           (Json.dumps plan_a) plan_a world_planned); reflexivity.
Defined.

Lemma ensure_directory_no_segment_witness :
  _ensure_directory (H := host_a) engine_size "" world_a = (Ok true, world_a, []).
Proof. apply (ensure_directory_no_segment (H := host_a)). reflexivity. Defined.

Lemma scan_kinds_by_slash_witness :
  kinds_by_slash (fold_left scan_step [(".", ["a.txt"])] []).
Proof.
  refine (proj2 (proj2 (proj2
    (scan_kinds_by_slash (H := host_a) engine_size world_a
       (fold_left scan_step [(".", ["a.txt"])] []) world_a [] _ _)))).
  - intros visit f [<-|[]] [<-|[]]. reflexivity.
  - reflexivity.
Defined.

Lemma verify_size_only_offline_witness :
  events_of (verify (H := host_a) engine_size (Some "/x/y/p.json") world_a) = []
  /\ wrote_plan_only (H := host_a) "/x/y/p.json" world_a
       (world_of (verify (H := host_a) engine_size (Some "/x/y/p.json") world_a)).
Proof.
  apply (verify_size_only_offline (H := host_a) engine_size
           (Some "/x/y/p.json") world_a).
  reflexivity.
Defined.

(** The directories above the plan that are missing are created. *)
Example verify_creates_directories_above :
  let w' := world_of (verify (H := host_a) engine_size (Some "/x/y/p.json") world_a) in
  host world_a !! "/x" = None
  /\ host w' !! "/x" = Some (HostDir 0)
  /\ host w' !! "/x/y" = Some (HostDir 0)
  /\ host w' !! "/x/y/p.json" = Some (HostFile (Json.dumps [("a.txt", "file")]) true).
Proof. vm_compute. repeat split. Qed.

Lemma verify_plan_entries_witness :
  exists w1 source_map plan rd,
    "/app/data/execution_plan.json" = plan_place (H := host_a) None
    /\ mkdir_parents (H := host_a)
         (PosixPath.dirname "/app/data/execution_plan.json") world_a
       = (Ok tt, w1, [])
    /\ _scan_source_directory (H := host_a) engine_size w1 = (Ok source_map, w1, [])
    /\ host (world_of (verify (H := host_a) engine_size None world_a))
         !! "/app/data/execution_plan.json"
       = Some (HostFile (Json.dumps plan) rd)
    /\ (forall q k, In (q, k) plan -> In (q, k) source_map)
    /\ (forall q k, In (q, k) source_map ->
                    path_map world_a !! dest_of engine_size q = None ->
                    In (q, k) plan)
    /\ (forall q k, In (q, k) source_map -> k <> "file" ->
                    path_map world_a !! dest_of engine_size q <> None ->
                    ~ In q (Dict.keys plan)).
Proof.
  apply (verify_plan_entries (H := host_a) engine_size None world_a
           "/app/data/execution_plan.json"
           (world_of (verify (H := host_a) engine_size None world_a))
           (events_of (verify (H := host_a) engine_size None world_a))).
  vm_compute. reflexivity.
Defined.

Lemma with_retry_sleeps_between_attempts_witness :
  let t := events_of (with_retry (H := host_a) 3 RETRY_BACKOFF_FACTOR
                        default_exceptions "probe"
                        (raise (A := unit) ValueError "no") world_a) in
  1 <= attempts_of "probe" t
  /\ (Z.of_nat (attempts_of "probe" t) <= 3 + 1)%Z
  /\ length (sleeps_of t) + 1 = attempts_of "probe" t.
Proof.
  apply (with_retry_sleeps_between_attempts (H := host_a) 3 RETRY_BACKOFF_FACTOR
           default_exceptions "probe" (raise (A := unit) ValueError "no") world_a).
  - lia.
  - intros w0 r w1 t [= _ _ <-]. constructor.
Defined.

Lemma with_retry_negative_budget_witness :
  with_retry (H := host_a) (-1) RETRY_BACKOFF_FACTOR default_exceptions "probe"
    (ret tt) world_a
  = (Raise (mk_exn RuntimeError "Unexpected error in retry mechanism"), world_a, []).
Proof. apply (with_retry_negative_budget (H := host_a)). lia. Defined.

Lemma device_operations_without_device_witness :
  download (H := host_a) 7 None world_unplugged
  = (Raise no_device_error, set_rng_pos (H := host_a) 3 world_unplugged,
     failing_events (H := host_a) "download" no_device_error 0).
Proof.
  apply (proj1 (device_operations_without_device (H := host_a) world_unplugged
                  eq_refl)).
Defined.

Lemma upload_missing_source_witness :
  upload (H := host_a) "/src/none.txt" 1 None world_a
  = (Raise (mk_exn FileNotFoundError "Source file not found: /src/none.txt"),
     set_rng_pos (H := host_a) 3 world_a,
     failing_events (H := host_a) "upload"
       (mk_exn FileNotFoundError "Source file not found: /src/none.txt") 0).
Proof.
  apply (proj1 (upload_missing_source (H := host_a) "/src/none.txt" 1 None world_a
                  eq_refl eq_refl)).
Defined.

Lemma client_id_ranges_witness : (0 < 100 < 2 ^ 31)%Z.
Proof.
  refine (proj1 (client_id_ranges (H := host_a)) 1%Z "DCIM" 0%Z world_a 100%Z _ _ _).
  vm_compute. reflexivity.
Defined.

Lemma batch_checksums_any_order_witness :
  batch_calculate_checksums (H := host_a) ["/src/none.txt"; "/src/a.txt"] world_a
  = batch_calculate_checksums (H := host_a) ["/src/a.txt"; "/src/none.txt"] world_a
  /\ forall p,
       batch_calculate_checksums (H := host_a) ["/src/none.txt"; "/src/a.txt"] world_a
         !! p
       = if bool_decide (p ∈ ["/src/a.txt"; "/src/none.txt"])
         then Some (checksum_or_none (H := host_a) world_a p) else None.
Proof.
  apply (batch_checksums_any_order (H := host_a)). apply perm_swap.
Defined.

(** A device with a folder: the index is not built. *)
Example build_file_tree_with_folder :
  build_file_tree (H := host_a) (L := test_listing) 0 "/" world_a
  = (Raise files_unbound,
     set_heap (H := host_a) (fun h => <[1 := FolderNode 5 ∅]> h) world_a, []).
Proof. vm_compute. reflexivity. Qed.

(** The digest of a file that is read in chunks of two bytes. *)
Example calculate_checksum_in_twos :
  calculate_checksum_of (H := host_a) (fun c => c) "/src/a.txt" "sha256" 2 world_a
  = (Ok "hello", world_a, []).
Proof. vm_compute. reflexivity. Qed.

(** ** The uuid source of the examples *)

Lemma pretty_N_go_slash_free (x : N) : forall s,
  slash_free s = true -> slash_free (pretty_N_go x s) = true.
Proof.
  induction (N.lt_wf_0 x) as [x _ IH]. intros s Hs.
  destruct (N.eq_dec x 0%N) as [->|Hx]; [now rewrite pretty_N_go_0|].
  rewrite pretty_N_go_step by lia.
  apply IH; [apply N.div_lt; lia|].
  cbn [slash_free]. rewrite Hs, andb_true_r.
  unfold pretty_N_char. now repeat case_match.
Qed.

Lemma test_tokens_plain n :
  slash_free (uuid4_hex (Host := host_a) n) = true.
Proof.
  unfold host_a. cbn [uuid4_hex test_host]. rewrite slash_free_app.
  change (slash_free "token") with true. cbn [andb].
  unfold pretty, pretty_nat, pretty, pretty_N.
  destruct (decide _); [reflexivity|]. now apply pretty_N_go_slash_free.
Qed.

Lemma test_tokens_unique i j :
  uuid4_hex (Host := host_a) i = uuid4_hex (Host := host_a) j -> i = j.
Proof.
  unfold host_a. cbn [uuid4_hex test_host]. intros Heq.
  change ("token" +:+ pretty i) with
    (String "t" (String "o" (String "k" (String "e" (String "n" (pretty i))))))
    in Heq.
  change ("token" +:+ pretty j) with
    (String "t" (String "o" (String "k" (String "e" (String "n" (pretty j))))))
    in Heq.
  injection Heq as Heq. now apply (inj pretty).
Qed.

Lemma world_planned_tokens_unused : tokens_unused (H := host_a) world_planned.
Proof.
  intros n _.
  rewrite (retry_plan_location_spelled (H := host_a) _ (test_tokens_plain n)).
  set (rest := uuid4_hex n +:+ ".json").
  change (RETRY_DIR (H := host_a) +:+ "/" +:+ rest)
    with ("/app/data/.execution_retry/" +:+ rest).
  unfold world_planned, world_a, plan_file. cbn [host set_host].
  rewrite !lookup_insert_ne by discriminate.
  apply lookup_singleton_ne. discriminate.
Qed.

